(** * QPDF_json: the JSON import reactor and the JSON writer of libqpdf

    A shallow embedding of [libqpdf/QPDF_json.cc].  The reactor
    ([QPDF::JSONReactor]) is a push-driven state machine: the JSON parser
    calls it back for every container start, container end, dictionary item
    and array item, in document order.  The callbacks are embedded as
    computations in a state-and-exception monad over the reactor's fields;
    the document a reactor writes to is part of that state. *)

From Stdlib Require Import ZArith Ascii String List Lia.
From stdpp Require Import base tactics option list gmap strings pretty sorting.
From Equations Require Import Equations.

Local Open Scope Z_scope.
Local Open Scope string_scope.

Set Warnings "-register-all".

(** ** Text helpers and the compiled patterns *)

Module Text.

Definition is_digit (c : ascii) : bool :=
  let n := nat_of_ascii c in (48 <=? n)%nat && (n <=? 57)%nat.

Definition is_hex_digit (c : ascii) : bool :=
  let n := nat_of_ascii c in
  ((48 <=? n)%nat && (n <=? 57)%nat)
  || ((97 <=? n)%nat && (n <=? 102)%nat)
  || ((65 <=? n)%nat && (n <=? 70)%nat).

(** The longest prefix of digits, and what follows it. *)
Fixpoint span_digits (s : string) : string * string :=
  match s with
  | String c rest =>
      if is_digit c
      then let '(ds, tl) := span_digits rest in (String c ds, tl)
      else (EmptyString, s)
  | EmptyString => (EmptyString, EmptyString)
  end.

(** [\d+] at the head of [s]: the digits and the remainder. *)
Definition digits1 (s : string) : option (string * string) :=
  match span_digits s with
  | (EmptyString, _) => None
  | (ds, tl) => Some (ds, tl)
  end.

Fixpoint strip_prefix (p s : string) : option string :=
  match p, s with
  | EmptyString, _ => Some s
  | String a p', String b s' =>
      if Ascii.eqb a b then strip_prefix p' s' else None
  | String _ _, EmptyString => None
  end.

Fixpoint all_hex_pairs (s : string) : bool :=
  match s with
  | EmptyString => true
  | String a (String b rest) =>
      is_hex_digit a && is_hex_digit b && all_hex_pairs rest
  | String _ EmptyString => false
  end.

Definition digit_value (c : ascii) : Z := Z.of_nat (nat_of_ascii c) - 48.

Definition hex_value (c : ascii) : nat :=
  let n := nat_of_ascii c in
  if (97 <=? n)%nat then (n - 87)%nat
  else if (65 <=? n)%nat then (n - 55)%nat
  else (n - 48)%nat.

Fixpoint decimal_value_from (acc : Z) (s : string) : Z :=
  match s with
  | EmptyString => acc
  | String c rest => decimal_value_from (10 * acc + digit_value c) rest
  end.

Definition decimal_value (s : string) : Z := decimal_value_from 0 s.

Fixpoint all_digits (s : string) : bool :=
  match s with
  | EmptyString => true
  | String c rest => is_digit c && all_digits rest
  end.

End Text.

(** The patterns of lines 60-65.  [std::regex_match] succeeds only when the
    whole string matches, so every matcher consumes its argument to the end;
    a matcher returns the capture groups of its pattern. *)
Module Regex.
Import Text.

(** [PDF_VERSION_RE]: digits, a dot, digits. *)
Definition PDF_VERSION_RE (s : string) : bool :=
  match digits1 s with
  | Some (_, String "." tl) =>
      match digits1 tl with
      | Some (_, EmptyString) => true
      | _ => false
      end
  | _ => false
  end.

(** [INDIRECT_OBJ_RE]: digits, a space, digits, a space and R; the two
    digit groups are captured. *)
Definition INDIRECT_OBJ_RE (s : string) : option (string * string) :=
  match digits1 s with
  | Some (m1, String " " tl) =>
      match digits1 tl with
      | Some (m2, String " " (String "R" EmptyString)) => Some (m1, m2)
      | _ => None
      end
  | _ => None
  end.

(** [OBJ_KEY_RE]: the prefix obj: followed by the shape of
    [INDIRECT_OBJ_RE]. *)
Definition OBJ_KEY_RE (s : string) : option (string * string) :=
  match strip_prefix "obj:" s with
  | Some tl => INDIRECT_OBJ_RE tl
  | None => None
  end.

(** [UNICODE_RE]: the prefix u: followed by any characters, which are
    captured. *)
Definition UNICODE_RE (s : string) : option string := strip_prefix "u:" s.

(** [BINARY_RE]: the prefix b: followed by pairs of hex digits, which are
    captured. *)
Definition BINARY_RE (s : string) : option string :=
  match strip_prefix "b:" s with
  | Some tl => if all_hex_pairs tl then Some tl else None
  | None => None
  end.

(** [NAME_RE]: a slash followed by any characters. *)
Definition NAME_RE (s : string) : bool :=
  match s with
  | String "/" _ => true
  | _ => false
  end.

End Regex.

(** ** QUtil and QIntC *)

Module QUtil.
Import Text.

(** Modelled from the spec: [QUtil::is_long_long] is defined in QUtil.cc,
    which is not part of this file.  Section 4.2: the textual form of a
    number "parses as an arbitrarily-large signed integer"; that is an
    optional minus sign followed by one or more decimal digits, of any
    length. *)
Definition is_long_long (s : string) : bool :=
  match s with
  | String "-" ds => negb (String.eqb ds EmptyString) && all_digits ds
  | _ => negb (String.eqb s EmptyString) && all_digits s
  end.

(** Modelled from the spec: [QUtil::string_to_ll] (QUtil.cc), the value of
    such a numeral. *)
Definition string_to_ll (s : string) : Z :=
  match s with
  | String "-" ds => - decimal_value ds
  | _ => decimal_value s
  end.

(** [int] and [long long] on the supported platforms. *)
Definition int_max : Z := 2147483647.
Definition long_long_max : Z := 9223372036854775807.

(** Modelled from the spec: [QUtil::string_to_int] (QUtil.cc).  Section 3:
    an object id and a generation are non-negative integers; the reactor
    passes it the digit groups captured by [OBJ_KEY_RE] and
    [INDIRECT_OBJ_RE].  The spec puts no bound on them, but the result is
    an [int] (lines 231-232): the digits are read as a [long long] and the
    number is narrowed to [int], and a number that does not fit makes the
    library throw a [std::range_error].  The result is the number, or the
    message of that exception. *)
Definition string_to_int (s : string) : Z + string :=
  let n := decimal_value s in
  if (long_long_max <? n)%Z then
    inr ("overflow/underflow converting " ++ s ++ " to 64-bit integer")
  else if (int_max <? n)%Z then
    inr ("integer out of range converting " ++ pretty n
         ++ " from a 8-byte signed type to a 4-byte signed type")
  else inl n.

(** Modelled from the spec: [QUtil::hex_decode] (QUtil.cc): section 4.2, an
    even-length hex string decoded to raw bytes. *)
Fixpoint hex_decode (s : string) : string :=
  match s with
  | String a (String b rest) =>
      String (ascii_of_nat (16 * hex_value a + hex_value b)) (hex_decode rest)
  | _ => EmptyString
  end.

(** Modelled from the spec: [QUtil::int_to_string] and
    [QUtil::uint_to_string] (QUtil.cc): decimal text of a number. *)
Definition int_to_string (n : Z) : string := pretty n.
Definition uint_to_string (n : Z) : string := pretty n.

End QUtil.

Module QIntC.

(** [size_t] on the supported platforms. *)
Definition size_max : Z := 2 ^ 64.
Definition wrap_size_t (n : Z) : Z := n mod size_max.

(** Modelled from the spec: [QIntC::to_offset] (QIntC.hh) turns a position
    into the offset type of a diagnostic; section 7: each error is recorded
    "with the offending byte offset". *)
Definition to_offset (n : Z) : Z := n.

(** Modelled from the spec: [QIntC::to_longlong] (QIntC.hh), the same
    number in another integer type. *)
Definition to_longlong (n : Z) : Z := n.

End QIntC.

(** ** JSON values, as the reactor sees them *)

(** Modelled from the spec: the JSON class (JSON.hh, JSON.cc) is not part of
    this file.  Section 3: a Value is a variant over null, bool, number (in
    its textual form), string, array and dictionary, and carries the start
    and end byte offsets of its source text.  The reactor asks a value only
    for its kind, its scalar payload and its offsets. *)
Inductive JSON : Type :=
| JSON_dictionary (members : list (string * JSON)) (start end_ : Z)
| JSON_array (elements : list JSON) (start end_ : Z)
| JSON_null (start end_ : Z)
| JSON_bool (b : bool) (start end_ : Z)
| JSON_number (text : string) (start end_ : Z)
| JSON_string (text : string) (start end_ : Z).

(** The accessors of a value, as the reactor calls them. *)
Definition isDictionary (j : JSON) : bool :=
  match j with JSON_dictionary _ _ _ => true | _ => false end.

Definition isArray (j : JSON) : bool :=
  match j with JSON_array _ _ _ => true | _ => false end.

Definition isNull (j : JSON) : bool :=
  match j with JSON_null _ _ => true | _ => false end.

Definition getBool (j : JSON) : option bool :=
  match j with JSON_bool b _ _ => Some b | _ => None end.

Definition getNumber (j : JSON) : option string :=
  match j with JSON_number s _ _ => Some s | _ => None end.

Definition getString (j : JSON) : option string :=
  match j with JSON_string s _ _ => Some s | _ => None end.

Definition getStart (j : JSON) : Z :=
  match j with
  | JSON_dictionary _ s _ | JSON_array _ s _ | JSON_null s _
  | JSON_bool _ s _ | JSON_number _ s _ | JSON_string _ s _ => s
  end.

Definition getEnd (j : JSON) : Z :=
  match j with
  | JSON_dictionary _ _ e | JSON_array _ _ e | JSON_null _ e
  | JSON_bool _ _ e | JSON_number _ _ e | JSON_string _ _ e => e
  end.

(** ** The document: objects, handles and the object table *)

Definition QPDFObjGen : Type := Z * Z.

(** Modelled from the spec: [QPDFObjectHandle] (QPDFObjectHandle.hh).
    Section 3: holders keep references to nodes.  A handle is a shared
    pointer to an object, or names an indirect object by its id and
    generation; a default-constructed handle is uninitialized. *)
Inductive QPDFObjectHandle : Type :=
| h_uninitialized
| h_direct (l : nat)
| h_indirect (og : QPDFObjGen).

(** What [provide_data] (lines 67-86) and [QUtil::file_provider] close
    over: the input and the byte range of the base64 text, or a file
    name. *)
Inductive stream_data_provider : Type :=
| provide_data (input : string) (start end_ : Z)
| file_provider (filename : string).

Inductive string_encoding : Type := text_string | byte_string.

(** Modelled from the spec: the kinds of graph node of section 3. *)
Inductive QPDFObject : Type :=
| ot_reserved
| ot_null
| ot_boolean (b : bool)
| ot_integer (v : Z)
| ot_real (text : string)
| ot_string (enc : string_encoding) (s : string)
| ot_name (name : string)
| ot_array (items : list QPDFObjectHandle)
| ot_dictionary (items : gmap string QPDFObjectHandle)
| ot_stream (dict : QPDFObjectHandle) (data : option stream_data_provider).

Inductive qpdf_error_code_e : Type := qpdf_e_json.

(** Modelled from the spec: [QPDFExc] (QPDFExc.hh).  Section 7: an error is
    recorded with the offending byte offset and a message; [warn] is also
    given the error code and the current object (line 115). *)
Record QPDFExc : Type := mkQPDFExc {
  error_code : qpdf_error_code_e;
  object : string;
  offset : Z;
  message : string
}.

(** Modelled from the spec: the members of [QPDF] this file reads and
    writes: the object table ([obj_cache]) and the objects it points to,
    the descriptions attached to objects, [m->pdf_version], [m->trailer] and
    the warnings recorded so far. *)
Record QPDF : Type := mkQPDF {
  obj_cache : gmap QPDFObjGen nat;
  object_heap : list QPDFObject;
  descriptions : gmap nat string;
  pdf_version : string;
  trailer : QPDFObjectHandle;
  warnings : list QPDFExc
}.

Definition with_obj_cache (v : gmap QPDFObjGen nat) (q : QPDF) : QPDF :=
  {| obj_cache := v;
     object_heap := object_heap q;
     descriptions := descriptions q;
     pdf_version := pdf_version q;
     trailer := trailer q;
     warnings := warnings q |}.

Definition with_object_heap (v : list QPDFObject) (q : QPDF) : QPDF :=
  {| obj_cache := obj_cache q;
     object_heap := v;
     descriptions := descriptions q;
     pdf_version := pdf_version q;
     trailer := trailer q;
     warnings := warnings q |}.

Definition with_descriptions (v : gmap nat string) (q : QPDF) : QPDF :=
  {| obj_cache := obj_cache q;
     object_heap := object_heap q;
     descriptions := v;
     pdf_version := pdf_version q;
     trailer := trailer q;
     warnings := warnings q |}.

Definition with_pdf_version (v : string) (q : QPDF) : QPDF :=
  {| obj_cache := obj_cache q;
     object_heap := object_heap q;
     descriptions := descriptions q;
     pdf_version := v;
     trailer := trailer q;
     warnings := warnings q |}.

Definition with_trailer (v : QPDFObjectHandle) (q : QPDF) : QPDF :=
  {| obj_cache := obj_cache q;
     object_heap := object_heap q;
     descriptions := descriptions q;
     pdf_version := pdf_version q;
     trailer := v;
     warnings := warnings q |}.

Definition with_warnings (v : list QPDFExc) (q : QPDF) : QPDF :=
  {| obj_cache := obj_cache q;
     object_heap := object_heap q;
     descriptions := descriptions q;
     pdf_version := pdf_version q;
     trailer := trailer q;
     warnings := v |}.
(** The object table and the handle operations (QPDF.cc,
    QPDFObjectHandle.cc) are not part of this file; they are modelled from
    sections 2 and 3 of the spec: the table maps an ObjGen to a graph node
    and supports create, reserve-if-absent and replace; containers hold
    references, and "the table is the single owner".  Objects live in
    [object_heap]; a direct handle is the index of its object there, so that
    the handle kept on the reactor's object stack and the handle stored in
    the table or in a parent container denote one object.  An operation
    applied to a handle of the wrong kind has no effect; the spec gives it
    none. *)
Module ObjectGraph.

(** Modelled from the spec: making a new object ([newNull], [newDictionary]
    and their siblings): it is appended to the heap. *)
Definition alloc (o : QPDFObject) (q : QPDF) : QPDFObjectHandle * QPDF :=
  (h_direct (length (object_heap q)),
   with_object_heap (object_heap q ++ [o]) q).

(** Modelled from the spec: the place of the object a handle denotes; an
    indirect handle goes through the table. *)
Definition loc_of (q : QPDF) (h : QPDFObjectHandle) : option nat :=
  match h with
  | h_uninitialized => None
  | h_direct l => Some l
  | h_indirect og => obj_cache q !! og
  end.

(** Modelled from the spec: the object a handle denotes. *)
Definition resolve (q : QPDF) (h : QPDFObjectHandle) : option QPDFObject :=
  match loc_of q h with
  | Some l => object_heap q !! l
  | None => None
  end.

(** Modelled from the spec: a change made through a handle is made to the
    object it denotes, and is seen through every handle of that object. *)
Definition update (h : QPDFObjectHandle) (f : QPDFObject -> QPDFObject)
    (q : QPDF) : QPDF :=
  match loc_of q h with
  | Some l =>
      match object_heap q !! l with
      | Some o => with_object_heap (<[l := f o]> (object_heap q)) q
      | None => q
      end
  | None => q
  end.

(** Modelled from the spec: [QPDFObjectHandle::isInitialized]. *)
Definition isInitialized (h : QPDFObjectHandle) : bool :=
  match h with h_uninitialized => false | _ => true end.

(** Modelled from the spec: [QPDFObjectHandle::isIndirect]. *)
Definition isIndirect (h : QPDFObjectHandle) : bool :=
  match h with h_indirect _ => true | _ => false end.

(** Modelled from the spec: [QPDFObjectHandle::getObjGen]; a direct object
    has no id: (0, 0). *)
Definition getObjGen (h : QPDFObjectHandle) : QPDFObjGen :=
  match h with h_indirect og => og | _ => (0, 0) end.

(** Modelled from the spec: [getObjectID] and [getGeneration]. *)
Definition getObjectID (h : QPDFObjectHandle) : Z := fst (getObjGen h).
Definition getGeneration (h : QPDFObjectHandle) : Z := snd (getObjGen h).

(** Modelled from the spec: the type tests [isReserved], [isStream],
    [isDictionary] and [isNull] look at the object the handle denotes. *)
Definition isReserved (q : QPDF) (h : QPDFObjectHandle) : bool :=
  match resolve q h with Some ot_reserved => true | _ => false end.

Definition isStream (q : QPDF) (h : QPDFObjectHandle) : bool :=
  match resolve q h with Some (ot_stream _ _) => true | _ => false end.

Definition isDictionary (q : QPDF) (h : QPDFObjectHandle) : bool :=
  match resolve q h with Some (ot_dictionary _) => true | _ => false end.

Definition isNull (q : QPDF) (h : QPDFObjectHandle) : bool :=
  match resolve q h with Some ot_null => true | _ => false end.

(** Modelled from the spec: [QPDFObjectHandle::getDict], the dictionary of
    a stream. *)
Definition getDict (q : QPDF) (h : QPDFObjectHandle) : QPDFObjectHandle :=
  match resolve q h with Some (ot_stream d _) => d | _ => h_uninitialized end.

(** Modelled from the spec: [QPDF::reserveObjectIfNotExists], section 2:
    reserve-if-absent.  A new entry points at a new Reserved node. *)
Definition reserveObjectIfNotExists (o g : Z) (q : QPDF)
    : QPDFObjectHandle * QPDF :=
  match obj_cache q !! (o, g) with
  | Some _ => (h_indirect (o, g), q)
  | None =>
      (h_indirect (o, g),
       with_obj_cache (<[(o, g) := length (object_heap q)]> (obj_cache q))
         (with_object_heap (object_heap q ++ [ot_reserved]) q))
  end.

(** Modelled from the spec: [QPDF::replaceObject], section 2: replace.  The
    table entry is made to point at the object of a direct handle.  A handle
    that is itself indirect, or uninitialized, is no object to store:
    [None]. *)
Definition replaceObject (og : QPDFObjGen) (oh : QPDFObjectHandle) (q : QPDF)
    : option QPDF :=
  match oh with
  | h_direct l => Some (with_obj_cache (<[og := l]> (obj_cache q)) q)
  | _ => None
  end.

(** Modelled from the spec: [QPDF::reserveStream], section 4.1: a new
    stream object with an empty dictionary and no data yet. *)
Definition reserveStream (o g : Z) (q : QPDF) : QPDFObjectHandle * QPDF :=
  let '(d, q1) := alloc (ot_dictionary ∅) q in
  alloc (ot_stream d None) q1.

(** Modelled from the spec: [replaceDict] and [replaceStreamData] change a
    stream in place. *)
Definition replaceDict (h dict : QPDFObjectHandle) : QPDF -> QPDF :=
  update h (fun o =>
    match o with ot_stream _ data => ot_stream dict data | _ => o end).

Definition replaceStreamData (h : QPDFObjectHandle)
    (p : stream_data_provider) : QPDF -> QPDF :=
  update h (fun o =>
    match o with ot_stream d _ => ot_stream d (Some p) | _ => o end).

(** Modelled from the spec: [replaceKey] sets a key of a dictionary in
    place. *)
Definition replaceKey (h : QPDFObjectHandle) (key : string)
    (v : QPDFObjectHandle) : QPDF -> QPDF :=
  update h (fun o =>
    match o with
    | ot_dictionary items => ot_dictionary (<[key := v]> items)
    | _ => o
    end).

(** Modelled from the spec: [appendItem] adds to the end of an array in
    place. *)
Definition appendItem (h v : QPDFObjectHandle) : QPDF -> QPDF :=
  update h (fun o =>
    match o with ot_array items => ot_array (items ++ [v]) | _ => o end).

(** Modelled from the spec: [setObjectDescription]; section 4.2: every
    produced node is annotated with a description. *)
Definition setObjectDescription (h : QPDFObjectHandle) (d : string)
    (q : QPDF) : QPDF :=
  match loc_of q h with
  | Some l => with_descriptions (<[l := d]> (descriptions q)) q
  | None => q
  end.

(** Modelled from the spec: [QPDF::warn], section 7: the error is recorded;
    it is appended to the document's list. *)
Definition warn (e : QPDFExc) (q : QPDF) : QPDF :=
  with_warnings (warnings q ++ [e]) q.

End ObjectGraph.

(** ** The reactor *)

Inductive state_e : Type :=
| st_initial | st_top | st_qpdf | st_objects | st_trailer
| st_object_top | st_stream | st_object | st_ignore.

(** The fields of [QPDF::JSONReactor].  [pdf] is the document the reactor
    was given by reference, [is_name] the name of its input source.  The two
    vectors [state_stack] and [object_stack] are kept with their back
    element first. *)
Record JSONReactor : Type := mkJSONReactor {
  pdf : QPDF;
  is_name : string;
  must_be_complete : bool;
  errors : bool;
  parse_error : bool;
  saw_qpdf : bool;
  saw_objects : bool;
  saw_pdf_version : bool;
  saw_trailer : bool;
  state : state_e;
  next_state : state_e;
  cur_object : string;
  saw_value : bool;
  saw_stream : bool;
  saw_dict : bool;
  saw_data : bool;
  saw_datafile : bool;
  state_stack : list state_e;
  object_stack : list QPDFObjectHandle;
  reserved : gset QPDFObjGen
}.

(** Assignment to one field. *)
Definition set_pdf (v : QPDF) (r : JSONReactor) : JSONReactor :=
  mkJSONReactor v (is_name r) (must_be_complete r) (errors r) (parse_error
    r) (saw_qpdf r) (saw_objects r) (saw_pdf_version r) (saw_trailer r)
    (state r) (next_state r) (cur_object r) (saw_value r) (saw_stream r)
    (saw_dict r) (saw_data r) (saw_datafile r) (state_stack r) (object_stack
    r) (reserved r).

Definition set_errors (v : bool) (r : JSONReactor) : JSONReactor :=
  mkJSONReactor (pdf r) (is_name r) (must_be_complete r) v (parse_error r)
    (saw_qpdf r) (saw_objects r) (saw_pdf_version r) (saw_trailer r) (state
    r) (next_state r) (cur_object r) (saw_value r) (saw_stream r) (saw_dict
    r) (saw_data r) (saw_datafile r) (state_stack r) (object_stack r)
    (reserved r).

Definition set_parse_error (v : bool) (r : JSONReactor) : JSONReactor :=
  mkJSONReactor (pdf r) (is_name r) (must_be_complete r) (errors r) v
    (saw_qpdf r) (saw_objects r) (saw_pdf_version r) (saw_trailer r) (state
    r) (next_state r) (cur_object r) (saw_value r) (saw_stream r) (saw_dict
    r) (saw_data r) (saw_datafile r) (state_stack r) (object_stack r)
    (reserved r).

Definition set_saw_qpdf (v : bool) (r : JSONReactor) : JSONReactor :=
  mkJSONReactor (pdf r) (is_name r) (must_be_complete r) (errors r)
    (parse_error r) v (saw_objects r) (saw_pdf_version r) (saw_trailer r)
    (state r) (next_state r) (cur_object r) (saw_value r) (saw_stream r)
    (saw_dict r) (saw_data r) (saw_datafile r) (state_stack r) (object_stack
    r) (reserved r).

Definition set_saw_objects (v : bool) (r : JSONReactor) : JSONReactor :=
  mkJSONReactor (pdf r) (is_name r) (must_be_complete r) (errors r)
    (parse_error r) (saw_qpdf r) v (saw_pdf_version r) (saw_trailer r)
    (state r) (next_state r) (cur_object r) (saw_value r) (saw_stream r)
    (saw_dict r) (saw_data r) (saw_datafile r) (state_stack r) (object_stack
    r) (reserved r).

Definition set_saw_pdf_version (v : bool) (r : JSONReactor) : JSONReactor :=
  mkJSONReactor (pdf r) (is_name r) (must_be_complete r) (errors r)
    (parse_error r) (saw_qpdf r) (saw_objects r) v (saw_trailer r) (state r)
    (next_state r) (cur_object r) (saw_value r) (saw_stream r) (saw_dict r)
    (saw_data r) (saw_datafile r) (state_stack r) (object_stack r) (reserved
    r).

Definition set_saw_trailer (v : bool) (r : JSONReactor) : JSONReactor :=
  mkJSONReactor (pdf r) (is_name r) (must_be_complete r) (errors r)
    (parse_error r) (saw_qpdf r) (saw_objects r) (saw_pdf_version r) v
    (state r) (next_state r) (cur_object r) (saw_value r) (saw_stream r)
    (saw_dict r) (saw_data r) (saw_datafile r) (state_stack r) (object_stack
    r) (reserved r).

Definition set_state (v : state_e) (r : JSONReactor) : JSONReactor :=
  mkJSONReactor (pdf r) (is_name r) (must_be_complete r) (errors r)
    (parse_error r) (saw_qpdf r) (saw_objects r) (saw_pdf_version r)
    (saw_trailer r) v (next_state r) (cur_object r) (saw_value r)
    (saw_stream r) (saw_dict r) (saw_data r) (saw_datafile r) (state_stack
    r) (object_stack r) (reserved r).

Definition set_next_state (v : state_e) (r : JSONReactor) : JSONReactor :=
  mkJSONReactor (pdf r) (is_name r) (must_be_complete r) (errors r)
    (parse_error r) (saw_qpdf r) (saw_objects r) (saw_pdf_version r)
    (saw_trailer r) (state r) v (cur_object r) (saw_value r) (saw_stream r)
    (saw_dict r) (saw_data r) (saw_datafile r) (state_stack r) (object_stack
    r) (reserved r).

Definition set_cur_object (v : string) (r : JSONReactor) : JSONReactor :=
  mkJSONReactor (pdf r) (is_name r) (must_be_complete r) (errors r)
    (parse_error r) (saw_qpdf r) (saw_objects r) (saw_pdf_version r)
    (saw_trailer r) (state r) (next_state r) v (saw_value r) (saw_stream r)
    (saw_dict r) (saw_data r) (saw_datafile r) (state_stack r) (object_stack
    r) (reserved r).

Definition set_saw_value (v : bool) (r : JSONReactor) : JSONReactor :=
  mkJSONReactor (pdf r) (is_name r) (must_be_complete r) (errors r)
    (parse_error r) (saw_qpdf r) (saw_objects r) (saw_pdf_version r)
    (saw_trailer r) (state r) (next_state r) (cur_object r) v (saw_stream r)
    (saw_dict r) (saw_data r) (saw_datafile r) (state_stack r) (object_stack
    r) (reserved r).

Definition set_saw_stream (v : bool) (r : JSONReactor) : JSONReactor :=
  mkJSONReactor (pdf r) (is_name r) (must_be_complete r) (errors r)
    (parse_error r) (saw_qpdf r) (saw_objects r) (saw_pdf_version r)
    (saw_trailer r) (state r) (next_state r) (cur_object r) (saw_value r) v
    (saw_dict r) (saw_data r) (saw_datafile r) (state_stack r) (object_stack
    r) (reserved r).

Definition set_saw_dict (v : bool) (r : JSONReactor) : JSONReactor :=
  mkJSONReactor (pdf r) (is_name r) (must_be_complete r) (errors r)
    (parse_error r) (saw_qpdf r) (saw_objects r) (saw_pdf_version r)
    (saw_trailer r) (state r) (next_state r) (cur_object r) (saw_value r)
    (saw_stream r) v (saw_data r) (saw_datafile r) (state_stack r)
    (object_stack r) (reserved r).

Definition set_saw_data (v : bool) (r : JSONReactor) : JSONReactor :=
  mkJSONReactor (pdf r) (is_name r) (must_be_complete r) (errors r)
    (parse_error r) (saw_qpdf r) (saw_objects r) (saw_pdf_version r)
    (saw_trailer r) (state r) (next_state r) (cur_object r) (saw_value r)
    (saw_stream r) (saw_dict r) v (saw_datafile r) (state_stack r)
    (object_stack r) (reserved r).

Definition set_saw_datafile (v : bool) (r : JSONReactor) : JSONReactor :=
  mkJSONReactor (pdf r) (is_name r) (must_be_complete r) (errors r)
    (parse_error r) (saw_qpdf r) (saw_objects r) (saw_pdf_version r)
    (saw_trailer r) (state r) (next_state r) (cur_object r) (saw_value r)
    (saw_stream r) (saw_dict r) (saw_data r) v (state_stack r) (object_stack
    r) (reserved r).

Definition set_state_stack (v : list state_e) (r : JSONReactor) : JSONReactor :=
  mkJSONReactor (pdf r) (is_name r) (must_be_complete r) (errors r)
    (parse_error r) (saw_qpdf r) (saw_objects r) (saw_pdf_version r)
    (saw_trailer r) (state r) (next_state r) (cur_object r) (saw_value r)
    (saw_stream r) (saw_dict r) (saw_data r) (saw_datafile r) v
    (object_stack r) (reserved r).

Definition set_object_stack (v : list QPDFObjectHandle) (r : JSONReactor)
    : JSONReactor :=
  mkJSONReactor (pdf r) (is_name r) (must_be_complete r) (errors r)
    (parse_error r) (saw_qpdf r) (saw_objects r) (saw_pdf_version r)
    (saw_trailer r) (state r) (next_state r) (cur_object r) (saw_value r)
    (saw_stream r) (saw_dict r) (saw_data r) (saw_datafile r) (state_stack
    r) v (reserved r).

Definition set_reserved (v : gset QPDFObjGen) (r : JSONReactor) : JSONReactor :=
  mkJSONReactor (pdf r) (is_name r) (must_be_complete r) (errors r)
    (parse_error r) (saw_qpdf r) (saw_objects r) (saw_pdf_version r)
    (saw_trailer r) (state r) (next_state r) (cur_object r) (saw_value r)
    (saw_stream r) (saw_dict r) (saw_data r) (saw_datafile r) (state_stack
    r) (object_stack r) v.
(** The constructor (lines 88-108). *)
Definition new_JSONReactor (pdf : QPDF) (is_name : string)
    (must_be_complete : bool) : JSONReactor :=
  {| pdf := pdf; is_name := is_name; must_be_complete := must_be_complete;
     errors := false; parse_error := false;
     saw_qpdf := false; saw_objects := false; saw_pdf_version := false;
     saw_trailer := false;
     state := st_initial; next_state := st_top; cur_object := EmptyString;
     saw_value := false; saw_stream := false; saw_dict := false;
     saw_data := false; saw_datafile := false;
     state_stack := [st_initial]; object_stack := []; reserved := ∅ |}.

(** *** Exceptions and the monad of the callbacks *)

(** What a callback can throw: [std::runtime_error], [std::logic_error].
    [undefined_behaviour] is no exception of the program: it marks the place
    where [back()] or [pop_back()] is called on an empty vector.  C++
    defines no behaviour there, so from that point the model says nothing
    about the program, and the reactor paired with it is only the one in
    which the access was made. *)
Inductive exn : Type :=
| runtime_error (what : string)
| logic_error (what : string)
| undefined_behaviour.

Inductive outcome (A : Type) : Type :=
| Return (a : A)
| Raise (e : exn).
Arguments Return {A} a.
Arguments Raise {A} e.

(** A callback runs on the reactor and either returns or throws; what it
    did to the reactor and to the document before throwing stays done. *)
Definition M (A : Type) : Type := JSONReactor -> outcome A * JSONReactor.

Definition ret {A} (a : A) : M A := fun r => (Return a, r).

Definition bind {A B} (m : M A) (f : A -> M B) : M B :=
  fun r =>
    match m r with
    | (Return a, r') => f a r'
    | (Raise e, r') => (Raise e, r')
    end.

Definition throw {A} (e : exn) : M A := fun r => (Raise e, r).
Definition get : M JSONReactor := fun r => (Return r, r).
Definition modify (f : JSONReactor -> JSONReactor) : M unit :=
  fun r => (Return tt, f r).
Definition skip : M unit := ret tt.
Definition when (b : bool) (m : M unit) : M unit := if b then m else skip.

Declare Scope reactor_scope.
Delimit Scope reactor_scope with reactor.
Notation "'let*' x ':=' m 'in' k" := (bind m (fun x => k))
  (at level 10, x name, m at level 100, k at level 200) : reactor_scope.
Notation "m1 ';;' m2" := (bind m1 (fun _ => m2))
  (at level 100, m2 at level 200, right associativity) : reactor_scope.
Local Open Scope reactor_scope.

Fixpoint for_each {A} (l : list A) (body : A -> M unit) : M unit :=
  match l with
  | [] => skip
  | x :: l' => body x ;; for_each l' body
  end.

(** A document operation that cannot fail, run on the reactor's [pdf]. *)
Definition on_pdf {A} (op : QPDF -> A * QPDF) : M A :=
  fun r => let '(a, q) := op (pdf r) in (Return a, set_pdf q r).

Definition update_pdf (op : QPDF -> QPDF) : M unit :=
  modify (fun r => set_pdf (op (pdf r)) r).

(** [std::vector] access.  On an empty vector the behaviour is not
    defined; the model stops. *)
Definition back {A} (v : list A) : M A :=
  match v with
  | x :: _ => ret x
  | [] => throw undefined_behaviour
  end.

Definition pop_back {A} (v : list A) : M (list A) :=
  match v with
  | _ :: v' => ret v'
  | [] => throw undefined_behaviour
  end.

Definition dq : string := String (ascii_of_nat 34) EmptyString.

(** *** The callbacks *)


(** Lines 110-116. *)
Definition error (offset : Z) (msg : string) : M unit :=
  modify (set_errors true) ;;
  let* r := get in
  update_pdf
    (ObjectGraph.warn
       (mkQPDFExc qpdf_e_json (cur_object r) (QIntC.to_offset offset) msg)).

(** Lines 118-122. *)
Definition anyErrors (r : JSONReactor) : bool := errors r.

(** Lines 124-129. *)
Definition containerStart : M unit :=
  modify (fun r => set_state_stack (state r :: state_stack r) r) ;;
  modify (fun r => set_state (next_state r) r).

(** Lines 131-135. *)
Definition dictionaryStart : M unit := containerStart.

(** Lines 137-145. *)
Definition arrayStart : M unit :=
  containerStart ;;
  let* r := get in
  match state r with
  | st_top => throw (runtime_error "QPDF JSON must be a dictionary")
  | _ => skip
  end.

(** [QPDFObjectHandle::newNull()] and its siblings make a new object. *)
Definition newObject (o : QPDFObject) : M QPDFObjectHandle :=
  on_pdf (ObjectGraph.alloc o).

(** [this->pdf.replaceObject(og, oh)]. *)
Definition pdf_replaceObject (og : QPDFObjGen) (oh : QPDFObjectHandle)
    : M unit :=
  let* r := get in
  match ObjectGraph.replaceObject og oh (pdf r) with
  | Some q => modify (set_pdf q)
  | None =>
      throw (logic_error
               "QPDF::replaceObject called with indirect object handle")
  end.

Definition msg_missing_qpdf : string :=
  dq ++ "qpdf" ++ dq ++ " object was not seen".
Definition msg_missing_pdf_version : string :=
  dq ++ "qpdf-v2.pdfversion" ++ dq ++ " was not seen".
Definition msg_missing_objects : string :=
  dq ++ "qpdf-v2.objects" ++ dq ++ " was not seen".
Definition msg_missing_trailer : string :=
  dq ++ "qpdf-v2.objects.trailer" ++ dq ++ " was not seen".
Definition msg_trailer_no_value : string :=
  dq ++ "trailer" ++ dq ++ " is missing " ++ dq ++ "value" ++ dq.
Definition msg_value_stream : string :=
  "object must have exactly one of " ++ dq ++ "value" ++ dq ++ " or "
  ++ dq ++ "stream" ++ dq.
Definition msg_stream_no_dict : string :=
  dq ++ "stream" ++ dq ++ " is missing " ++ dq ++ "dict" ++ dq.
Definition msg_data_datafile : string :=
  dq ++ "stream" ++ dq ++ " must have exactly one of " ++ dq ++ "data" ++ dq
  ++ " or " ++ dq ++ "datafile" ++ dq.
Definition msg_data_and_datafile : string :=
  dq ++ "stream" ++ dq ++ " may at most one of " ++ dq ++ "data" ++ dq
  ++ " or " ++ dq ++ "datafile" ++ dq.
Definition msg_must_be_dictionary (key : string) : string :=
  dq ++ key ++ dq ++ " must be a dictionary".
Definition msg_bad_version : string := "invalid PDF version (must be x.y)".
Definition msg_bad_object_key : string :=
  "object key should be " ++ dq ++ "trailer" ++ dq ++ " or " ++ dq
  ++ "obj:n n R" ++ dq.
Definition msg_trailer_stream : string := "the trailer may not be a stream".
Definition msg_not_a_stream : string := "this object is not a stream".
Definition msg_data_not_string : string :=
  dq ++ "stream.data" ++ dq ++ " must be a string".
Definition msg_datafile_not_string : string :=
  dq ++ "stream.datafile" ++ dq
  ++ " must be a string containing a file name".
Definition msg_unrecognized_string : string := "unrecognized string value".

(** Lines 147-226. *)
Definition containerEnd (value : JSON) : M unit :=
  let* r := get in
  let* st := back (state_stack r) in
  modify (set_state st) ;;
  let* stk := pop_back (state_stack r) in
  modify (set_state_stack stk) ;;
  match st with
  | st_initial =>
      let* r := get in
      if negb (saw_qpdf r) then error 0 msg_missing_qpdf
      else
        when (must_be_complete r && negb (saw_pdf_version r))
          (error 0 msg_missing_pdf_version) ;;
        let* r := get in
        if negb (saw_objects r) then error 0 msg_missing_objects
        else
          when (must_be_complete r && negb (saw_trailer r))
            (error 0 msg_missing_trailer)
  | st_objects =>
      let* r := get in
      (if parse_error r then skip
       else if String.eqb (cur_object r) "trailer" then
         when (negb (saw_value r))
           (error (getStart value) msg_trailer_no_value)
       else
         when (Bool.eqb (saw_value r) (saw_stream r))
           (error (getStart value) msg_value_stream)) ;;
      modify (set_object_stack []) ;;
      modify (set_cur_object EmptyString) ;;
      modify (set_saw_dict false) ;;
      modify (set_saw_data false) ;;
      modify (set_saw_datafile false) ;;
      modify (set_saw_value false) ;;
      modify (set_saw_stream false)
  | st_object_top =>
      let* r := get in
      when (saw_stream r)
        (when (negb (saw_dict r))
           (error (getStart value) msg_stream_no_dict) ;;
         let* r := get in
         if must_be_complete r then
           when (Bool.eqb (saw_data r) (saw_datafile r))
             (error (getStart value) msg_data_datafile)
         else
           when (saw_data r && saw_datafile r)
             (error (getStart value) msg_data_and_datafile))
  | st_stream | st_object =>
      let* r := get in
      when (negb (parse_error r))
        (let* stk := pop_back (object_stack r) in
         modify (set_object_stack stk))
  | st_qpdf =>
      let* r := get in
      for_each (elements (reserved r))
        (fun og =>
           let* null := newObject ot_null in
           pdf_replaceObject og null) ;;
      modify (set_reserved ∅)
  | _ => skip
  end.

(** Lines 228-238.  The [std::range_error] of [QUtil::string_to_int] is a
    [std::runtime_error]. *)
Definition reserveObject (obj gen : string) : M QPDFObjectHandle :=
  match QUtil.string_to_int obj with
  | inr what => throw (runtime_error what)
  | inl o =>
      match QUtil.string_to_int gen with
      | inr what => throw (runtime_error what)
      | inl g =>
          let* oh := on_pdf (ObjectGraph.reserveObjectIfNotExists o g) in
          let* r := get in
          when (ObjectGraph.isReserved (pdf r) oh)
            (modify (set_reserved ({[ (o, g) ]} ∪ reserved r))) ;;
          ret oh
      end
  end.

(** Lines 240-247. *)
Definition replaceObject (to_replace replacement : QPDFObjectHandle)
    : M unit :=
  let og := ObjectGraph.getObjGen to_replace in
  modify (fun r => set_reserved (reserved r ∖ {[ og ]}) r) ;;
  pdf_replaceObject og replacement.

(** Lines 249-254. *)
Definition topLevelScalar : M unit :=
  throw (runtime_error "QPDF JSON must be a dictionary").

(** Lines 256-269. *)
Definition nestedState (key : string) (value : JSON) (next : state_e)
    : M unit :=
  if isDictionary value then modify (set_next_state next)
  else
    error (getStart value) (msg_must_be_dictionary key) ;;
    modify (set_next_state st_ignore) ;;
    modify (set_parse_error true).

(** Lines 464-514. *)
Definition makeObject (value : JSON) : M QPDFObjectHandle :=
  let* result :=
    (if isDictionary value then
       let* result := newObject (ot_dictionary ∅) in
       modify (fun r => set_object_stack (result :: object_stack r) r) ;;
       ret result
     else if isArray value then
       let* result := newObject (ot_array []) in
       modify (fun r => set_object_stack (result :: object_stack r) r) ;;
       ret result
     else if isNull value then newObject ot_null
     else
       match getBool value with
       | Some bool_v => newObject (ot_boolean bool_v)
       | None =>
       match getNumber value with
       | Some str_v =>
           if QUtil.is_long_long str_v
           then newObject (ot_integer (QUtil.string_to_ll str_v))
           else newObject (ot_real str_v)
       | None =>
       match getString value with
       | Some str_v =>
           match Regex.INDIRECT_OBJ_RE str_v with
           | Some (m1, m2) => reserveObject m1 m2
           | None =>
           match Regex.UNICODE_RE str_v with
           | Some m1 => newObject (ot_string text_string m1)
           | None =>
           match Regex.BINARY_RE str_v with
           | Some m1 =>
               newObject (ot_string byte_string (QUtil.hex_decode m1))
           | None =>
               if Regex.NAME_RE str_v then newObject (ot_name str_v)
               else
                 error (getStart value) msg_unrecognized_string ;;
                 newObject ot_null
           end end end
       | None => ret h_uninitialized
       end end end) in
  if negb (ObjectGraph.isInitialized result) then
    throw (logic_error "JSONReactor::makeObject didn't initialize the object")
  else
    let* r := get in
    update_pdf
      (ObjectGraph.setObjectDescription result
         (is_name r ++ " offset " ++ QUtil.uint_to_string (getStart value))) ;;
    ret result.

(** Lines 271-450. *)
Definition dictionaryItem (key : string) (value : JSON) : M bool :=
  let* r := get in
  match state r with
  | st_ignore => skip
  | st_top =>
      if String.eqb key "qpdf-v2" then
        modify (set_saw_qpdf true) ;;
        nestedState key value st_qpdf
      else modify (set_next_state st_ignore)
  | st_qpdf =>
      if String.eqb key "pdfversion" then
        modify (set_saw_pdf_version true) ;;
        let* version_okay :=
          match getString value with
          | Some v =>
              if Regex.PDF_VERSION_RE v then
                update_pdf (with_pdf_version v) ;; ret true
              else ret false
          | None => ret false
          end in
        when (negb version_okay) (error (getStart value) msg_bad_version)
      else if String.eqb key "objects" then
        modify (set_saw_objects true) ;;
        nestedState key value st_objects
      else modify (set_next_state st_ignore)
  | st_objects =>
      if String.eqb key "trailer" then
        modify (set_saw_trailer true) ;;
        nestedState key value st_trailer ;;
        modify (set_cur_object "trailer")
      else
        match Regex.OBJ_KEY_RE key with
        | Some (m1, m2) =>
            let* oh := reserveObject m1 m2 in
            modify (fun r => set_object_stack (oh :: object_stack r) r) ;;
            nestedState key value st_object_top ;;
            modify (set_cur_object key)
        | None =>
            error (getStart value) msg_bad_object_key ;;
            modify (set_next_state st_ignore) ;;
            modify (set_parse_error true)
        end
  | st_object_top =>
      if (length (object_stack r) =? 0)%nat then
        throw (logic_error "no object on stack in st_object_top")
      else
        let* tos := back (object_stack r) in
        let* replacement :=
          (if String.eqb key "value" then
             modify (set_saw_value true) ;;
             modify (set_next_state st_object) ;;
             let* replacement := makeObject value in
             replaceObject tos replacement ;;
             ret replacement
           else if String.eqb key "stream" then
             modify (set_saw_stream true) ;;
             nestedState key value st_stream ;;
             let* r := get in
             if ObjectGraph.isStream (pdf r) tos then ret h_uninitialized
             else
               let* replacement :=
                 on_pdf (ObjectGraph.reserveStream
                           (ObjectGraph.getObjectID tos)
                           (ObjectGraph.getGeneration tos)) in
               replaceObject tos replacement ;;
               ret replacement
           else
             modify (set_next_state st_ignore) ;;
             ret h_uninitialized) in
        when (ObjectGraph.isInitialized replacement)
          (let* r := get in
           let* stk := pop_back (object_stack r) in
           modify (set_object_stack (replacement :: stk)))
  | st_trailer =>
      if String.eqb key "value" then
        modify (set_saw_value true) ;;
        nestedState "trailer.value" value st_object ;;
        let* t := makeObject value in
        update_pdf (with_trailer t)
      else if String.eqb key "stream" then
        error (getStart value) msg_trailer_stream ;;
        modify (set_next_state st_ignore) ;;
        modify (set_parse_error true)
      else modify (set_next_state st_ignore)
  | st_stream =>
      if (length (object_stack r) =? 0)%nat then
        throw (logic_error "no object on stack in st_stream")
      else
        let* tos := back (object_stack r) in
        if negb (ObjectGraph.isStream (pdf r) tos) then
          error (getStart value) msg_not_a_stream ;;
          modify (set_parse_error true)
        else if String.eqb key "dict" then
          modify (set_saw_dict true) ;;
          nestedState "stream.dict" value st_object ;;
          let* dict := makeObject value in
          let* r := get in
          if ObjectGraph.isDictionary (pdf r) dict then
            update_pdf (ObjectGraph.replaceDict tos dict)
          else modify (set_parse_error true)
        else if String.eqb key "data" then
          modify (set_saw_data true) ;;
          match getString value with
          | None => error (getStart value) msg_data_not_string
          | Some _ =>
              let start := QIntC.wrap_size_t (getStart value + 1) in
              let end_ := QIntC.wrap_size_t (getEnd value - 1) in
              if (end_ <? start)%Z then
                throw (logic_error "QPDF_json: JSON string length < 0")
              else
                let* r := get in
                update_pdf
                  (ObjectGraph.replaceStreamData tos
                     (provide_data (is_name r) start end_))
          end
        else if String.eqb key "datafile" then
          modify (set_saw_datafile true) ;;
          match getString value with
          | Some filename =>
              update_pdf
                (ObjectGraph.replaceStreamData tos (file_provider filename))
          | None => error (getStart value) msg_datafile_not_string
          end
        else modify (set_next_state st_ignore)
  | st_object =>
      when (negb (parse_error r))
        (let* dict := back (object_stack r) in
         let dict :=
           if ObjectGraph.isStream (pdf r) dict
           then ObjectGraph.getDict (pdf r) dict else dict in
         let* item := makeObject value in
         update_pdf (ObjectGraph.replaceKey dict key item))
  | st_initial =>
      throw (logic_error
               ("QPDF_json: unknown state " ++ QUtil.int_to_string 0))
  end ;;
  ret true.

(** Lines 452-462. *)
Definition arrayItem (value : JSON) : M bool :=
  let* r := get in
  match state r with
  | st_object =>
      when (negb (parse_error r))
        (let* tos := back (object_stack r) in
         let* item := makeObject value in
         update_pdf (ObjectGraph.appendItem tos item))
  | _ => skip
  end ;;
  ret true.

(** ** The parser's calls, and the import entry points *)

(** Modelled from the spec: [JSON::parse] (JSON.cc) is not part of this
    file.  Sections 5 and 9: the tokenizer invokes the callbacks
    container-start, container-end, dictionary-item, array-item and
    scalar-at-root in document order; section 4.1: the state a container
    starts in is decided by the key that introduced it, so an item is
    announced before its container starts. *)
Inductive event : Type :=
| ev_dictionaryStart
| ev_arrayStart
| ev_containerEnd (value : JSON)
| ev_topLevelScalar
| ev_dictionaryItem (key : string) (value : JSON)
| ev_arrayItem (value : JSON).

Definition deliver (e : event) : M unit :=
  match e with
  | ev_dictionaryStart => dictionaryStart
  | ev_arrayStart => arrayStart
  | ev_containerEnd value => containerEnd value
  | ev_topLevelScalar => topLevelScalar
  | ev_dictionaryItem key value => dictionaryItem key value ;; skip
  | ev_arrayItem value => arrayItem value ;; skip
  end.

(** The calls made for a container, from its start to its end: each
    member is announced, and if it is a container its own calls follow. *)
Fixpoint container_events (v : JSON) : list event :=
  match v with
  | JSON_dictionary members _ _ =>
      ev_dictionaryStart
      :: flat_map
           (fun m => ev_dictionaryItem m.1 m.2 :: container_events m.2)
           members
      ++ [ev_containerEnd v]
  | JSON_array elements _ _ =>
      ev_arrayStart
      :: flat_map (fun c => ev_arrayItem c :: container_events c) elements
      ++ [ev_containerEnd v]
  | _ => []
  end.

Definition parse_events (doc : JSON) : list event :=
  if isDictionary doc || isArray doc then container_events doc
  else [ev_topLevelScalar].

Definition run (evs : list event) : M unit := for_each evs deliver.

Definition JSON_parse (doc : JSON) : M unit := run (parse_events doc).

(** Lines 541-553.  The input source is its name and the document the
    parser reads from it. *)
Definition importJSON (is_name : string) (doc : JSON)
    (must_be_complete : bool) (q : QPDF) : outcome unit * QPDF :=
  let reactor := new_JSONReactor q is_name must_be_complete in
  match JSON_parse doc reactor with
  | (Raise (runtime_error what), r) =>
      (Raise (runtime_error (is_name ++ ": " ++ what)), pdf r)
  | (Raise e, r) => (Raise e, pdf r)
  | (Return _, r) =>
      if anyErrors r then
        (Raise (runtime_error (is_name ++ ": errors found in JSON")), pdf r)
      else (Return tt, pdf r)
  end.

(** Modelled from the spec: [processMemoryFile] on [JSON_PDF] (lines 47-56)
    leaves a document of version 1.3 with no objects and the trailer
    dictionary [<< /Size 1 >>]. *)
Definition JSON_PDF : QPDF :=
  {| obj_cache := ∅;
     object_heap := [ot_dictionary {[ "/Size" := h_direct 1%nat ]};
                     ot_integer 1];
     descriptions := ∅;
     pdf_version := "1.3";
     trailer := h_direct 0%nat;
     warnings := [] |}.

(** Lines 522-527. *)
Definition createFromJSON (is_name : string) (doc : JSON)
    : outcome unit * QPDF :=
  importJSON is_name doc true JSON_PDF.

(** Lines 535-539. *)
Definition updateFromJSON (is_name : string) (doc : JSON) (q : QPDF)
    : outcome unit * QPDF :=
  importJSON is_name doc false q.

(** ** The writer *)

Inductive qpdf_stream_decode_level_e : Type :=
| qpdf_dl_none | qpdf_dl_generalized | qpdf_dl_specialized | qpdf_dl_all.

Inductive qpdf_json_stream_data_e : Type :=
| qpdf_sj_none | qpdf_sj_inline | qpdf_sj_file.

(** What reaches the output pipeline: the calls of the JSON writer helpers,
    in order.  A helper is told through [first] whether the dictionary it
    writes into is still empty. *)
Inductive write_op : Type :=
| w_dictionary_open (depth : nat)
| w_dictionary_key (first : bool) (key : string) (depth : nat)
| w_dictionary_item (first : bool) (key : string) (value : JSON)
    (depth : nat)
| w_dictionary_close (first : bool) (depth : nat)
| w_text (s : string).

(** The pipeline [p] and the files next to it, each with its contents. *)
Record output : Type := mkOutput {
  pipeline : list write_op;
  files : gmap string string
}.

Module JSONWriter.

(** Modelled from the spec: the static writer helpers of the JSON class
    (JSON.cc) are not part of this file.  Section 4.4: entries are written
    as dictionary members, one after the other; opening a dictionary marks
    it empty and writing a key or a member marks it non-empty. *)
Definition writeDictionaryOpen (out : output) (depth : nat)
    : output * bool :=
  (mkOutput (pipeline out ++ [w_dictionary_open depth]) (files out), true).

(** Modelled from the spec: [JSON::writeDictionaryKey]. *)
Definition writeDictionaryKey (out : output) (first : bool) (key : string)
    (depth : nat) : output * bool :=
  (mkOutput (pipeline out ++ [w_dictionary_key first key depth]) (files out),
   false).

(** Modelled from the spec: [JSON::writeDictionaryItem]. *)
Definition writeDictionaryItem (out : output) (first : bool) (key : string)
    (value : JSON) (depth : nat) : output * bool :=
  (mkOutput (pipeline out ++ [w_dictionary_item first key value depth])
     (files out),
   false).

(** Modelled from the spec: [JSON::writeDictionaryClose]. *)
Definition writeDictionaryClose (out : output) (first : bool) (depth : nat)
    : output :=
  mkOutput (pipeline out ++ [w_dictionary_close first depth]) (files out).

(** Modelled from the spec: text sent to the pipeline with [<<]. *)
Definition write_text (out : output) (s : string) : output :=
  mkOutput (pipeline out ++ [w_text s]) (files out).

(** Modelled from the spec: the constructors of JSON values
    ([JSON::makeDictionary], [makeString], [makeInt]) and
    [addDictionaryMember]. *)
Definition makeDictionary : JSON := JSON_dictionary [] 0 0.
Definition makeString (s : string) : JSON := JSON_string s 0 0.
Definition makeInt (n : Z) : JSON := JSON_number (QUtil.int_to_string n) 0 0.

Definition addDictionaryMember (j : JSON) (key : string) (v : JSON) : JSON :=
  match j with
  | JSON_dictionary members s e => JSON_dictionary (members ++ [(key, v)]) s e
  | _ => j
  end.

End JSONWriter.

(** The order of [QPDFObjGen]: by object id, then by generation. *)
Definition objgen_leb (a b : QPDFObjGen) : bool :=
  (a.1 <? b.1)%Z || ((a.1 =? b.1)%Z && (a.2 <=? b.2)%Z).

Module Document.

(** Modelled from the spec: [QPDF::getAllObjects], [QPDF::getObjectCount],
    [QPDF::getPDFVersion] and [QPDF::getTrailer] (QPDF.cc).  Section 4.4:
    the table is walked in ascending object-number order; section 6:
    maxobjectid describes the whole table. *)
Definition getAllObjects (q : QPDF) : list QPDFObjectHandle :=
  h_indirect <$>
    merge_sort (fun a b => Is_true (objgen_leb a b))
      (elements (dom (obj_cache q))).

(** Modelled from the spec: [QPDF::getObjectCount], the largest object id
    of the table. *)
Definition getObjectCount (q : QPDF) : Z :=
  foldr (fun og acc => Z.max og.1 acc) 0 (elements (dom (obj_cache q))).

(** Modelled from the spec: [QPDF::getPDFVersion] and
    [QPDF::getTrailer]. *)
Definition getPDFVersion (q : QPDF) : string := pdf_version q.
Definition getTrailer (q : QPDF) : QPDFObjectHandle := trailer q.

End Document.

Section Writer.

(** How a single object is rendered is decided by [QPDFObjectHandle]
    (QPDFObjectHandle.cc): [getJSON] gives the JSON of an object,
    [getStreamJSON] the JSON of a stream, together with the bytes it sent to
    the file pipeline it was given, and [unparse_direct] the text of a
    direct object. *)
Variable getJSON : QPDF -> QPDFObjectHandle -> Z -> JSON.
Variable getStreamJSON :
  QPDF -> QPDFObjectHandle -> Z -> qpdf_json_stream_data_e ->
  qpdf_stream_decode_level_e -> bool -> string -> JSON * string.
Variable unparse_direct : QPDF -> QPDFObjectHandle -> string.

(** [QPDFObjectHandle::unparse]: an indirect object is written as its
    reference. *)
Definition unparse (q : QPDF) (obj : QPDFObjectHandle) : string :=
  match obj with
  | h_indirect (o, g) =>
      QUtil.int_to_string o ++ " " ++ QUtil.int_to_string g ++ " R"
  | _ => unparse_direct q obj
  end.

(** Lines 555-588.  The file is opened with mode "wb", which creates it or
    empties it; when it is closed it holds what [getStreamJSON] sent to
    it. *)
Definition writeJSONStream (q : QPDF) (version : Z) (p : output)
    (first : bool) (key : string) (obj : QPDFObjectHandle)
    (decode_level : qpdf_stream_decode_level_e)
    (json_stream_data : qpdf_json_stream_data_e) (file_prefix : string)
    : output * bool :=
  let to_file :=
    match json_stream_data with qpdf_sj_file => true | _ => false end in
  let filename :=
    if to_file
    then file_prefix ++ "-"
         ++ QUtil.int_to_string (ObjectGraph.getObjectID obj)
    else EmptyString in
  let '(sj, bytes) :=
    getStreamJSON q obj version json_stream_data decode_level to_file
      filename in
  let j :=
    JSONWriter.addDictionaryMember JSONWriter.makeDictionary "stream" sj in
  let '(p, first) := JSONWriter.writeDictionaryItem p first key j 2 in
  if to_file
  then (mkOutput (pipeline p) (<[filename := bytes]> (files p)), first)
  else (p, first).

(** Lines 590-601. *)
Definition writeJSONObject (q : QPDF) (version : Z) (p : output)
    (first : bool) (key : string) (obj : QPDFObjectHandle)
    : output * bool :=
  let j :=
    JSONWriter.addDictionaryMember JSONWriter.makeDictionary "value"
      (getJSON q obj version) in
  JSONWriter.writeDictionaryItem p first key j 2.

(** The loop of lines 634-651. *)
Fixpoint write_objects (q : QPDF) (version : Z)
    (decode_level : qpdf_stream_decode_level_e)
    (json_stream_data : qpdf_json_stream_data_e) (file_prefix : string)
    (all_objects : bool) (wanted_objects : gset string)
    (objects : list QPDFObjectHandle) (p : output) (first_object : bool)
    : output * bool :=
  match objects with
  | [] => (p, first_object)
  | obj :: objects' =>
      let key := "obj:" ++ unparse q obj in
      let '(p, first_object) :=
        if all_objects || bool_decide (key ∈ wanted_objects) then
          if ObjectGraph.isStream q obj then
            writeJSONStream q version p first_object key obj decode_level
              json_stream_data file_prefix
          else writeJSONObject q version p first_object key obj
        else (p, first_object) in
      write_objects q version decode_level json_stream_data file_prefix
        all_objects wanted_objects objects' p first_object
  end.

(** Lines 603-660. *)
Definition writeJSON (q : QPDF) (version : Z) (p : output)
    (decode_level : qpdf_stream_decode_level_e)
    (json_stream_data : qpdf_json_stream_data_e) (file_prefix : string)
    (wanted_objects : gset string) : outcome unit * output :=
  if negb (version =? 2)%Z then
    (Raise (runtime_error "QPDF::writeJSON: only version 2 is supported"), p)
  else
    let first := true in
    let '(p, first) := JSONWriter.writeDictionaryOpen p 0 in
    let '(p, first) := JSONWriter.writeDictionaryKey p first "qpdf-v2" 0 in
    let first_qpdf := true in
    let '(p, first_qpdf) := JSONWriter.writeDictionaryOpen p 1 in
    let '(p, first_qpdf) :=
      JSONWriter.writeDictionaryItem p first_qpdf "pdfversion"
        (JSONWriter.makeString (Document.getPDFVersion q)) 1 in
    let '(p, first_qpdf) :=
      JSONWriter.writeDictionaryItem p first_qpdf "maxobjectid"
        (JSONWriter.makeInt
           (QIntC.to_longlong (Document.getObjectCount q))) 1 in
    let '(p, first_qpdf) :=
      JSONWriter.writeDictionaryKey p first_qpdf "objects" 1 in
    let first_object := true in
    let '(p, first_object) := JSONWriter.writeDictionaryOpen p 2 in
    let all_objects := bool_decide (wanted_objects = ∅) in
    let objects := Document.getAllObjects q in
    let '(p, first_object) :=
      write_objects q version decode_level json_stream_data file_prefix
        all_objects wanted_objects objects p first_object in
    let '(p, first_object) :=
      if all_objects || bool_decide ("trailer" ∈ wanted_objects) then
        writeJSONObject q version p first_object "trailer"
          (Document.getTrailer q)
      else (p, first_object) in
    let p := JSONWriter.writeDictionaryClose p first_object 2 in
    let p := JSONWriter.writeDictionaryClose p first_qpdf 1 in
    let p := JSONWriter.writeDictionaryClose p first 0 in
    (Return tt, JSONWriter.write_text p (String (ascii_of_nat 10) EmptyString)).

End Writer.

(** ** Sample inputs *)

Module Samples.

Definition D (start end_ : Z) : JSON := JSON_dictionary [] start end_.

Definition fresh (must_be_complete : bool) : JSONReactor :=
  new_JSONReactor JSON_PDF "in.json" must_be_complete.

(** The calls up to the start of the objects dictionary. *)
Definition open_objects : list event :=
  [ev_dictionaryStart;
   ev_dictionaryItem "qpdf-v2" (D 11 0); ev_dictionaryStart;
   ev_dictionaryItem "objects" (D 24 0); ev_dictionaryStart].

(** The start of the entry of object 1. *)
Definition open_entry : list event :=
  [ev_dictionaryItem "obj:1 0 R" (D 40 0); ev_dictionaryStart].

(** An entry under a key that names no object. *)
Definition bad_entry : list event :=
  [ev_dictionaryItem "bad" (D 30 0); ev_dictionaryStart;
   ev_containerEnd (D 30 32)].

(** The start of a stream in the entry of object 1. *)
Definition open_stream : list event :=
  open_entry ++ [ev_dictionaryItem "stream" (D 52 0); ev_dictionaryStart].

Definition after (must_be_complete : bool) (evs : list event)
    : JSONReactor :=
  (run evs (fresh must_be_complete)).2.

(** Inside the entry of object 1, nothing seen yet. *)
Definition in_entry : JSONReactor := after true (open_objects ++ open_entry).

(** The same place, reached after an entry with a bad key. *)
Definition in_entry_after_bad_key : JSONReactor :=
  after true (open_objects ++ bad_entry ++ open_entry).

(** Inside the stream of object 1, nothing seen yet. *)
Definition in_stream : JSONReactor :=
  after true (open_objects ++ open_stream).


(** Object 1 is an array that refers to object 2, which no entry defines;
    the objects dictionary is about to close. *)
Definition objects_with_dangling_reference : JSONReactor :=
  after true
    (open_objects ++ open_entry
     ++ [ev_dictionaryItem "value" (JSON_array [] 51 0); ev_arrayStart;
         ev_arrayItem (JSON_string "2 0 R" 52 59);
         ev_containerEnd (JSON_array [JSON_string "2 0 R" 52 59] 51 60);
         ev_containerEnd (D 40 61)]).

(** Inside the qpdf dictionary, nothing seen yet. *)
Definition in_qpdf : JSONReactor :=
  after true
    [ev_dictionaryStart;
     ev_dictionaryItem "qpdf-v2" (D 11 0); ev_dictionaryStart].

(** A whole document: version 1.3, object 1 is the name /Catalog, and the
    trailer is a dictionary with /Size 2. *)
Definition doc_catalog : JSON :=
  JSON_dictionary
    [("qpdf-v2",
      JSON_dictionary
        [("pdfversion", JSON_string "1.3" 26 31);
         ("objects",
          JSON_dictionary
            [("obj:1 0 R",
              JSON_dictionary [("value", JSON_string "/Catalog" 64 74)]
                55 75);
             ("trailer",
              JSON_dictionary
                [("value",
                  JSON_dictionary [("/Size", JSON_number "2" 103 104)]
                    94 105)]
                85 106)]
            43 107)]
        11 108)]
    0 109.

(** A document whose first pdfversion is a dictionary: its members are
    read as members of the qpdf dictionary, and the members of the second
    pdfversion within it as members of a trailer entry.  The objects
    dictionary proper has one entry, for object 1, with no member. *)
Definition doc_stray_value : JSON :=
  JSON_dictionary
    [("qpdf-v2",
      JSON_dictionary
        [("pdfversion",
          JSON_dictionary
            [("objects", JSON_dictionary [("trailer", D 47 49)] 36 50);
             ("pdfversion", JSON_dictionary [("value", D 73 75)] 64 76)]
            25 77);
         ("objects", JSON_dictionary [("obj:1 0 R", D 101 103)] 88 104)]
        11 105)]
    0 106.

End Samples.


(** ** Stream data read back from the input (lines 67-86) *)

Module Provider.

(** [sizeof(buf)], line 74. *)
Definition sizeof_buf : Z := 8192.

Definition inspect {A : Type} (a : A) : {b : A | a = b} := exist _ a eq_refl.

Section Read.

(** Modelled from the spec: [InputSource::read] (InputSource.hh) is not part
    of this file.  Section 4.3: the data of a stream is read back from the
    input by byte range.  A read at position [pos] for [n] bytes hands out
    bytes of the input from [pos] on: none if [n] is 0 or the input has
    ended, and otherwise at least one and at most [n]; how many is up to the
    source ([granted]). *)
Variable granted : nat -> nat -> nat.

Definition read (contents : list Byte.byte) (pos n : nat) : list Byte.byte :=
  let left := (length contents - pos)%nat in
  let len :=
    if (left =? 0)%nat || (n =? 0)%nat then 0%nat
    else Nat.max 1 (Nat.min (granted pos n) (Nat.min left n)) in
  take len (drop pos contents).

(** [std::min(bytes, sizeof(buf))], line 77. *)
Definition request (bytes : nat) : nat :=
  Z.to_nat (Z.min (Z.of_nat bytes) sizeof_buf).

(** The loop of lines 77-83, from position [pos] with [bytes] bytes still to
    send: the buffers written to the decoder, in order.  [len] never exceeds
    [bytes], so that [bytes -= len] does not wrap. *)
Equations? pump (contents : list Byte.byte) (pos bytes : nat)
    : list (list Byte.byte) by wf bytes lt :=
  pump contents pos bytes
    with inspect (read contents pos (request bytes)) := {
    | exist _ [] _ => [];
    | exist _ (b :: buf) _ with inspect (bytes - length (b :: buf))%nat := {
        | exist _ O _ => [b :: buf];
        | exist _ (S n) _ =>
            (b :: buf) :: pump contents (pos + length (b :: buf)) (S n) } }.
Proof.
  destruct bytes as [| bytes']; [exfalso | lia].
  unfold read in e. change (request 0) with 0%nat in e. simpl in e.
  rewrite orb_true_r in e. discriminate.
Qed.

(** Lines 70-85: what the function returned by [provide_data] writes to the
    base64 decoder when it is called, before it finishes it. *)
Definition writes (contents : list Byte.byte) (start end_ : Z)
    : list (list Byte.byte) :=
  let bytes := QIntC.wrap_size_t (end_ - start) in
  let pos := Z.to_nat (QIntC.to_offset start) in
  pump contents pos (Z.to_nat bytes).

(** Calling the provider a stream holds.  The provider of a data file is
    [QUtil::file_provider], which is not part of this file. *)
Definition call (contents : list Byte.byte) (p : stream_data_provider)
    : option (list (list Byte.byte)) :=
  match p with
  | provide_data _ start end_ => Some (writes contents start end_)
  | file_provider _ => None
  end.

End Read.

End Provider.
(** ** Notions used in the statements *)

(** The warning that [error] records at [offset] while [r] is current. *)
Definition json_error (r : JSONReactor) (offset : Z) (msg : string)
    : QPDFExc :=
  mkQPDFExc qpdf_e_json (cur_object r) offset msg.

(** The check of an object entry as the spec words it: a non-trailer entry
    that saw both of value and stream, or neither, gets exactly one
    error. *)
Definition entry_check_as_specified (value : JSON) (r : JSONReactor)
    : Prop :=
  cur_object r ≠ "trailer" ->
  saw_value r = saw_stream r ->
  exists e,
    warnings (pdf (containerEnd value r).2) = (warnings (pdf r) ++ [e])%list.


(** The last character of a string, or [d] if it is empty. *)
Fixpoint last_ascii (s : string) (d : ascii) : ascii :=
  match s with
  | EmptyString => d
  | String c s' => last_ascii s' c
  end.

(** The errors a call may record when it starts from [r]: the missing
    version is reported only if no pdfversion key was seen, and the check of
    an object entry only if [parse_error] is not set. *)
Definition allowed (r : JSONReactor) (e : QPDFExc) : Prop :=
  error_code e = qpdf_e_json /\
  (message e = msg_missing_pdf_version -> saw_pdf_version r = false) /\
  (message e = msg_trailer_no_value \/ message e = msg_value_stream ->
   parse_error r = false).

(** [evolves r r']: [r'] can follow [r] in an import. *)
Record evolves (r r' : JSONReactor) : Prop := mk_evolves {
  ev_is_name : is_name r' = is_name r;
  ev_must_be_complete : must_be_complete r' = must_be_complete r;
  ev_parse_error : parse_error r = true -> parse_error r' = true;
  ev_saw_pdf_version : saw_pdf_version r = true -> saw_pdf_version r' = true;
  ev_warnings :
    exists new,
      warnings (pdf r') = (warnings (pdf r) ++ new)%list /\
      errors r' = errors r || negb (bool_decide (new = [])) /\
      Forall (allowed r) new
}.

(** [pres m r]: running [m] from [r] leads to a state that can follow
    [r]. *)
Definition pres {A} (m : M A) (r : JSONReactor) : Prop := evolves r (m r).2.

(** *** The keys of an object entry *)

(** The calls the parser makes for the members of a dictionary, between
    its start and its end. *)
Definition member_events (members : list (string * JSON)) : list event :=
  flat_map (fun m => ev_dictionaryItem m.1 m.2 :: container_events m.2)
    members.

(** A dictionary has a member under the key [k]. *)
Definition has_key (k : string) (members : list (string * JSON)) : bool :=
  existsb (fun m => String.eqb m.1 k) members.

(** The states of the reactor within the value of a member of an object
    entry: a generic object, a stream, or a skipped value. *)
Definition nested (st : state_e) : bool :=
  match st with
  | st_object | st_stream | st_ignore => true
  | _ => false
  end.

(** The states of an object entry and of what lies within it. *)
Definition entry_level (st : state_e) : bool :=
  match st with
  | st_object_top | st_trailer => true
  | _ => nested st
  end.

(** What the reactor has noted of the current entry: its key, and whether
    it saw value and stream. *)
Definition entry_keys (r : JSONReactor) : string * bool * bool :=
  (cur_object r, saw_value r, saw_stream r).

(** [below r r']: from [r] to [r'] the reactor has noted nothing new of the
    current entry, and if the next container was to start in a nested
    state, it still is. *)
Definition below (r r' : JSONReactor) : Prop :=
  entry_keys r' = entry_keys r /\
  (nested (next_state r) = true -> nested (next_state r') = true).

Definition stays {A} (m : M A) (r : JSONReactor) : Prop :=
  below r (m r).2.

(** The values of a document: the document itself and every value within
    it. *)
Fixpoint values (v : JSON) : list JSON :=
  v :: match v with
       | JSON_dictionary members _ _ =>
           flat_map (fun m => values m.2) members
       | JSON_array elements _ _ => flat_map (fun c => values c) elements
       | _ => []
       end.

(** The value a call of the parser hands to the reactor. *)
Definition event_value (e : event) : option JSON :=
  match e with
  | ev_containerEnd value | ev_dictionaryItem _ value | ev_arrayItem value =>
      Some value
  | ev_dictionaryStart | ev_arrayStart | ev_topLevelScalar => None
  end.

(** The messages of the checks made when the document ends; they have no
    position. *)
Definition end_messages : list string :=
  [msg_missing_qpdf; msg_missing_pdf_version; msg_missing_objects;
   msg_missing_trailer].

(** The messages of the errors recorded at a value; the message that a
    value must be a dictionary also names its key. *)
Definition value_messages : list string :=
  [msg_trailer_no_value; msg_value_stream; msg_stream_no_dict;
   msg_data_datafile; msg_data_and_datafile; msg_bad_version;
   msg_bad_object_key; msg_trailer_stream; msg_not_a_stream;
   msg_data_not_string; msg_datafile_not_string; msg_unrecognized_string].

(** What a recorded error carries: the code of a JSON error, and either
    offset 0 with the message of a check made when the document ends, or
    the start offset of one of the values [at_] with the message of an
    error found there. *)
Definition located (at_ : JSON -> Prop) (e : QPDFExc) : Prop :=
  error_code e = qpdf_e_json /\
  ((offset e = 0 /\ message e ∈ end_messages) \/
   (exists v,
      at_ v /\ offset e = getStart v /\
      (message e ∈ value_messages \/
       exists key, message e = msg_must_be_dictionary key))).

(** [logs P m r]: what running [m] from [r] adds to the list of warnings
    satisfies [P]. *)
Definition logs {A} (P : QPDFExc -> Prop) (m : M A) (r : JSONReactor)
    : Prop :=
  exists new,
    warnings (pdf (m r).2) = (warnings (pdf r) ++ new)%list /\ Forall P new.

(** What the loop of lines 219-223 does for one ObjGen. *)
Definition resolve_to_null (og : QPDFObjGen) : M unit :=
  let* null := newObject ot_null in
  pdf_replaceObject og null.


(** The key under which an object is written. *)
Definition object_key (unparse_direct : QPDF -> QPDFObjectHandle -> string)
    (q : QPDF) (obj : QPDFObjectHandle) : string :=
  "obj:" ++ unparse unparse_direct q obj.

(** An object, or the trailer, is wanted if the filter is empty or holds
    its key. *)
Definition wanted (wanted_objects : gset string) (key : string) : bool :=
  bool_decide (wanted_objects = ∅) || bool_decide (key ∈ wanted_objects).




(** Where the reactor is: its state and the states it will return to. *)
Definition control (r : JSONReactor) : state_e * list state_e :=
  (state r, state_stack r).

(** [keeps f m]: running [m] leaves the field [f] of the reactor as it
    was. *)
Definition keeps {A C} (f : JSONReactor -> C) (m : M A) : Prop :=
  forall r, f (m r).2 = f r.

(** The checks of [containerEnd] (lines 152-225), once the state [st] it
    returns to has been popped. *)
Definition closing (st : state_e) (value : JSON) : M unit :=
  match st with
  | st_initial =>
      let* r := get in
      if negb (saw_qpdf r) then error 0 msg_missing_qpdf
      else
        when (must_be_complete r && negb (saw_pdf_version r))
          (error 0 msg_missing_pdf_version) ;;
        let* r := get in
        if negb (saw_objects r) then error 0 msg_missing_objects
        else
          when (must_be_complete r && negb (saw_trailer r))
            (error 0 msg_missing_trailer)
  | st_objects =>
      let* r := get in
      (if parse_error r then skip
       else if String.eqb (cur_object r) "trailer" then
         when (negb (saw_value r))
           (error (getStart value) msg_trailer_no_value)
       else
         when (Bool.eqb (saw_value r) (saw_stream r))
           (error (getStart value) msg_value_stream)) ;;
      modify (set_object_stack []) ;;
      modify (set_cur_object EmptyString) ;;
      modify (set_saw_dict false) ;;
      modify (set_saw_data false) ;;
      modify (set_saw_datafile false) ;;
      modify (set_saw_value false) ;;
      modify (set_saw_stream false)
  | st_object_top =>
      let* r := get in
      when (saw_stream r)
        (when (negb (saw_dict r))
           (error (getStart value) msg_stream_no_dict) ;;
         let* r := get in
         if must_be_complete r then
           when (Bool.eqb (saw_data r) (saw_datafile r))
             (error (getStart value) msg_data_datafile)
         else
           when (saw_data r && saw_datafile r)
             (error (getStart value) msg_data_and_datafile))
  | st_stream | st_object =>
      let* r := get in
      when (negb (parse_error r))
        (let* stk := pop_back (object_stack r) in
         modify (set_object_stack stk))
  | st_qpdf =>
      let* r := get in
      for_each (elements (reserved r))
        (fun og =>
           let* null := newObject ot_null in
           pdf_replaceObject og null) ;;
      modify (set_reserved ∅)
  | _ => skip
  end.

(** The members of a container: the call that announces each one, and the
    member itself. *)
Definition children (c : JSON) : list (event * JSON) :=
  match c with
  | JSON_dictionary members _ _ =>
      (fun m => (ev_dictionaryItem m.1 m.2, m.2)) <$> members
  | JSON_array elements _ _ => (fun c => (ev_arrayItem c, c)) <$> elements
  | _ => []
  end.

Definition is_item (e : event) : bool :=
  match e with
  | ev_dictionaryItem _ _ | ev_arrayItem _ => true
  | _ => false
  end.

(** Where the reactor is when a member under an unknown key can be skipped
    without a trace: at the top, in the trailer entry, inside another
    skipped member, or in the qpdf dictionary while nothing is reserved. *)
Definition ignorable (r : JSONReactor) : Prop :=
  state r = st_top \/ state r = st_trailer \/ state r = st_ignore \/
  (state r = st_qpdf /\ reserved r = ∅).

(** The keys the reactor skips "for forward compatibility" while leaving
    the rest of its state alone: any key but qpdf-v2 at the top, any key but
    pdfversion and objects in the qpdf dictionary, any key but value and
    stream in the trailer entry. *)
Definition unknown_key (r : JSONReactor) (key : string) : bool :=
  match state r with
  | st_top => negb (String.eqb key "qpdf-v2")
  | st_qpdf =>
      negb (String.eqb key "pdfversion") && negb (String.eqb key "objects")
  | st_trailer =>
      negb (String.eqb key "value") && negb (String.eqb key "stream")
  | _ => false
  end.

(** The keys a stream does not know. *)
Definition unknown_stream_key (key : string) : bool :=
  negb (String.eqb key "dict") && negb (String.eqb key "data")
  && negb (String.eqb key "datafile").

(** One or more decimal digits, and nothing else. *)
Definition is_number (s : string) : bool :=
  negb (String.eqb s EmptyString) && Text.all_digits s.

(** How many of the four patterns that [makeObject] tries on a string value
    accept it. *)
Definition matching_patterns (s : string) : nat :=
  (match Regex.INDIRECT_OBJ_RE s with Some _ => 1 | None => 0 end)
  + (match Regex.UNICODE_RE s with Some _ => 1 | None => 0 end)
  + (match Regex.BINARY_RE s with Some _ => 1 | None => 0 end)
  + (if Regex.NAME_RE s then 1 else 0).

(** The name of the file that receives the data of a stream object. *)
Definition data_file (file_prefix : string) (obj : QPDFObjectHandle)
    : string :=
  file_prefix ++ "-" ++ QUtil.int_to_string (ObjectGraph.getObjectID obj).

(** Files written one after the other: each is created, or emptied, and
    filled. *)
Definition written (fs : gmap string string) (l : list (string * string))
    : gmap string string :=
  foldl (fun fs nb => <[nb.1 := nb.2]> fs) fs l.

(** The name of the file of a stream, and what is sent to it. *)
Definition stream_file
    (getStreamJSON :
       QPDF -> QPDFObjectHandle -> Z -> qpdf_json_stream_data_e ->
       qpdf_stream_decode_level_e -> bool -> string -> JSON * string)
    (q : QPDF) (version : Z) (decode_level : qpdf_stream_decode_level_e)
    (file_prefix : string) (obj : QPDFObjectHandle) : string * string :=
  (data_file file_prefix obj,
   (getStreamJSON q obj version qpdf_sj_file decode_level true
      (data_file file_prefix obj)).2).

(** The stream objects among the wanted objects of a list. *)
Definition wanted_streams
    (unparse_direct : QPDF -> QPDFObjectHandle -> string) (q : QPDF)
    (wanted_objects : gset string) (objects : list QPDFObjectHandle)
    : list QPDFObjectHandle :=
  filter (fun obj =>
            wanted wanted_objects (object_key unparse_direct q obj) = true /\
            ObjectGraph.isStream q obj = true)
    objects.

(** The nodes that hold no other node. *)
Definition is_leaf (o : QPDFObject) : bool :=
  match o with
  | ot_array _ | ot_dictionary _ | ot_stream _ _ => false
  | _ => true
  end.

(** [grows q q']: what an import may turn the document [q] into.  No id is
    dropped from the table, no object is dropped, an object that holds no
    other object is left as it is, and the version is the old one or one of
    the form x.y. *)
Record grows (q q' : QPDF) : Prop := mk_grows {
  grows_table :
    forall og, is_Some (obj_cache q !! og) -> is_Some (obj_cache q' !! og);
  grows_heap : (length (object_heap q) <= length (object_heap q'))%nat;
  grows_leaf :
    forall l o,
      object_heap q !! l = Some o -> is_leaf o = true ->
      object_heap q' !! l = Some o;
  grows_version :
    pdf_version q' = pdf_version q \/
    Regex.PDF_VERSION_RE (pdf_version q') = true
}.

(** [follows m r]: running [m] from [r] only makes the document grow. *)
Definition follows {A} (m : M A) (r : JSONReactor) : Prop :=
  grows (pdf r) (pdf (m r).2).

(** Once a pdfversion key was seen, either its value was accepted and the
    document has a version of the form x.y, or an error is on record. *)
Definition version_checked (r : JSONReactor) : Prop :=
  saw_pdf_version r = true ->
  errors r = true \/ Regex.PDF_VERSION_RE (pdf_version (pdf r)) = true.

(** *** What a JSON value describes *)

(** The object a string of the form "n g R" names (lines 489-490). *)
Definition reference (v : JSON) : option QPDFObjGen :=
  match getString v with
  | Some s =>
      match Regex.INDIRECT_OBJ_RE s with
      | Some (m1, m2) => Some (Text.decimal_value m1, Text.decimal_value m2)
      | None => None
      end
  | None => None
  end.

(** An object whose id and generation fit an [int]: [reserveObject] throws
    for any other (lines 231-232). *)
Definition in_int (og : QPDFObjGen) : bool :=
  (og.1 <=? QUtil.int_max)%Z && (og.2 <=? QUtil.int_max)%Z.

(** A value all of whose reference strings name objects that fit. *)
Fixpoint fits (v : JSON) : bool :=
  match v with
  | JSON_dictionary members _ _ => forallb (fun m => fits m.2) members
  | JSON_array elements _ _ => forallb fits elements
  | _ => match reference v with Some og => in_int og | None => true end
  end.

(** What [reserveObject] does once the two numbers are read (lines
    233-237). *)
Definition reserve (og : QPDFObjGen) : M QPDFObjectHandle :=
  let* oh := on_pdf (ObjectGraph.reserveObjectIfNotExists og.1 og.2) in
  let* r := get in
  when (ObjectGraph.isReserved (pdf r) oh)
    (modify (set_reserved ({[ (og.1, og.2) ]} ∪ reserved r))) ;;
  ret oh.

(** The object [makeObject] makes for a value that is not a reference
    (lines 471-501); a container starts empty. *)
Definition new_node (v : JSON) : QPDFObject :=
  match v with
  | JSON_dictionary _ _ _ => ot_dictionary ∅
  | JSON_array _ _ _ => ot_array []
  | JSON_null _ _ => ot_null
  | JSON_bool b _ _ => ot_boolean b
  | JSON_number t _ _ =>
      if QUtil.is_long_long t then ot_integer (QUtil.string_to_ll t)
      else ot_real t
  | JSON_string s _ _ =>
      match Regex.UNICODE_RE s with
      | Some m1 => ot_string text_string m1
      | None =>
          match Regex.BINARY_RE s with
          | Some m1 => ot_string byte_string (QUtil.hex_decode m1)
          | None => if Regex.NAME_RE s then ot_name s else ot_null
          end
      end
  end.

(** The entries of a dictionary object against the members of a JSON
    dictionary: of members with the same key the last one counts. *)
Definition members_match (P : JSON -> QPDFObjectHandle -> Prop)
    (items : gmap string QPDFObjectHandle)
    : list (string * JSON) -> Prop :=
  fix go (members : list (string * JSON)) : Prop :=
    match members with
    | [] => True
    | m :: members' =>
        (m.1 ∉ members'.*1 ->
         exists h, items !! m.1 = Some h /\ P m.2 h) /\
        go members'
    end.

(** The items of an array object against the elements of a JSON array. *)
Definition items_match (P : JSON -> QPDFObjectHandle -> Prop)
    : list JSON -> list QPDFObjectHandle -> Prop :=
  fix go (elements : list JSON) (items : list QPDFObjectHandle) : Prop :=
    match elements, items with
    | [], [] => True
    | c :: elements', h :: items' => P c h /\ go elements' items'
    | _, _ => False
    end.

(** [built heap lo hi v h]: the handle [h] denotes the object that the
    value [v] describes, and that object is made of objects of [heap] at the
    places from [lo] up to [hi].  A reference is denoted by the indirect
    handle of its target. *)
Fixpoint built (heap : list QPDFObject) (lo hi : nat) (v : JSON)
    (h : QPDFObjectHandle) {struct v} : Prop :=
  match reference v with
  | Some og => h = h_indirect og
  | None =>
      exists l,
        h = h_direct l /\ (lo <= l < hi)%nat /\
        match v with
        | JSON_dictionary members _ _ =>
            exists items,
              heap !! l = Some (ot_dictionary items) /\
              dom items = list_to_set members.*1 /\
              members_match (built heap lo hi) items members
        | JSON_array elements _ _ =>
            exists items,
              heap !! l = Some (ot_array items) /\
              items_match (built heap lo hi) elements items
        | _ => heap !! l = Some (new_node v)
        end
  end.

(** The reactor is inside a value that is being built: the container under
    construction, at place [d], is on top of the object stack, and no parse
    error has been seen. *)
Definition inside (r : JSONReactor) (d : nat)
    (stk : list QPDFObjectHandle) : Prop :=
  state r = st_object /\ next_state r = st_object /\
  parse_error r = false /\ object_stack r = h_direct d :: stk.

(** The roots of the object graph are kept: the table of [q'] has every
    entry of the table of [q], and the same trailer and version. *)
Definition roots_kept (q q' : QPDF) : Prop :=
  (forall og l, obj_cache q !! og = Some l -> obj_cache q' !! og = Some l) /\
  trailer q' = trailer q /\ pdf_version q' = pdf_version q.

(** A value other than a string that [makeObject] does not recognize
    (lines 484-501). *)
Definition recognized (v : JSON) : bool :=
  match getString v with
  | Some s =>
      match Regex.INDIRECT_OBJ_RE s, Regex.UNICODE_RE s, Regex.BINARY_RE s
      with
      | None, None, None => Regex.NAME_RE s
      | _, _, _ => true
      end
  | None => true
  end.

(** A value all of whose strings are recognized. *)
Fixpoint clean (v : JSON) : bool :=
  match v with
  | JSON_dictionary members _ _ => forallb (fun m => clean m.2) members
  | JSON_array elements _ _ => forallb clean elements
  | _ => recognized v
  end.

(** What the reactor has seen at the top of the document, and in the
    current entry of the objects dictionary. *)
Definition seen_top (r : JSONReactor) : bool * bool * bool * bool * bool :=
  (must_be_complete r, saw_qpdf r, saw_objects r, saw_pdf_version r,
   saw_trailer r).

Definition seen_entry (r : JSONReactor)
    : string * bool * bool * bool * bool * bool :=
  (cur_object r, saw_value r, saw_stream r, saw_dict r, saw_data r,
   saw_datafile r).

(** [settled b r r']: from [r] to [r'] the roots of the object graph are
    kept, what the reactor has seen is the same, and if [b] holds no error
    was reported. *)
Definition settled (b : bool) (r r' : JSONReactor) : Prop :=
  roots_kept (pdf r) (pdf r') /\
  (seen_top r' = seen_top r /\ seen_entry r' = seen_entry r) /\
  (b = true -> errors r' = errors r).

(** [fills c]: the calls for the members of the container [c], made while
    the new object of [c] is on top of the object stack, all return, and
    fill that object with what [c] describes, if the objects its reference
    strings name fit an [int].  The objects they make come
    after it in the heap; they change no object that comes before it, and
    leave the entries of the table and the trailer; they report no error if
    every string in [c] is recognized. *)
Definition fills (c : JSON) : Prop :=
  forall r d stk,
    fits c = true ->
    inside r d stk ->
    length (object_heap (pdf r)) = S d ->
    object_heap (pdf r) !! d = Some (new_node c) ->
    exists r',
      run (flat_map (fun ic => ic.1 :: container_events ic.2) (children c)) r
      = (Return tt, r') /\
      inside r' d stk /\ state_stack r' = state_stack r /\
      built (object_heap (pdf r')) d (length (object_heap (pdf r'))) c
        (h_direct d) /\
      (forall l, (l < d)%nat ->
                 object_heap (pdf r') !! l = object_heap (pdf r) !! l) /\
      settled (clean c) r r'.

(** A run of entries of the objects dictionary: each is a member written at
    depth 2; the first one is marked with [first], the others are marked as
    not being the first. *)
Fixpoint entries_from (first : bool) (ops : list write_op) : Prop :=
  match ops with
  | [] => True
  | w_dictionary_item f _ _ 2 :: ops' => f = first /\ entries_from false ops'
  | _ => False
  end.

(** The mark of the objects dictionary when it is closed: still "first" if
    no entry was written. *)
Definition still_first (first : bool) (ops : list write_op) : bool :=
  match ops with [] => first | _ => false end.

(** The table points into the heap. *)
Definition table_sound (q : QPDF) : Prop :=
  forall og l, obj_cache q !! og = Some l ->
               (l < length (object_heap q))%nat.

(** The reservation set of the reactor holds exactly the ids of the table
    whose object is still reserved: those are the objects that are resolved
    when the qpdf dictionary closes. *)
Definition accounted (r : JSONReactor) : Prop :=
  table_sound (pdf r) /\
  (forall og l,
     obj_cache (pdf r) !! og = Some l ->
     object_heap (pdf r) !! l = Some ot_reserved ->
     og ∈ reserved r) /\
  (forall og,
     og ∈ reserved r ->
     exists l, obj_cache (pdf r) !! og = Some l /\
               object_heap (pdf r) !! l = Some ot_reserved).

(** A direct handle that denotes an object that is not reserved. *)
Definition direct_ok (heap : list QPDFObject) (h : QPDFObjectHandle)
    : Prop :=
  match h with
  | h_direct l => exists o, heap !! l = Some o /\ o <> ot_reserved
  | _ => True
  end.

(** What [accounted] looks at. *)
Definition view (r : JSONReactor)
    : gmap QPDFObjGen nat * list QPDFObject * gset QPDFObjGen :=
  (obj_cache (pdf r), object_heap (pdf r), reserved r).

(** [safe m r]: if [m] returns when run from [r], it keeps [accounted]. *)
Definition safe {A} (m : M A) (r : JSONReactor) : Prop :=
  accounted r -> forall a r', m r = (Return a, r') -> accounted r'.

(** *** Documents in the layout the writer produces *)

(** The object an entry key names (lines 318-320). *)
Definition og_of_key (key : string) : option QPDFObjGen :=
  match Regex.OBJ_KEY_RE key with
  | Some (m1, m2) => Some (Text.decimal_value m1, Text.decimal_value m2)
  | None => None
  end.

(** The value of an entry that has the key "value" and nothing else. *)
Definition value_of_entry (entry : JSON) : option JSON :=
  match entry with
  | JSON_dictionary [(key, c)] _ _ =>
      if String.eqb key "value" then Some c else None
  | _ => None
  end.

(** An entry of the objects dictionary for an object that is not a stream:
    its key names an object whose id and generation fit an [int], and it
    holds a value that is not itself a reference and in which the objects
    that reference strings name fit an [int] as well. *)
Definition plain_entry (m : string * JSON) : Prop :=
  (exists og, og_of_key m.1 = Some og /\ in_int og = true) /\
  exists c, value_of_entry m.2 = Some c /\ reference c = None /\
            fits c = true.

(** The objects that the keys of a list of entries name. *)
Definition named (entries : list (string * JSON))
    : list (option QPDFObjGen) :=
  (fun m => og_of_key m.1) <$> entries.

(** The table against the entries of the objects dictionary: of entries for
    the same object the last one counts. *)
Fixpoint entries_match (P : JSON -> nat -> Prop)
    (table : gmap QPDFObjGen nat) (entries : list (string * JSON))
    : Prop :=
  match entries with
  | [] => True
  | m :: entries' =>
      (forall og c,
         og_of_key m.1 = Some og -> value_of_entry m.2 = Some c ->
         Some og ∉ named entries' ->
         exists l, table !! og = Some l /\ P c l) /\
      entries_match P table entries'
  end.

(** A document in the layout [writeJSON] gives its output (lines 613-640):
    one member "qpdf-v2" that holds the version, the largest object id and
    the objects dictionary, whose last entry is the trailer.  The numbers
    are the offsets of the containers and of the version string. *)
Definition qpdf_document (version : string) (maxobjectid : JSON)
    (entries : list (string * JSON)) (trailer_entry : JSON)
    (s0 e0 s1 e1 s2 e2 sv ev : Z) : JSON :=
  JSON_dictionary
    [("qpdf-v2",
      JSON_dictionary
        [("pdfversion", JSON_string version sv ev);
         ("maxobjectid", maxobjectid);
         ("objects",
          JSON_dictionary (entries ++ [("trailer", trailer_entry)]) s2 e2)]
        s1 e1)]
    s0 e0.
(** ** Properties of the callbacks *)


Ltac destruct_reactor r :=
  destruct r as [q nm mbc errs perr sq sobj spv strl st nst cur
                 sval sstr sdict sdata sdfile sstk ostk rsv].

Ltac unfold_monad :=
  unfold bind, ret, get, modify, skip, when, throw, update_pdf, on_pdf,
    back, pop_back, error in *.

(** *** Closing an object entry *)


(** C1, as stated, fails: the entry of object 1 below saw neither value nor
    stream, and closing it reports nothing, because an earlier entry had a
    bad key and [parse_error] is still set. *)
Lemma object_entry_check_skipped_after_parse_error :
  hd_error (state_stack Samples.in_entry_after_bad_key) = Some st_objects /\
  ~ entry_check_as_specified (Samples.D 40 42)
      Samples.in_entry_after_bad_key.
Proof.
  split; [vm_compute; reflexivity |].
  intros Hspec. destruct Hspec as [e He].
  - vm_compute. discriminate.
  - vm_compute. reflexivity.
  - vm_compute in He. discriminate He.
Qed.

(** When an object entry closes while [parse_error] is not set, a
    non-trailer entry gets exactly one error if the flags for value and
    stream are both set or both clear, and none otherwise; the trailer entry
    gets exactly one error if the flag for value is clear, and none
    otherwise.  The reactor is back in the objects dictionary, and both
    flags are clear. *)
Lemma containerEnd_objects_flags
    (value : JSON) (r : JSONReactor) (stk : list state_e) :
  state_stack r = st_objects :: stk ->
  parse_error r = false ->
  exists r',
    containerEnd value r = (Return tt, r') /\
    warnings (pdf r') =
      (warnings (pdf r) ++
       if String.eqb (cur_object r) "trailer" then
         if saw_value r then []
         else [json_error r (getStart value) msg_trailer_no_value]
       else
         if Bool.eqb (saw_value r) (saw_stream r)
         then [json_error r (getStart value) msg_value_stream]
         else [])%list /\
    state r' = st_objects /\ state_stack r' = stk /\
    saw_value r' = false /\ saw_stream r' = false.
Proof.
  intros Hstk Hpe. destruct_reactor r; simpl in *; subst.
  unfold containerEnd; unfold_monad; simpl.
  destruct (String.eqb cur "trailer"), sval, sstr; simpl;
    eexists; (split; [reflexivity |]); simpl;
    rewrite ?app_nil_r; repeat split; reflexivity.
Qed.

(** *** Closing a stream *)



(** *** The data of a stream *)





(** A logic error thrown during the parse leaves the import as it is: only
    runtime errors are caught and given the name of the input. *)
Lemma importJSON_passes_logic_error
    (is_name : string) (doc : JSON) (must_be_complete : bool) (q : QPDF)
    (what : string) (r : JSONReactor) :
  JSON_parse doc (new_JSONReactor q is_name must_be_complete)
    = (Raise (logic_error what), r) ->
  importJSON is_name doc must_be_complete q
    = (Raise (logic_error what), pdf r).
Proof. intros Hparse. unfold importJSON. rewrite Hparse. reflexivity. Qed.

(** *** The root of the document *)

(** C7: when the root of the document is an array or a scalar, the import
    throws at the first call of the parser, with the message that the input
    must be a dictionary; the document is left as it was, so nothing is
    added to its list of warnings. *)
Theorem importJSON_root_must_be_dictionary
    (is_name : string) (doc : JSON) (must_be_complete : bool) (q : QPDF) :
  isDictionary doc = false ->
  (exists evs,
     parse_events doc = ev_arrayStart :: evs \/
     parse_events doc = ev_topLevelScalar :: evs) /\
  importJSON is_name doc must_be_complete q =
    (Raise (runtime_error (is_name ++ ": QPDF JSON must be a dictionary")),
     q).
Proof.
  intros Hroot.
  destruct doc; simpl in Hroot; try discriminate Hroot;
    (split; [eexists; (left; reflexivity) || (right; reflexivity)
            | reflexivity]).
Qed.

Lemma importJSON_root_must_be_dictionary_witness :
  (exists evs,
     parse_events (JSON_array [JSON_null 1 5] 0 6) = ev_arrayStart :: evs \/
     parse_events (JSON_array [JSON_null 1 5] 0 6)
       = ev_topLevelScalar :: evs) /\
  importJSON "in.json" (JSON_array [JSON_null 1 5] 0 6) true JSON_PDF =
    (Raise (runtime_error ("in.json" ++ ": QPDF JSON must be a dictionary")),
     JSON_PDF).
Proof.
  apply (importJSON_root_must_be_dictionary "in.json"
           (JSON_array [JSON_null 1 5] 0 6) true JSON_PDF).
  reflexivity.
Defined.

(** *** Numbers *)

(** C2: a number becomes a new object, which is an Integer exactly when
    [QUtil::is_long_long] accepts its text (the text parses as a signed
    integer of any size) and is otherwise a Real that carries the text as it
    was written. *)
Theorem makeObject_number (text : string) (start end_ : Z) (r : JSONReactor) :
  let value := JSON_number text start end_ in
  let h := h_direct (length (object_heap (pdf r))) in
  exists r',
    makeObject value r = (Return h, r') /\
    ObjectGraph.resolve (pdf r') h =
      Some (if QUtil.is_long_long text
            then ot_integer (QUtil.string_to_ll text)
            else ot_real text) /\
    warnings (pdf r') = warnings (pdf r) /\
    object_stack r' = object_stack r.
Proof.
  intros value h. subst value h.
  unfold makeObject, newObject; unfold_monad; simpl.
  destruct (QUtil.is_long_long text); simpl;
    eexists; (split; [reflexivity |]); simpl;
    unfold ObjectGraph.resolve, ObjectGraph.setObjectDescription; simpl;
    (split; [| split; reflexivity]);
    apply list_lookup_middle; reflexivity.
Qed.

(** ** What every callback preserves *)


Lemma last_ascii_app (s1 s2 : string) (c d : ascii) :
  last_ascii (s1 ++ String c s2) d = last_ascii s2 c.
Proof.
  revert d. induction s1 as [| a s1 IH]; intros d; simpl; [reflexivity |].
  apply IH.
Qed.

Lemma msg_must_be_dictionary_last (key : string) :
  last_ascii (msg_must_be_dictionary key) "x" = "y"%char.
Proof.
  transitivity (last_ascii " must be a dictionary" (ascii_of_nat 34));
    [| reflexivity].
  exact (last_ascii_app (String (ascii_of_nat 34) key)
           " must be a dictionary" (ascii_of_nat 34) "x").
Qed.



Lemma evolves_refl (r : JSONReactor) : evolves r r.
Proof.
  split; try done. exists []. rewrite app_nil_r, orb_false_r. done.
Qed.

Lemma allowed_earlier (r r' : JSONReactor) (e : QPDFExc) :
  evolves r r' -> allowed r' e -> allowed r e.
Proof.
  intros Hev (Hcode & Hver & Hpe). split; [done |]. split.
  - intros Hm. specialize (Hver Hm).
    destruct (saw_pdf_version r) eqn:E; [| done].
    rewrite (ev_saw_pdf_version _ _ Hev E) in Hver. done.
  - intros Hm. specialize (Hpe Hm).
    destruct (parse_error r) eqn:E; [| done].
    rewrite (ev_parse_error _ _ Hev E) in Hpe. done.
Qed.

Lemma evolves_trans (r1 r2 r3 : JSONReactor) :
  evolves r1 r2 -> evolves r2 r3 -> evolves r1 r3.
Proof.
  intros H12 H23.
  destruct (ev_warnings _ _ H12) as (new1 & Hw1 & He1 & Ha1).
  destruct (ev_warnings _ _ H23) as (new2 & Hw2 & He2 & Ha2).
  split.
  - rewrite (ev_is_name _ _ H23). apply (ev_is_name _ _ H12).
  - rewrite (ev_must_be_complete _ _ H23). apply (ev_must_be_complete _ _ H12).
  - intros H. apply (ev_parse_error _ _ H23), (ev_parse_error _ _ H12), H.
  - intros H.
    apply (ev_saw_pdf_version _ _ H23), (ev_saw_pdf_version _ _ H12), H.
  - exists (new1 ++ new2)%list. split; [| split].
    + rewrite Hw2, Hw1, app_assoc. reflexivity.
    + rewrite He2, He1. destruct new1, new2; simpl;
        rewrite ?orb_false_r, ?orb_true_r; reflexivity.
    + apply Forall_app. split; [exact Ha1 |].
      eapply Forall_impl; [exact Ha2 |].
      intros e. apply allowed_earlier. exact H12.
Qed.


Lemma pres_bind {A B} (m : M A) (f : A -> M B) (r : JSONReactor) :
  pres m r ->
  (forall a r', m r = (Return a, r') -> pres (f a) r') ->
  pres (bind m f) r.
Proof.
  unfold pres, bind. intros Hm Hf.
  destruct (m r) as [[a | e] r'] eqn:E; simpl in *; [| exact Hm].
  eapply evolves_trans; [exact Hm |]. apply Hf. reflexivity.
Qed.

Lemma pres_same {A} (m : M A) (r : JSONReactor) : (m r).2 = r -> pres m r.
Proof. unfold pres. intros ->. apply evolves_refl. Qed.

(** A change that keeps the tracked fields. *)
Lemma pres_modify (f : JSONReactor -> JSONReactor) (r : JSONReactor) :
  is_name (f r) = is_name r ->
  must_be_complete (f r) = must_be_complete r ->
  (parse_error r = true -> parse_error (f r) = true) ->
  (saw_pdf_version r = true -> saw_pdf_version (f r) = true) ->
  warnings (pdf (f r)) = warnings (pdf r) ->
  errors (f r) = errors r ->
  pres (modify f) r.
Proof.
  intros Hn Hm Hp Hv Hw He. unfold pres, modify. simpl.
  split; try done. exists []. rewrite app_nil_r, orb_false_r. done.
Qed.

Lemma pres_error (offset : Z) (msg : string) (r : JSONReactor) :
  (msg = msg_missing_pdf_version -> saw_pdf_version r = false) ->
  (msg = msg_trailer_no_value \/ msg = msg_value_stream ->
   parse_error r = false) ->
  pres (error offset msg) r.
Proof.
  intros Hver Hpe. unfold pres, error; unfold_monad. simpl.
  split; try done.
  exists [json_error r offset msg]. split; [done |]. split.
  - rewrite orb_true_r. done.
  - apply Forall_singleton. split; [done |]. split; assumption.
Qed.

(** Document operations leave the list of warnings alone. *)
Lemma warnings_update (h : QPDFObjectHandle) (f : QPDFObject -> QPDFObject)
    (q : QPDF) :
  warnings (ObjectGraph.update h f q) = warnings q.
Proof. unfold ObjectGraph.update. repeat case_match; reflexivity. Qed.

Lemma warnings_alloc (o : QPDFObject) (q : QPDF) :
  warnings (ObjectGraph.alloc o q).2 = warnings q.
Proof. reflexivity. Qed.

Lemma warnings_reserveObjectIfNotExists (o g : Z) (q : QPDF) :
  warnings (ObjectGraph.reserveObjectIfNotExists o g q).2 = warnings q.
Proof.
  unfold ObjectGraph.reserveObjectIfNotExists. case_match; reflexivity.
Qed.

Lemma warnings_reserveStream (o g : Z) (q : QPDF) :
  warnings (ObjectGraph.reserveStream o g q).2 = warnings q.
Proof. reflexivity. Qed.

Lemma warnings_replaceObject (og : QPDFObjGen) (oh : QPDFObjectHandle)
    (q q' : QPDF) :
  ObjectGraph.replaceObject og oh q = Some q' -> warnings q' = warnings q.
Proof. destruct oh; simpl; intros [= <-]; reflexivity. Qed.

Lemma warnings_setObjectDescription (h : QPDFObjectHandle) (d : string)
    (q : QPDF) :
  warnings (ObjectGraph.setObjectDescription h d q) = warnings q.
Proof.
  unfold ObjectGraph.setObjectDescription. case_match; reflexivity.
Qed.

Lemma pres_on_pdf {A} (op : QPDF -> A * QPDF) (r : JSONReactor) :
  warnings (op (pdf r)).2 = warnings (pdf r) -> pres (on_pdf op) r.
Proof.
  intros Hw. unfold pres, on_pdf.
  destruct (op (pdf r)) as [a q'] eqn:E. simpl in *.
  split; try done. exists []. rewrite app_nil_r, orb_false_r. done.
Qed.

Lemma pres_update_pdf (op : QPDF -> QPDF) (r : JSONReactor) :
  warnings (op (pdf r)) = warnings (pdf r) -> pres (update_pdf op) r.
Proof.
  intros Hw. unfold update_pdf. apply pres_modify; done.
Qed.

Lemma pres_back {A} (v : list A) (r : JSONReactor) : pres (back v) r.
Proof. apply pres_same. destruct v; reflexivity. Qed.

Lemma pres_pop_back {A} (v : list A) (r : JSONReactor) : pres (pop_back v) r.
Proof. apply pres_same. destruct v; reflexivity. Qed.

Lemma pres_newObject (o : QPDFObject) (r : JSONReactor) :
  pres (newObject o) r.
Proof. apply pres_on_pdf. reflexivity. Qed.

Lemma pres_pdf_replaceObject (og : QPDFObjGen) (oh : QPDFObjectHandle)
    (r : JSONReactor) :
  pres (pdf_replaceObject og oh) r.
Proof.
  unfold pdf_replaceObject. apply pres_bind; [apply pres_same; reflexivity |].
  intros a r' [= <- <-].
  destruct (ObjectGraph.replaceObject og oh (pdf r)) as [q' |] eqn:E.
  - apply pres_modify; try done. simpl.
    eapply warnings_replaceObject. exact E.
  - apply pres_same. reflexivity.
Qed.

Lemma pres_for_each {A} (l : list A) (body : A -> M unit) (r : JSONReactor) :
  (forall x r', pres (body x) r') -> pres (for_each l body) r.
Proof.
  intros Hbody. revert r.
  induction l as [| x l IH]; intros r; simpl.
  - apply pres_same. reflexivity.
  - apply pres_bind; [apply Hbody |]. intros _ r' _. apply IH.
Qed.

(** Two messages differ: by computation, or by their last character when
    one of them quotes a key. *)
Ltac msg_neq H :=
  first
    [ discriminate H
    | vm_compute in H; discriminate H
    | apply (f_equal (fun s => last_ascii s "x")) in H;
      rewrite msg_must_be_dictionary_last in H;
      vm_compute in H; discriminate H ].

Ltac pres_error_other :=
  apply pres_error;
  [ let H := fresh in intros H; msg_neq H
  | let H := fresh in intros [H | H]; msg_neq H ].

Ltac pres_setter := apply pres_modify; simpl; try reflexivity; try done.

Create HintDb pres_db.

Ltac pres_step :=
  lazymatch goal with
  | |- pres (bind get _) _ =>
      apply pres_bind;
      [ apply pres_same; reflexivity
      | let a := fresh "r" in let r' := fresh "r" in
        intros a r' [= <- <-] ]
  | |- pres (bind _ _) _ => apply pres_bind; [| intros ? ? _]
  | |- pres (ret _) _ => apply pres_same; reflexivity
  | |- pres skip _ => apply pres_same; reflexivity
  | |- pres get _ => apply pres_same; reflexivity
  | |- pres (throw _) _ => apply pres_same; reflexivity
  | |- pres (back _) _ => apply pres_back
  | |- pres (pop_back _) _ => apply pres_pop_back
  | |- pres (newObject _) _ => apply pres_newObject
  | |- pres (pdf_replaceObject _ _) _ => apply pres_pdf_replaceObject
  | |- pres (when ?b _) _ => unfold when; destruct b eqn:?
  | |- pres (if ?b then _ else _) _ => destruct b eqn:?
  | |- pres (match ?x with _ => _ end) _ => destruct x eqn:?
  | |- pres (modify _) _ => pres_setter
  | |- pres (update_pdf _) _ =>
      apply pres_update_pdf;
      first [ apply warnings_update | apply warnings_setObjectDescription
            | reflexivity ]
  | |- pres (on_pdf _) _ =>
      apply pres_on_pdf;
      first [ apply warnings_reserveObjectIfNotExists
            | apply warnings_reserveStream | reflexivity ]
  | |- pres (error _ _) _ => pres_error_other
  | |- pres _ _ => solve [eauto with pres_db]
  end.

Lemma pres_containerStart (r : JSONReactor) : pres containerStart r.
Proof. unfold containerStart. repeat pres_step. Qed.

Lemma pres_arrayStart (r : JSONReactor) : pres arrayStart r.
Proof.
  unfold arrayStart. apply pres_bind; [apply pres_containerStart |].
  intros _ r' _. repeat pres_step.
Qed.

Lemma pres_nestedState (key : string) (value : JSON) (next : state_e)
    (r : JSONReactor) :
  pres (nestedState key value next) r.
Proof. unfold nestedState. repeat pres_step. Qed.

Lemma pres_reserveObject (obj gen : string) (r : JSONReactor) :
  pres (reserveObject obj gen) r.
Proof. unfold reserveObject. repeat pres_step. Qed.

Lemma pres_replaceObject (to_replace replacement : QPDFObjectHandle)
    (r : JSONReactor) :
  pres (replaceObject to_replace replacement) r.
Proof. unfold replaceObject. repeat pres_step. Qed.

#[local] Hint Resolve pres_containerStart pres_arrayStart pres_nestedState
  pres_reserveObject pres_replaceObject : pres_db.

Lemma pres_makeObject (value : JSON) (r : JSONReactor) :
  pres (makeObject value) r.
Proof. unfold makeObject. repeat pres_step. Qed.

#[local] Hint Resolve pres_makeObject : pres_db.

Lemma pres_dictionaryItem (key : string) (value : JSON) (r : JSONReactor) :
  pres (dictionaryItem key value) r.
Proof. unfold dictionaryItem. repeat pres_step. Qed.

Lemma pres_arrayItem (value : JSON) (r : JSONReactor) :
  pres (arrayItem value) r.
Proof. unfold arrayItem. repeat pres_step. Qed.

Lemma pres_containerEnd (value : JSON) (r : JSONReactor) :
  pres (containerEnd value) r.
Proof.
  unfold containerEnd. repeat pres_step.
  all: try (apply pres_for_each; intros og r0; repeat pres_step).
  all: apply pres_error; [intros Hm | intros [Hm | Hm]];
    try msg_neq Hm; try assumption.
  match goal with
  | H : _ && negb (saw_pdf_version ?r) = true |- saw_pdf_version ?r = false =>
      destruct (saw_pdf_version r);
      [rewrite andb_false_r in H; discriminate H | reflexivity]
  end.
Qed.

Lemma pres_deliver (e : event) (r : JSONReactor) : pres (deliver e) r.
Proof.
  destruct e; simpl.
  - apply pres_containerStart.
  - apply pres_arrayStart.
  - apply pres_containerEnd.
  - apply pres_same. reflexivity.
  - apply pres_bind; [apply pres_dictionaryItem |].
    intros _ r' _. apply pres_same. reflexivity.
  - apply pres_bind; [apply pres_arrayItem |].
    intros _ r' _. apply pres_same. reflexivity.
Qed.

(** Whatever calls the parser makes, the reactor evolves. *)
Lemma pres_run (evs : list event) (r : JSONReactor) : pres (run evs) r.
Proof. apply pres_for_each. intros e r'. apply pres_deliver. Qed.
(** ** What a recorded error carries *)

(** Induction on a JSON value, with the property for its members. *)
Lemma JSON_nested_ind (P : JSON -> Prop) :
  (forall members s e,
     Forall (fun m => P m.2) members -> P (JSON_dictionary members s e)) ->
  (forall elements s e, Forall P elements -> P (JSON_array elements s e)) ->
  (forall s e, P (JSON_null s e)) ->
  (forall b s e, P (JSON_bool b s e)) ->
  (forall t s e, P (JSON_number t s e)) ->
  (forall t s e, P (JSON_string t s e)) ->
  forall j, P j.
Proof.
  intros Hdict Harr Hnull Hbool Hnum Hstr.
  fix IH 1. intros [members s e | elements s e | s e | b s e | t s e | t s e].
  - apply Hdict.
    revert members.
    fix IHm 1. intros [| m members]; constructor; [apply IH | apply IHm].
  - apply Harr.
    revert elements.
    fix IHe 1. intros [| c elements]; constructor; [apply IH | apply IHe].
  - apply Hnull.
  - apply Hbool.
  - apply Hnum.
  - apply Hstr.
Qed.


Lemma logs_quiet {A} (P : QPDFExc -> Prop) (m : M A) (r : JSONReactor) :
  warnings (pdf (m r).2) = warnings (pdf r) -> logs P m r.
Proof.
  intros Hw. exists []. rewrite app_nil_r. split; [exact Hw | constructor].
Qed.

Lemma logs_bind {A B} (P : QPDFExc -> Prop) (m : M A) (f : A -> M B)
    (r : JSONReactor) :
  logs P m r ->
  (forall a r', m r = (Return a, r') -> logs P (f a) r') ->
  logs P (bind m f) r.
Proof.
  unfold logs, bind. intros (new1 & Hw1 & Hall1) Hf.
  destruct (m r) as [[a | e] r'] eqn:E; simpl in *.
  - destruct (Hf a r' eq_refl) as (new2 & Hw2 & Hall2).
    exists (new1 ++ new2)%list. split.
    + rewrite Hw2, Hw1, app_assoc. reflexivity.
    + apply Forall_app. split; assumption.
  - exists new1. split; assumption.
Qed.

Lemma logs_mono {A} (P Q : QPDFExc -> Prop) (m : M A) (r : JSONReactor) :
  (forall e, P e -> Q e) -> logs P m r -> logs Q m r.
Proof.
  intros HPQ (new & Hw & Hall). exists new. split; [exact Hw |].
  eapply Forall_impl; [exact Hall | exact HPQ].
Qed.

Lemma logs_error (P : QPDFExc -> Prop) (off : Z) (msg : string)
    (r : JSONReactor) :
  P (mkQPDFExc qpdf_e_json (cur_object r) (QIntC.to_offset off) msg) ->
  logs P (error off msg) r.
Proof.
  intros HP. unfold logs, error; unfold_monad. simpl.
  eexists. split; [reflexivity |]. apply Forall_singleton. exact HP.
Qed.

Lemma logs_on_pdf {A} (P : QPDFExc -> Prop) (op : QPDF -> A * QPDF)
    (r : JSONReactor) :
  warnings (op (pdf r)).2 = warnings (pdf r) -> logs P (on_pdf op) r.
Proof.
  intros Hw. apply logs_quiet. unfold on_pdf.
  destruct (op (pdf r)) as [a q']. exact Hw.
Qed.

Lemma logs_pdf_replaceObject (P : QPDFExc -> Prop) (og : QPDFObjGen)
    (oh : QPDFObjectHandle) (r : JSONReactor) :
  logs P (pdf_replaceObject og oh) r.
Proof.
  apply logs_quiet. unfold pdf_replaceObject; unfold_monad.
  destruct (ObjectGraph.replaceObject og oh (pdf r)) as [q' |] eqn:E;
    [| reflexivity].
  simpl. eapply warnings_replaceObject. exact E.
Qed.

Lemma logs_for_each {A} (P : QPDFExc -> Prop) (l : list A)
    (body : A -> M unit) (r : JSONReactor) :
  Forall (fun x => forall r', logs P (body x) r') l ->
  logs P (for_each l body) r.
Proof.
  intros Hbody. revert r.
  induction Hbody as [| x l Hx _ IH]; intros r; simpl.
  - apply logs_quiet. reflexivity.
  - apply logs_bind; [apply Hx |]. intros _ r' _. apply IH.
Qed.

Lemma located_mono (P Q : JSON -> Prop) (e : QPDFExc) :
  (forall v, P v -> Q v) -> located P e -> located Q e.
Proof.
  intros HPQ (Hc & [H0 | (v & Hv & Hrest)]); (split; [exact Hc |]).
  - left. exact H0.
  - right. exists v. split; [apply HPQ, Hv | exact Hrest].
Qed.

(** A message is one of a list. *)
Ltac one_of :=
  repeat first [apply list_elem_of_here | apply list_elem_of_further].

(** The error recorded at [value], or at offset 0 when the document ends. *)
Ltac located_here value :=
  split; [reflexivity |];
  first
    [ left; split; [reflexivity | solve [one_of]]
    | right; exists value;
      split; [reflexivity |]; split; [reflexivity |];
      first [left; solve [one_of] | right; eexists; reflexivity] ].

Create HintDb logs_db.

Ltac logs_step value :=
  lazymatch goal with
  | |- logs _ (bind get _) _ =>
      apply logs_bind;
      [ apply logs_quiet; reflexivity
      | let a := fresh "r" in let r' := fresh "r" in
        intros a r' [= <- <-] ]
  | |- logs _ (bind _ _) _ => apply logs_bind; [| intros ? ? _]
  | |- logs _ (ret _) _ => apply logs_quiet; reflexivity
  | |- logs _ skip _ => apply logs_quiet; reflexivity
  | |- logs _ get _ => apply logs_quiet; reflexivity
  | |- logs _ (throw _) _ => apply logs_quiet; reflexivity
  | |- logs _ (back ?v) _ => apply logs_quiet; destruct v; reflexivity
  | |- logs _ (pop_back ?v) _ => apply logs_quiet; destruct v; reflexivity
  | |- logs _ (newObject _) _ => apply logs_on_pdf; reflexivity
  | |- logs _ (pdf_replaceObject _ _) _ => apply logs_pdf_replaceObject
  | |- logs _ (when ?b _) _ => unfold when; destruct b eqn:?
  | |- logs _ (if ?b then _ else _) _ => destruct b eqn:?
  | |- logs _ (match ?x with _ => _ end) _ => destruct x eqn:?
  | |- logs _ (modify _) _ => apply logs_quiet; reflexivity
  | |- logs _ (update_pdf _) _ =>
      apply logs_quiet; unfold update_pdf, modify; simpl;
      first [ apply warnings_update | apply warnings_setObjectDescription
            | reflexivity ]
  | |- logs _ (on_pdf _) _ =>
      apply logs_on_pdf;
      first [ apply warnings_reserveObjectIfNotExists
            | apply warnings_reserveStream | reflexivity ]
  | |- logs _ (error _ _) _ => apply logs_error; located_here value
  | |- logs _ _ _ => solve [eauto with logs_db]
  end.

Lemma logs_containerStart (P : QPDFExc -> Prop) (r : JSONReactor) :
  logs P containerStart r.
Proof. apply logs_quiet. reflexivity. Qed.

Lemma logs_arrayStart (P : QPDFExc -> Prop) (r : JSONReactor) :
  logs P arrayStart r.
Proof.
  unfold arrayStart.
  apply logs_bind; [apply logs_containerStart |].
  intros _ r' _. repeat logs_step (JSON_null 0 0).
Qed.

Lemma logs_nestedState (key : string) (value : JSON) (next : state_e)
    (r : JSONReactor) :
  logs (located (fun v => v = value)) (nestedState key value next) r.
Proof. unfold nestedState. repeat logs_step value. Qed.

Lemma logs_reserveObject (P : QPDFExc -> Prop) (obj gen : string)
    (r : JSONReactor) :
  logs P (reserveObject obj gen) r.
Proof. unfold reserveObject. repeat logs_step (JSON_null 0 0). Qed.

Lemma logs_replaceObject (P : QPDFExc -> Prop)
    (to_replace replacement : QPDFObjectHandle) (r : JSONReactor) :
  logs P (replaceObject to_replace replacement) r.
Proof. unfold replaceObject. repeat logs_step (JSON_null 0 0). Qed.

#[local] Hint Resolve logs_containerStart logs_arrayStart logs_nestedState
  logs_reserveObject logs_replaceObject : logs_db.

Lemma logs_makeObject (value : JSON) (r : JSONReactor) :
  logs (located (fun v => v = value)) (makeObject value) r.
Proof. unfold makeObject. repeat logs_step value. Qed.

#[local] Hint Resolve logs_makeObject : logs_db.

Lemma logs_dictionaryItem (key : string) (value : JSON) (r : JSONReactor) :
  logs (located (fun v => v = value)) (dictionaryItem key value) r.
Proof. unfold dictionaryItem. repeat logs_step value. Qed.

Lemma logs_arrayItem (value : JSON) (r : JSONReactor) :
  logs (located (fun v => v = value)) (arrayItem value) r.
Proof. unfold arrayItem. repeat logs_step value. Qed.

Lemma logs_containerEnd (value : JSON) (r : JSONReactor) :
  logs (located (fun v => v = value)) (containerEnd value) r.
Proof.
  unfold containerEnd. repeat logs_step value.
  all: apply logs_for_each; apply Forall_forall; intros og _ r0;
    repeat logs_step value.
Qed.

(** What a call records is located at the value it was given. *)
Lemma logs_deliver (e : event) (r : JSONReactor) :
  logs (located (fun v => event_value e = Some v)) (deliver e) r.
Proof.
  destruct e as [| | value | | key value | value]; simpl.
  - apply logs_containerStart.
  - apply logs_arrayStart.
  - eapply logs_mono; [| apply logs_containerEnd].
    intros e. apply located_mono. intros v ->. reflexivity.
  - apply logs_quiet. reflexivity.
  - apply logs_bind; [| intros _ r' _; apply logs_quiet; reflexivity].
    eapply logs_mono; [| apply logs_dictionaryItem].
    intros e. apply located_mono. intros v ->. reflexivity.
  - apply logs_bind; [| intros _ r' _; apply logs_quiet; reflexivity].
    eapply logs_mono; [| apply logs_arrayItem].
    intros e. apply located_mono. intros v ->. reflexivity.
Qed.

Lemma values_self (v : JSON) : v ∈ values v.
Proof. destruct v; apply list_elem_of_here. Qed.

(** The parser hands over values of the document only. *)
Lemma container_events_values (doc : JSON) :
  Forall (fun e => forall v, event_value e = Some v -> v ∈ values doc)
    (container_events doc).
Proof.
  induction doc as [members s e IH | elements s e IH | | | |]
    using JSON_nested_ind; try solve [simpl; constructor].
  - assert (Hin : Forall
                    (fun ev => forall v, event_value ev = Some v ->
                               v ∈ flat_map (fun m => values m.2) members)
                    (flat_map
                       (fun m => ev_dictionaryItem m.1 m.2
                                 :: container_events m.2) members)).
    { induction IH as [| m members Hm _ IHm]; simpl; [constructor |].
      constructor.
      - intros v [= <-]. apply elem_of_app. left. apply values_self.
      - apply Forall_app. split.
        + eapply Forall_impl; [exact Hm |]. intros ev Hev v Hv.
          apply elem_of_app. left. apply Hev, Hv.
        + eapply Forall_impl; [exact IHm |]. intros ev Hev v Hv.
          apply elem_of_app. right. apply Hev, Hv. }
    simpl. constructor; [discriminate |].
    apply Forall_app. split.
    + eapply Forall_impl; [exact Hin |]. intros ev Hev v Hv.
      apply list_elem_of_further, Hev, Hv.
    + apply Forall_singleton. intros v [= <-]. apply list_elem_of_here.
  - assert (Hin : Forall
                    (fun ev => forall v, event_value ev = Some v ->
                               v ∈ flat_map (fun c => values c) elements)
                    (flat_map
                       (fun c => ev_arrayItem c :: container_events c)
                       elements)).
    { induction IH as [| c elements Hc _ IHc]; simpl; [constructor |].
      constructor.
      - intros v [= <-]. apply elem_of_app. left. apply values_self.
      - apply Forall_app. split.
        + eapply Forall_impl; [exact Hc |]. intros ev Hev v Hv.
          apply elem_of_app. left. apply Hev, Hv.
        + eapply Forall_impl; [exact IHc |]. intros ev Hev v Hv.
          apply elem_of_app. right. apply Hev, Hv. }
    simpl. constructor; [discriminate |].
    apply Forall_app. split.
    + eapply Forall_impl; [exact Hin |]. intros ev Hev v Hv.
      apply list_elem_of_further, Hev, Hv.
    + apply Forall_singleton. intros v [= <-]. apply list_elem_of_here.
Qed.

Lemma parse_events_values (doc : JSON) :
  Forall (fun e => forall v, event_value e = Some v -> v ∈ values doc)
    (parse_events doc).
Proof.
  unfold parse_events. destruct (isDictionary doc || isArray doc).
  - apply container_events_values.
  - apply Forall_singleton. discriminate.
Qed.

(** Whatever the parser reads from a document, each error the reactor
    records is located at a value of the document. *)
Lemma logs_parse (doc : JSON) (r : JSONReactor) :
  logs (located (fun v => v ∈ values doc)) (JSON_parse doc) r.
Proof.
  unfold JSON_parse, run. apply logs_for_each.
  eapply Forall_impl; [apply parse_events_values |].
  intros ev Hev r'. eapply logs_mono; [| apply logs_deliver].
  intros e. apply located_mono. exact Hev.
Qed.


(** *** Recoverable errors and the outcome of an import *)

(** C5: when the parser has made all its calls and none of them threw, the
    import throws "errors found in JSON", prefixed with the name of the
    input, if the reactor recorded at least one error, and returns normally
    if it recorded none.  What it recorded is what the document's list of
    warnings gained.  Each entry is a JSON error that carries a byte offset
    and a message: the start offset of a value of the document, with the
    message of the error found at that value, or offset 0 with the message
    of one of the checks made when the document ends. *)
Theorem importJSON_fails_iff_errors
    (is_name : string) (doc : JSON) (must_be_complete : bool) (q : QPDF) :
  let parsed := JSON_parse doc (new_JSONReactor q is_name must_be_complete) in
  parsed.1 = Return tt ->
  exists recorded,
    warnings (pdf parsed.2) = (warnings q ++ recorded)%list /\
    Forall (located (fun v => v ∈ values doc)) recorded /\
    (recorded <> [] ->
     importJSON is_name doc must_be_complete q =
       (Raise (runtime_error (is_name ++ ": errors found in JSON")),
        pdf parsed.2)) /\
    (recorded = [] ->
     importJSON is_name doc must_be_complete q = (Return tt, pdf parsed.2)).
Proof.
  intros parsed Hparsed.
  pose proof (pres_run (parse_events doc)
                (new_JSONReactor q is_name must_be_complete)) as Hev.
  unfold pres in Hev. fold (JSON_parse doc) in Hev. fold parsed in Hev.
  destruct (ev_warnings _ _ Hev) as (recorded & Hw & He & _).
  destruct (logs_parse doc (new_JSONReactor q is_name must_be_complete))
    as (logged & Hlog & Hall).
  fold parsed in Hlog.
  simpl in Hw, He, Hlog. exists recorded.
  split; [exact Hw |]. split.
  { rewrite Hw in Hlog. apply app_inv_head in Hlog. subst logged.
    exact Hall. }
  unfold importJSON. fold parsed.
  destruct parsed as [res r]. simpl in *. subst res.
  unfold anyErrors. rewrite He.
  split; intros Hrec.
  - rewrite bool_decide_eq_false_2 by exact Hrec. reflexivity.
  - rewrite bool_decide_eq_true_2 by exact Hrec. reflexivity.
Qed.

Lemma importJSON_fails_iff_errors_witness :
  let doc := Samples.doc_catalog in
  let parsed := JSON_parse doc (new_JSONReactor JSON_PDF "in.json" true) in
  exists recorded,
    warnings (pdf parsed.2) = (warnings JSON_PDF ++ recorded)%list /\
    Forall (located (fun v => v ∈ values doc)) recorded /\
    (recorded <> [] ->
     importJSON "in.json" doc true JSON_PDF =
       (Raise (runtime_error ("in.json" ++ ": errors found in JSON")),
        pdf parsed.2)) /\
    (recorded = [] ->
     importJSON "in.json" doc true JSON_PDF = (Return tt, pdf parsed.2)).
Proof.
  apply (importJSON_fails_iff_errors "in.json" Samples.doc_catalog true
           JSON_PDF).
  vm_compute. reflexivity.
Defined.

(** *** The parse_error flag *)

Lemma containerEnd_objects_parse_error
    (value : JSON) (r : JSONReactor) (stk : list state_e) :
  state_stack r = st_objects :: stk ->
  parse_error r = true ->
  exists r',
    containerEnd value r = (Return tt, r') /\
    pdf r' = pdf r /\ errors r' = errors r.
Proof.
  intros Hstk Hpe. destruct_reactor r; simpl in *; subst.
  unfold containerEnd; unfold_monad; simpl.
  eexists. split; [reflexivity |]. split; reflexivity.
Qed.

Lemma dictionaryItem_object_parse_error
    (key : string) (value : JSON) (r : JSONReactor) :
  state r = st_object -> parse_error r = true ->
  dictionaryItem key value r = (Return true, r).
Proof.
  intros Hst Hpe. unfold dictionaryItem; unfold_monad.
  rewrite Hst, Hpe. reflexivity.
Qed.

Lemma arrayItem_object_parse_error (value : JSON) (r : JSONReactor) :
  state r = st_object -> parse_error r = true ->
  arrayItem value r = (Return true, r).
Proof.
  intros Hst Hpe. unfold arrayItem; unfold_monad.
  rewrite Hst, Hpe. reflexivity.
Qed.

(** C9: once [parse_error] is set it stays set, whatever calls follow.
    From then on no error of the value/stream check of an object entry is
    recorded, closing an object entry leaves the document and the error flag
    as they are, and in the generic-object state a dictionary item or an
    array item changes neither the reactor nor the document. *)
Theorem parse_error_never_cleared (evs : list event) (r : JSONReactor) :
  parse_error r = true ->
  let r' := (run evs r).2 in
  parse_error r' = true /\
  (exists new,
     warnings (pdf r') = (warnings (pdf r) ++ new)%list /\
     Forall (fun e => message e <> msg_trailer_no_value /\
                      message e <> msg_value_stream) new) /\
  (forall value stk,
     state_stack r' = st_objects :: stk ->
     exists r'',
       containerEnd value r' = (Return tt, r'') /\
       pdf r'' = pdf r' /\ errors r'' = errors r') /\
  (forall key value,
     state r' = st_object ->
     dictionaryItem key value r' = (Return true, r') /\
     arrayItem value r' = (Return true, r')).
Proof.
  intros Hpe r'.
  pose proof (pres_run evs r) as Hev. unfold pres in Hev. fold r' in Hev.
  assert (Hpe' : parse_error r' = true)
    by exact (ev_parse_error _ _ Hev Hpe).
  split; [exact Hpe' |]. split; [| split].
  - destruct (ev_warnings _ _ Hev) as (new & Hw & _ & Hall).
    exists new. split; [exact Hw |].
    eapply Forall_impl; [exact Hall |].
    intros e (_ & _ & Hchk). split; intros Hm.
    + rewrite Hchk in Hpe by (left; exact Hm). discriminate Hpe.
    + rewrite Hchk in Hpe by (right; exact Hm). discriminate Hpe.
  - intros value stk Hstk.
    apply (containerEnd_objects_parse_error value r' stk Hstk Hpe').
  - intros key value Hst. split.
    + apply dictionaryItem_object_parse_error; assumption.
    + apply arrayItem_object_parse_error; assumption.
Qed.

Lemma parse_error_never_cleared_witness :
  let r := Samples.after true (Samples.open_objects ++ Samples.bad_entry) in
  let r' := (run Samples.open_entry r).2 in
  parse_error r' = true /\
  (exists new,
     warnings (pdf r') = (warnings (pdf r) ++ new)%list /\
     Forall (fun e => message e <> msg_trailer_no_value /\
                      message e <> msg_value_stream) new) /\
  (forall value stk,
     state_stack r' = st_objects :: stk ->
     exists r'',
       containerEnd value r' = (Return tt, r'') /\
       pdf r'' = pdf r' /\ errors r'' = errors r') /\
  (forall key value,
     state r' = st_object ->
     dictionaryItem key value r' = (Return true, r') /\
     arrayItem value r' = (Return true, r')).
Proof.
  apply (parse_error_never_cleared Samples.open_entry
           (Samples.after true (Samples.open_objects ++ Samples.bad_entry))).
  vm_compute. reflexivity.
Defined.

(** *** A malformed pdfversion *)

(** C10: in the qpdf dictionary, a pdfversion whose value is not a string of
    the form digits.digits records the invalid-version error and leaves the
    stored version as it was; the key still counts as seen, and stays so:
    whatever calls follow, none of them records that pdfversion was not
    seen. *)
Theorem dictionaryItem_bad_pdfversion (value : JSON) (r : JSONReactor) :
  state r = st_qpdf ->
  match getString value with
  | Some v => Regex.PDF_VERSION_RE v
  | None => false
  end = false ->
  exists r',
    dictionaryItem "pdfversion" value r = (Return true, r') /\
    warnings (pdf r') =
      (warnings (pdf r)
       ++ [json_error r (getStart value) msg_bad_version])%list /\
    pdf_version (pdf r') = pdf_version (pdf r) /\
    saw_pdf_version r' = true /\
    forall evs,
      let r'' := (run evs r').2 in
      saw_pdf_version r'' = true /\
      exists new,
        warnings (pdf r'') = (warnings (pdf r') ++ new)%list /\
        Forall (fun e => message e <> msg_missing_pdf_version) new.
Proof.
  intros Hst Hbad.
  assert (Hitem : exists r',
    dictionaryItem "pdfversion" value r = (Return true, r') /\
    warnings (pdf r') =
      (warnings (pdf r)
       ++ [json_error r (getStart value) msg_bad_version])%list /\
    pdf_version (pdf r') = pdf_version (pdf r) /\
    saw_pdf_version r' = true).
  { unfold dictionaryItem; unfold_monad. rewrite Hst. simpl.
    destruct (getString value) as [v |]; [rewrite Hbad |]; simpl;
      eexists; (split; [reflexivity |]); simpl; repeat split. }
  destruct Hitem as (r' & Hrun & Hw & Hv & Hseen).
  exists r'. repeat (split; [assumption |]).
  intros evs r''.
  pose proof (pres_run evs r') as Hev. unfold pres in Hev. fold r'' in Hev.
  split; [exact (ev_saw_pdf_version _ _ Hev Hseen) |].
  destruct (ev_warnings _ _ Hev) as (new & Hw' & _ & Hall).
  exists new. split; [exact Hw' |].
  eapply Forall_impl; [exact Hall |].
  intros e (_ & Hver & _) Hm.
  rewrite (Hver Hm) in Hseen. discriminate Hseen.
Qed.

Lemma dictionaryItem_bad_pdfversion_witness :
  let r := Samples.in_qpdf in
  let value := JSON_string "1.x" 26 31 in
  exists r',
    dictionaryItem "pdfversion" value r = (Return true, r') /\
    warnings (pdf r') =
      (warnings (pdf r)
       ++ [json_error r (getStart value) msg_bad_version])%list /\
    pdf_version (pdf r') = pdf_version (pdf r) /\
    saw_pdf_version r' = true /\
    forall evs,
      let r'' := (run evs r').2 in
      saw_pdf_version r'' = true /\
      exists new,
        warnings (pdf r'') = (warnings (pdf r') ++ new)%list /\
        Forall (fun e => message e <> msg_missing_pdf_version) new.
Proof.
  apply (dictionaryItem_bad_pdfversion (JSON_string "1.x" 26 31)
           Samples.in_qpdf).
  - vm_compute. reflexivity.
  - vm_compute. reflexivity.
Defined.

(** *** References that are never defined *)


Lemma set_pdf_same (r : JSONReactor) : set_pdf (pdf r) r = r.
Proof. destruct r; reflexivity. Qed.

Lemma resolve_to_null_step (og : QPDFObjGen) (r : JSONReactor) :
  resolve_to_null og r =
    (Return tt,
     set_pdf
       (with_obj_cache
          (<[og := length (object_heap (pdf r))]> (obj_cache (pdf r)))
          (with_object_heap (object_heap (pdf r) ++ [ot_null])%list (pdf r)))
       r).
Proof. reflexivity. Qed.

(** The loop only touches the document: it appends null objects to the
    heap and points the table entries of the listed ObjGens at them. *)
Lemma resolve_to_null_loop (l : list QPDFObjGen) (r : JSONReactor) :
  exists q',
    for_each l resolve_to_null r = (Return tt, set_pdf q' r) /\
    warnings q' = warnings (pdf r) /\
    (exists extra,
       object_heap q' = (object_heap (pdf r) ++ extra)%list /\
       Forall (fun o => o = ot_null) extra) /\
    (forall og, og ∈ l ->
       exists n, obj_cache q' !! og = Some n /\
                 (length (object_heap (pdf r)) <= n
                  < length (object_heap q'))%nat) /\
    (forall og, og ∉ l -> obj_cache q' !! og = obj_cache (pdf r) !! og).
Proof.
  revert r. induction l as [| og l IH]; intros r.
  - exists (pdf r). simpl. rewrite set_pdf_same.
    split; [reflexivity |]. split; [reflexivity |]. split; [| split].
    + exists []. rewrite app_nil_r. split; [reflexivity | constructor].
    + intros og Hin. inversion Hin.
    + reflexivity.
  - set (q1 := with_obj_cache
                 (<[og := length (object_heap (pdf r))]> (obj_cache (pdf r)))
                 (with_object_heap (object_heap (pdf r) ++ [ot_null])%list
                    (pdf r))).
    destruct (IH (set_pdf q1 r)) as (q' & Hrun & Hw & (extra & Hheap & Hnull)
                                     & Hin & Hout).
    simpl in Hw, Hheap, Hin, Hout.
    exists q'. split; [| split; [| split; [| split]]].
    + change (for_each (og :: l) resolve_to_null)
        with (bind (resolve_to_null og)
                (fun _ => for_each l resolve_to_null)).
      unfold bind. rewrite resolve_to_null_step. fold q1.
      rewrite Hrun. reflexivity.
    + exact Hw.
    + exists ([ot_null] ++ extra)%list. split.
      * rewrite Hheap, <- app_assoc. reflexivity.
      * constructor; [reflexivity | exact Hnull].
    + intros og' Hog'.
      destruct (decide (og' ∈ l)) as [Hl | Hl].
      * destruct (Hin og' Hl) as (n & Hn & Hrange).
        exists n. split; [exact Hn |].
        rewrite length_app in Hrange. simpl in Hrange. lia.
      * assert (og' = og) as -> by (apply elem_of_cons in Hog'; tauto).
        rewrite (Hout og Hl). simpl. rewrite lookup_insert_eq.
        eexists. split; [reflexivity |].
        rewrite Hheap, !length_app. simpl. lia.
    + intros og' Hog'.
      apply not_elem_of_cons in Hog' as [Hne Hl].
      rewrite (Hout og' Hl). simpl.
      rewrite lookup_insert_ne by congruence. reflexivity.
Qed.

(** Numbers that fit an [int] are read as they are. *)
Lemma string_to_int_fits (s : string) :
  (Text.decimal_value s <= QUtil.int_max)%Z ->
  QUtil.string_to_int s = inl (Text.decimal_value s).
Proof.
  intros Hle. unfold QUtil.string_to_int.
  assert (H1 : (QUtil.long_long_max <? Text.decimal_value s)%Z = false)
    by (apply Z.ltb_ge; unfold QUtil.long_long_max, QUtil.int_max in *; lia).
  assert (H2 : (QUtil.int_max <? Text.decimal_value s)%Z = false)
    by (apply Z.ltb_ge; lia).
  cbv zeta. rewrite H1, H2. reflexivity.
Qed.

(** Numbers that do not fit make the conversion fail. *)
Lemma string_to_int_range (s : string) :
  (QUtil.int_max < Text.decimal_value s)%Z ->
  exists what, QUtil.string_to_int s = inr what.
Proof.
  intros Hlt. unfold QUtil.string_to_int. cbv zeta.
  destruct (QUtil.long_long_max <? Text.decimal_value s)%Z;
    [eexists; reflexivity |].
  apply Z.ltb_lt in Hlt. rewrite Hlt. eexists. reflexivity.
Qed.

Lemma reserveObject_fits (obj gen : string) :
  in_int (Text.decimal_value obj, Text.decimal_value gen) = true ->
  reserveObject obj gen
  = reserve (Text.decimal_value obj, Text.decimal_value gen).
Proof.
  unfold in_int. cbn [fst snd]. intros H.
  apply andb_prop in H as [Ho Hg].
  apply Z.leb_le in Ho, Hg.
  unfold reserveObject.
  rewrite (string_to_int_fits obj Ho), (string_to_int_fits gen Hg).
  reflexivity.
Qed.

(** An id or a generation that does not fit an [int] makes [reserveObject]
    throw, before anything is reserved. *)
Lemma reserveObject_range (obj gen : string) (r : JSONReactor) :
  in_int (Text.decimal_value obj, Text.decimal_value gen) = false ->
  exists what, reserveObject obj gen r = (Raise (runtime_error what), r).
Proof.
  unfold in_int. cbn [fst snd]. intros H.
  unfold reserveObject.
  destruct (Z.leb_spec (Text.decimal_value obj) QUtil.int_max) as [Ho | Ho].
  - rewrite (string_to_int_fits obj Ho).
    destruct (Z.leb_spec (Text.decimal_value gen) QUtil.int_max)
      as [Hg | Hg]; [discriminate H |].
    destruct (string_to_int_range gen Hg) as [what ->].
    exists what. reflexivity.
  - destruct (string_to_int_range obj Ho) as [what ->].
    exists what. reflexivity.
Qed.

(** A reference to an ObjGen the table does not have makes a Reserved node
    for it and puts it in the reservation set. *)
Lemma reserveObject_new (obj gen : string) (r : JSONReactor) :
  let og := (Text.decimal_value obj, Text.decimal_value gen) in
  in_int og = true ->
  obj_cache (pdf r) !! og = None ->
  exists r',
    reserveObject obj gen r = (Return (h_indirect og), r') /\
    og ∈ reserved r' /\
    ObjectGraph.resolve (pdf r') (h_indirect og) = Some ot_reserved /\
    warnings (pdf r') = warnings (pdf r).
Proof.
  intros og Hfit Hnew. subst og.
  rewrite (reserveObject_fits obj gen Hfit).
  assert (Hres : ObjectGraph.resolve
            (ObjectGraph.reserveObjectIfNotExists (Text.decimal_value obj)
               (Text.decimal_value gen) (pdf r)).2
            (h_indirect (Text.decimal_value obj, Text.decimal_value gen))
          = Some ot_reserved).
  { unfold ObjectGraph.reserveObjectIfNotExists. rewrite Hnew.
    unfold ObjectGraph.resolve. simpl. rewrite lookup_insert_eq.
    apply list_lookup_middle. reflexivity. }
  unfold reserve; unfold_monad. cbn [fst snd].
  destruct (ObjectGraph.reserveObjectIfNotExists _ _ (pdf r)) as [oh q1] eqn:E.
  assert (oh = h_indirect (Text.decimal_value obj, Text.decimal_value gen))
    as ->.
  { unfold ObjectGraph.reserveObjectIfNotExists in E.
    rewrite Hnew in E. injection E as <- _. reflexivity. }
  simpl in *. unfold ObjectGraph.isReserved. rewrite Hres.
  eexists. split; [reflexivity |]. simpl. split; [| split].
  - apply elem_of_union_l, elem_of_singleton. reflexivity.
  - exact Hres.
  - pose proof (warnings_reserveObjectIfNotExists (Text.decimal_value obj)
                  (Text.decimal_value gen) (pdf r)) as Hw.
    rewrite E in Hw. exact Hw.
Qed.

(** Defining an object takes its ObjGen out of the reservation set and
    points its table entry at the new object. *)
Lemma replaceObject_defines (og : QPDFObjGen) (l : nat) (r : JSONReactor) :
  exists r',
    replaceObject (h_indirect og) (h_direct l) r = (Return tt, r') /\
    (og ∉ reserved r') /\
    ObjectGraph.loc_of (pdf r') (h_indirect og) = Some l.
Proof.
  unfold replaceObject, pdf_replaceObject; unfold_monad. simpl.
  eexists. split; [reflexivity |]. simpl. split.
  - intros Hin. apply elem_of_difference in Hin as [_ Hne].
    apply Hne. apply elem_of_singleton. reflexivity.
  - apply lookup_insert_eq.
Qed.

(** C4: when a container closes back into the qpdf dictionary, that is when
    the objects dictionary closes, every ObjGen still in the reservation
    set, referenced but not defined by an object entry, has its table entry
    replaced by a null object; no error is recorded, the reservation set is
    left empty, and an object outside the set stays what it was. *)
Theorem containerEnd_resolves_reserved
    (value : JSON) (r : JSONReactor) (stk : list state_e) :
  state_stack r = st_qpdf :: stk ->
  exists r',
    containerEnd value r = (Return tt, r') /\
    reserved r' = ∅ /\
    (forall og, og ∈ reserved r ->
       ObjectGraph.resolve (pdf r') (h_indirect og) = Some ot_null) /\
    (forall og o, og ∉ reserved r ->
       ObjectGraph.resolve (pdf r) (h_indirect og) = Some o ->
       ObjectGraph.resolve (pdf r') (h_indirect og) = Some o) /\
    warnings (pdf r') = warnings (pdf r) /\
    errors r' = errors r.
Proof.
  intros Hstk.
  set (r0 := set_state_stack stk (set_state st_qpdf r)).
  destruct (resolve_to_null_loop (elements (reserved r)) r0)
    as (q' & Hrun & Hw & (extra & Hheap & Hnull) & Hin & Hout).
  change (pdf r0) with (pdf r) in Hw, Hheap, Hin, Hout.
  exists (set_reserved ∅ (set_pdf q' r0)).
  split; [| split; [| split; [| split; [| split]]]].
  - transitivity
      (bind (for_each (elements (reserved r)) resolve_to_null)
         (fun _ => modify (set_reserved ∅)) r0).
    + subst r0. destruct_reactor r. simpl in Hstk. subst sstk. reflexivity.
    + unfold bind. rewrite Hrun. reflexivity.
  - reflexivity.
  - intros og Hog. apply elem_of_elements in Hog.
    destruct (Hin og Hog) as (n & Hn & Hrange). simpl in Hrange.
    unfold ObjectGraph.resolve. simpl. rewrite Hn, Hheap.
    rewrite lookup_app_r by lia.
    destruct (extra !! (n - length (object_heap (pdf r)))%nat) as [o |] eqn:E.
    + rewrite Forall_forall in Hnull.
      rewrite (Hnull o) by (eapply list_elem_of_lookup_2; exact E).
      reflexivity.
    + apply lookup_ge_None in E. rewrite Hheap, length_app in Hrange. lia.
  - intros og o Hog Hres.
    assert (Hl : og ∉ elements (reserved r))
      by (rewrite elem_of_elements; exact Hog).
    unfold ObjectGraph.resolve in *. simpl in *.
    rewrite (Hout og Hl).
    destruct (obj_cache (pdf r) !! og) as [n |]; [| discriminate Hres].
    rewrite Hheap. apply lookup_app_l_Some. exact Hres.
  - exact Hw.
  - reflexivity.
Qed.

Lemma containerEnd_resolves_reserved_witness :
  let r := Samples.objects_with_dangling_reference in
  (2, 0) ∈ reserved r /\
  exists r',
    containerEnd (Samples.D 24 62) r = (Return tt, r') /\
    reserved r' = ∅ /\
    (forall og, og ∈ reserved r ->
       ObjectGraph.resolve (pdf r') (h_indirect og) = Some ot_null) /\
    (forall og o, og ∉ reserved r ->
       ObjectGraph.resolve (pdf r) (h_indirect og) = Some o ->
       ObjectGraph.resolve (pdf r') (h_indirect og) = Some o) /\
    warnings (pdf r') = warnings (pdf r) /\
    errors r' = errors r.
Proof.
  split.
  - vm_compute. reflexivity.
  - apply (containerEnd_resolves_reserved (Samples.D 24 62)
             Samples.objects_with_dangling_reference
             [st_top; st_initial; st_initial]).
    vm_compute. reflexivity.
Defined.

(** *** Fields a computation does not touch *)

Lemma keeps_bind {A B C} (f : JSONReactor -> C) (m : M A) (k : A -> M B) :
  keeps f m -> (forall a, keeps f (k a)) -> keeps f (bind m k).
Proof.
  intros Hm Hk r. unfold bind.
  destruct (m r) as [[a | e] r1] eqn:E.
  - rewrite Hk. specialize (Hm r). rewrite E in Hm. exact Hm.
  - specialize (Hm r). rewrite E in Hm. exact Hm.
Qed.

Lemma keeps_back {A C} (f : JSONReactor -> C) (v : list A) :
  keeps f (back v).
Proof. intros r. destruct v; reflexivity. Qed.

Lemma keeps_pop_back {A C} (f : JSONReactor -> C) (v : list A) :
  keeps f (pop_back v).
Proof. intros r. destruct v; reflexivity. Qed.

Lemma keeps_on_pdf {A C} (f : JSONReactor -> C) (op : QPDF -> A * QPDF) :
  (forall q r, f (set_pdf q r) = f r) -> keeps f (on_pdf op).
Proof.
  intros Hf r. unfold on_pdf. destruct (op (pdf r)) as [a q]. apply Hf.
Qed.

Lemma keeps_for_each {A C} (f : JSONReactor -> C) (l : list A)
    (body : A -> M unit) :
  (forall x, keeps f (body x)) -> keeps f (for_each l body).
Proof.
  intros Hbody. induction l as [| x l IH]; simpl.
  - intros r. reflexivity.
  - apply keeps_bind; [apply Hbody | intros _; exact IH].
Qed.

Ltac keeps_step :=
  lazymatch goal with
  | |- keeps _ (bind _ _) => apply keeps_bind; [| intros ?]
  | |- keeps _ (ret _) => intros ?; reflexivity
  | |- keeps _ skip => intros ?; reflexivity
  | |- keeps _ get => intros ?; reflexivity
  | |- keeps _ (throw _) => intros ?; reflexivity
  | |- keeps _ (back _) => apply keeps_back
  | |- keeps _ (pop_back _) => apply keeps_pop_back
  | |- keeps _ (when ?b _) => unfold when; destruct b
  | |- keeps _ (if ?b then _ else _) => destruct b
  | |- keeps _ (match ?x with _ => _ end) => destruct x
  | |- keeps _ (modify _) => intros ?; reflexivity
  | |- keeps _ (update_pdf _) => intros ?; reflexivity
  | |- keeps _ (on_pdf _) => apply keeps_on_pdf; intros ? ?; reflexivity
  | |- keeps _ (for_each _ _) => apply keeps_for_each; intros ?
  | |- keeps _ (error _ _) => unfold error
  | |- keeps _ (newObject _) => unfold newObject
  | |- keeps _ (pdf_replaceObject _ _) => unfold pdf_replaceObject
  | |- keeps _ (nestedState _ _ _) => unfold nestedState
  | |- keeps _ (reserveObject _ _) => unfold reserveObject
  | |- keeps _ (replaceObject _ _) => unfold replaceObject
  | |- keeps _ (makeObject _) => unfold makeObject
  end.

(** An item never moves the reactor to another state. *)
Lemma dictionaryItem_control (key : string) (value : JSON) :
  keeps control (dictionaryItem key value).
Proof. unfold dictionaryItem. repeat keeps_step. Qed.

Lemma arrayItem_control (value : JSON) : keeps control (arrayItem value).
Proof. unfold arrayItem. repeat keeps_step. Qed.

Lemma closing_control (st : state_e) (value : JSON) :
  keeps control (closing st value).
Proof. unfold closing. repeat keeps_step. Qed.

Lemma closing_next_state (st : state_e) (value : JSON) :
  keeps next_state (closing st value).
Proof. unfold closing. repeat keeps_step. Qed.

Lemma closing_reserved (st : state_e) (value : JSON) :
  st <> st_qpdf -> keeps reserved (closing st value).
Proof.
  intros Hst. unfold closing. destruct st; try congruence; repeat keeps_step.
Qed.

Lemma closing_qpdf_reserved (value : JSON) (r r' : JSONReactor) :
  closing st_qpdf value r = (Return tt, r') -> reserved r' = ∅.
Proof.
  unfold closing. unfold bind at 1, get at 1. unfold bind at 1.
  destruct (for_each _ _ r) as [[[] | e] r1]; intros [= <-]. reflexivity.
Qed.

(** [containerEnd] pops the state it returns to, then does the checks of
    that state. *)
Lemma containerEnd_closing (value : JSON) (r : JSONReactor) :
  containerEnd value r =
    match state_stack r with
    | st :: stk =>
        closing st value (set_state_stack stk (set_state st r))
    | [] => (Raise undefined_behaviour, r)
    end.
Proof.
  unfold containerEnd, bind, get. destruct (state_stack r); reflexivity.
Qed.

Lemma containerEnd_returns (value : JSON) (r r' : JSONReactor) :
  containerEnd value r = (Return tt, r') ->
  state_stack r = state r' :: state_stack r' /\
  next_state r' = next_state r /\
  (state r' = st_qpdf -> reserved r' = ∅) /\
  (state r' <> st_qpdf -> reserved r' = reserved r).
Proof.
  rewrite containerEnd_closing.
  destruct (state_stack r) as [| st stk] eqn:Hstk; [discriminate |].
  intros Hrun.
  pose proof (closing_control st value
                (set_state_stack stk (set_state st r))) as Hc.
  pose proof (closing_next_state st value
                (set_state_stack stk (set_state st r))) as Hn.
  rewrite Hrun in Hc, Hn. simpl in Hc, Hn.
  unfold control in Hc. simpl in Hc. injection Hc as Hs Hk.
  rewrite Hs, Hk. split; [reflexivity |]. split; [exact Hn |]. split.
  - intros ->. eapply closing_qpdf_reserved. exact Hrun.
  - intros Hne.
    pose proof (closing_reserved st value Hne
                  (set_state_stack stk (set_state st r))) as Hr.
    rewrite Hrun in Hr. exact Hr.
Qed.

(** *** Containers are closed where they were opened *)

Lemma run_cons (e : event) (evs : list event) (r : JSONReactor) :
  run (e :: evs) r =
    match deliver e r with
    | (Return _, r1) => run evs r1
    | (Raise x, r1) => (Raise x, r1)
    end.
Proof. reflexivity. Qed.

Lemma run_app (evs1 evs2 : list event) (r : JSONReactor) :
  run (evs1 ++ evs2) r =
    match run evs1 r with
    | (Return _, r1) => run evs2 r1
    | (Raise x, r1) => (Raise x, r1)
    end.
Proof.
  revert r. induction evs1 as [| e evs1 IH]; intros r; [reflexivity |].
  rewrite <- app_comm_cons, !run_cons.
  destruct (deliver e r) as [[[] | x] r1]; [apply IH | reflexivity].
Qed.

(** The calls for a container: its start, the calls for its children, its
    end. *)
Lemma container_events_shape (c : JSON) :
  isDictionary c || isArray c = true ->
  container_events c =
    (if isDictionary c then ev_dictionaryStart else ev_arrayStart)
    :: flat_map (fun ic => ic.1 :: container_events ic.2) (children c)
    ++ [ev_containerEnd c].
Proof.
  destruct c as [members s e | elements s e | | | |]; try discriminate;
    intros _; simpl; f_equal; f_equal.
  - induction members as [| m members IH]; simpl; [reflexivity |].
    rewrite IH. reflexivity.
  - induction elements as [| c elements IH]; simpl; [reflexivity |].
    rewrite IH. reflexivity.
Qed.

Lemma container_events_scalar (c : JSON) :
  isDictionary c || isArray c = false -> container_events c = [].
Proof. destruct c; try discriminate; reflexivity. Qed.

Lemma children_item (c : JSON) (ic : event * JSON) :
  ic ∈ children c -> is_item ic.1 = true.
Proof.
  destruct c as [members s e | elements s e | | | |]; simpl;
    try (intros H; inversion H; fail).
  - intros Hin. apply list_elem_of_fmap in Hin as (m & -> & _). reflexivity.
  - intros Hin. apply list_elem_of_fmap in Hin as (m & -> & _). reflexivity.
Qed.

(** Induction on a JSON value through its children. *)
Lemma JSON_children_ind (P : JSON -> Prop) :
  (forall c, (forall ic, ic ∈ children c -> P ic.2) -> P c) ->
  forall c, P c.
Proof.
  intros Hstep. apply JSON_nested_ind; intros; apply Hstep; simpl;
    try (intros ic Hin; inversion Hin; fail).
  - intros ic Hin. apply list_elem_of_fmap in Hin as (m & -> & Hm).
    rewrite Forall_forall in H. apply (H m Hm).
  - intros ic Hin. apply list_elem_of_fmap in Hin as (m & -> & Hm).
    rewrite Forall_forall in H. apply (H m Hm).
Qed.

(** An item keeps the control of the reactor. *)
Lemma deliver_item_control (e : event) (r r' : JSONReactor) :
  is_item e = true -> deliver e r = (Return tt, r') -> control r' = control r.
Proof.
  destruct e; try discriminate; intros _; simpl; unfold bind.
  - pose proof (dictionaryItem_control key value r) as Hk.
    destruct (dictionaryItem key value r) as [[b | x] r1]; [| discriminate].
    intros [= <-]. exact Hk.
  - pose proof (arrayItem_control value r) as Hk.
    destruct (arrayItem value r) as [[b | x] r1]; [| discriminate].
    intros [= <-]. exact Hk.
Qed.

(** The start of a container, when it returns. *)
Lemma deliver_start (c : JSON) (r r' : JSONReactor) :
  deliver (if isDictionary c then ev_dictionaryStart else ev_arrayStart) r
    = (Return tt, r') ->
  r' = set_state (next_state r) (set_state_stack (state r :: state_stack r) r).
Proof.
  destruct (isDictionary c); simpl.
  - intros [= <-]. reflexivity.
  - unfold arrayStart, containerStart; unfold_monad. simpl.
    destruct (next_state r); intros [= <-]; reflexivity.
Qed.

(** A container that is run to its end: the reactor enters the state
    chosen for it, runs the children, and closes. *)
Lemma container_run (c : JSON) (r r' : JSONReactor) :
  isDictionary c || isArray c = true ->
  run (container_events c) r = (Return tt, r') ->
  exists r2,
    run (flat_map (fun ic => ic.1 :: container_events ic.2) (children c))
      (set_state (next_state r)
         (set_state_stack (state r :: state_stack r) r))
    = (Return tt, r2) /\
    containerEnd c r2 = (Return tt, r').
Proof.
  intros Hc Hrun. rewrite (container_events_shape c Hc) in Hrun.
  rewrite run_cons in Hrun.
  destruct (deliver _ r) as [[[] | x] r1] eqn:Hstart; [| discriminate].
  apply deliver_start in Hstart. subst r1.
  rewrite run_app in Hrun.
  destruct (run (flat_map _ _) _) as [[[] | x] r2] eqn:Hloop; [| discriminate].
  exists r2. split; [reflexivity |].
  rewrite run_cons in Hrun. simpl in Hrun.
  destruct (containerEnd c r2) as [[[] | x] r3]; [| discriminate].
  unfold run in Hrun. simpl in Hrun. injection Hrun as <-. reflexivity.
Qed.

(** An invariant of the calls for the children of a container. *)
Lemma children_loop (I : JSONReactor -> Prop) (l : list (event * JSON)) :
  (forall ic r r1 r2,
     ic ∈ l -> I r ->
     deliver ic.1 r = (Return tt, r1) ->
     run (container_events ic.2) r1 = (Return tt, r2) ->
     I r2) ->
  forall r r',
    I r ->
    run (flat_map (fun ic => ic.1 :: container_events ic.2) l) r
      = (Return tt, r') ->
    I r'.
Proof.
  induction l as [| ic l IH]; intros Hstep r r' HI Hrun.
  - unfold run in Hrun. simpl in Hrun. injection Hrun as <-. exact HI.
  - simpl in Hrun. rewrite run_cons in Hrun.
    destruct (deliver ic.1 r) as [[[] | x] r1] eqn:Hitem; [| discriminate].
    rewrite run_app in Hrun.
    destruct (run (container_events ic.2) r1) as [[[] | x] r2] eqn:Hchild;
      [| discriminate].
    apply (IH (fun ic' r0 r1' r2' Hin => Hstep ic' r0 r1' r2'
                 (list_elem_of_further _ _ _ Hin)) r2 r');
      [| exact Hrun].
    apply (Hstep ic r r1 r2); [left | exact HI | exact Hitem | exact Hchild].
Qed.

(** Running the calls for a value brings the reactor back to the state,
    and to the stack of states, it started from. *)
Lemma container_events_balanced (c : JSON) (r r' : JSONReactor) :
  run (container_events c) r = (Return tt, r') -> control r' = control r.
Proof.
  revert r r'. induction c as [c IH] using JSON_children_ind. intros r r' Hrun.
  destruct (isDictionary c || isArray c) eqn:Hc.
  - destruct (container_run c r r' Hc Hrun) as (r2 & Hloop & Hend).
    apply (children_loop
             (fun r0 => control r0
                        = (next_state r, state r :: state_stack r))) in Hloop.
    + apply containerEnd_returns in Hend as (Hstk & _).
      unfold control in *. injection Hloop as _ Hstk2.
      rewrite Hstk2 in Hstk. injection Hstk as <- <-. reflexivity.
    + intros ic r0 r1 r3 Hin HI Hitem Hchild.
      rewrite (IH ic Hin r1 r3 Hchild).
      rewrite (deliver_item_control ic.1 r0 r1 (children_item c ic Hin) Hitem).
      exact HI.
    + reflexivity.
  - rewrite (container_events_scalar c Hc) in Hrun.
    unfold run in Hrun. simpl in Hrun. injection Hrun as <-. reflexivity.
Qed.

(** *** No reservation outlives the qpdf object *)

Lemma run_nil (r r' : JSONReactor) : run [] r = (Return tt, r') -> r' = r.
Proof. unfold run. simpl. intros [= <-]. reflexivity. Qed.

(** In the ignore state an item does nothing. *)
Lemma deliver_item_ignored (e : event) (r r' : JSONReactor) :
  is_item e = true -> state r = st_ignore ->
  deliver e r = (Return tt, r') -> r' = r.
Proof.
  destruct e; try discriminate; intros _ Hst; simpl;
    unfold dictionaryItem, arrayItem; unfold_monad; rewrite Hst;
    intros [= <-]; reflexivity.
Qed.

(** In the qpdf dictionary an item reserves nothing. *)
Lemma dictionaryItem_qpdf_reserved (key : string) (value : JSON)
    (r : JSONReactor) :
  state r = st_qpdf -> reserved (dictionaryItem key value r).2 = reserved r.
Proof.
  intros Hst. unfold dictionaryItem. unfold bind at 1, get at 1.
  rewrite Hst.
  assert (Hk : keeps reserved
            (bind
               (if String.eqb key "pdfversion" then
                  modify (set_saw_pdf_version true) ;;
                  let* version_okay :=
                    match getString value with
                    | Some v =>
                        if Regex.PDF_VERSION_RE v then
                          update_pdf (with_pdf_version v) ;; ret true
                        else ret false
                    | None => ret false
                    end in
                  when (negb version_okay)
                    (error (getStart value) msg_bad_version)
                else if String.eqb key "objects" then
                  modify (set_saw_objects true) ;;
                  nestedState key value st_objects
                else modify (set_next_state st_ignore))
               (fun _ => ret true)))
    by repeat keeps_step.
  apply Hk.
Qed.

Lemma deliver_item_qpdf_reserved (e : event) (r r' : JSONReactor) :
  is_item e = true -> state r = st_qpdf ->
  deliver e r = (Return tt, r') -> reserved r' = reserved r.
Proof.
  destruct e; try discriminate; intros _ Hst; simpl; unfold bind.
  - pose proof (dictionaryItem_qpdf_reserved key value r Hst) as Hk.
    destruct (dictionaryItem key value r) as [[b | x] r1]; [| discriminate].
    intros [= <-]. exact Hk.
  - unfold arrayItem; unfold_monad. rewrite Hst. intros [= <-]. reflexivity.
Qed.

(** At the top of the document a key reserves nothing, and the container
    it introduces is the qpdf dictionary or is ignored. *)
Lemma dictionaryItem_top (key : string) (value : JSON) (r r' : JSONReactor) :
  state r = st_top ->
  deliver (ev_dictionaryItem key value) r = (Return tt, r') ->
  reserved r' = reserved r /\
  (next_state r' = st_qpdf \/ next_state r' = st_ignore).
Proof.
  intros Hst. simpl. unfold dictionaryItem, nestedState; unfold_monad.
  rewrite Hst.
  destruct (String.eqb key "qpdf-v2"), (isDictionary value); simpl;
    intros [= <-]; simpl; auto.
Qed.

(** A subtree entered while the next state is [st_ignore] is ignored as a
    whole. *)
Lemma ignored_subtree (c : JSON) (r r' : JSONReactor) :
  next_state r = st_ignore ->
  state r = st_top \/ state r = st_ignore ->
  run (container_events c) r = (Return tt, r') ->
  reserved r' = reserved r /\ next_state r' = st_ignore.
Proof.
  revert r r'. induction c as [c IH] using JSON_children_ind.
  intros r r' Hnext Hst Hrun.
  destruct (isDictionary c || isArray c) eqn:Hc.
  - destruct (container_run c r r' Hc Hrun) as (r2 & Hloop & Hend).
    apply (children_loop
             (fun r0 => state r0 = st_ignore /\ next_state r0 = st_ignore /\
                        reserved r0 = reserved r)) in Hloop.
    + destruct Hloop as (Hst2 & Hnext2 & Hres2).
      pose proof (container_events_balanced c r r' Hrun) as Hctl.
      injection Hctl as Hst' _.
      apply containerEnd_returns in Hend as (_ & Hn & _ & Hkeep).
      split; [| congruence].
      rewrite Hkeep, Hres2; [reflexivity |].
      rewrite Hst'. destruct Hst as [-> | ->]; discriminate.
    + intros ic r0 r1 r3 Hin (Hst0 & Hnext0 & Hres0) Hitem Hchild.
      apply (deliver_item_ignored _ _ _ (children_item c ic Hin) Hst0)
        in Hitem. subst r1.
      pose proof (container_events_balanced ic.2 r0 r3 Hchild) as Hctl.
      injection Hctl as Hst3 _.
      destruct (IH ic Hin r0 r3 Hnext0 (or_intror Hst0) Hchild) as [Hr Hn].
      split; [congruence |]. split; [exact Hn | congruence].
    + simpl. rewrite Hnext. auto.
  - rewrite (container_events_scalar c Hc) in Hrun.
    apply run_nil in Hrun. subst r'. auto.
Qed.

(** A container closed back into the qpdf dictionary leaves no
    reservation. *)
Lemma closed_into_qpdf (c : JSON) (r r' : JSONReactor) :
  state r = st_qpdf -> reserved r = ∅ ->
  run (container_events c) r = (Return tt, r') ->
  reserved r' = ∅.
Proof.
  intros Hst Hres Hrun.
  destruct (isDictionary c || isArray c) eqn:Hc.
  - pose proof (container_events_balanced c r r' Hrun) as Hctl.
    injection Hctl as Hst' _.
    destruct (container_run c r r' Hc Hrun) as (r2 & _ & Hend).
    apply containerEnd_returns in Hend as (_ & _ & Hclear & _).
    apply Hclear. congruence.
  - rewrite (container_events_scalar c Hc) in Hrun.
    apply run_nil in Hrun. subst r'. exact Hres.
Qed.

(** When the qpdf object closes, the reservation set is empty. *)
Lemma qpdf_object_closes_without_reservation (c : JSON) (r r' : JSONReactor) :
  next_state r = st_qpdf -> reserved r = ∅ ->
  run (container_events c) r = (Return tt, r') ->
  reserved r' = ∅.
Proof.
  intros Hnext Hres Hrun.
  destruct (isDictionary c || isArray c) eqn:Hc.
  - destruct (container_run c r r' Hc Hrun) as (r2 & Hloop & Hend).
    apply (children_loop
             (fun r0 => state r0 = st_qpdf /\ reserved r0 = ∅)) in Hloop.
    + destruct Hloop as (Hst2 & Hres2).
      apply containerEnd_returns in Hend as (_ & _ & Hclear & Hkeep).
      destruct (state r') eqn:Hq;
        try (rewrite Hkeep by discriminate; exact Hres2).
      apply Hclear. reflexivity.
    + intros ic r0 r1 r3 Hin (Hst0 & Hres0) Hitem Hchild.
      pose proof (deliver_item_control _ _ _ (children_item c ic Hin) Hitem)
        as Hctl1.
      injection Hctl1 as Hst1 _.
      pose proof (deliver_item_qpdf_reserved _ _ _ (children_item c ic Hin)
                    Hst0 Hitem) as Hres1.
      pose proof (container_events_balanced ic.2 r1 r3 Hchild) as Hctl3.
      injection Hctl3 as Hst3 _.
      split; [congruence |].
      apply (closed_into_qpdf ic.2 r1 r3); congruence.
    + simpl. auto.
  - rewrite (container_events_scalar c Hc) in Hrun.
    apply run_nil in Hrun. subst r'. exact Hres.
Qed.

(** An import that returns has no reservation left: every reference was
    made inside the qpdf object, and the set was emptied when the last
    container inside it closed. *)
Lemma import_leaves_no_reservation
    (is_name : string) (doc : JSON) (must_be_complete : bool) (q : QPDF)
    (r : JSONReactor) :
  JSON_parse doc (new_JSONReactor q is_name must_be_complete)
    = (Return tt, r) ->
  reserved r = ∅.
Proof.
  unfold JSON_parse, parse_events. intros Hrun.
  destruct (isDictionary doc) eqn:Hdict; simpl in Hrun.
  - set (r0 := new_JSONReactor q is_name must_be_complete) in *.
    assert (Hc : isDictionary doc || isArray doc = true)
      by (rewrite Hdict; reflexivity).
    destruct (container_run doc r0 r Hc Hrun) as (r2 & Hloop & Hend).
    apply (children_loop
             (fun r1 => control r1 = (st_top, [st_initial; st_initial]) /\
                        reserved r1 = ∅)) in Hloop.
    + destruct Hloop as (Hctl2 & Hres2).
      apply containerEnd_returns in Hend as (Hstk & _ & _ & Hkeep).
      injection Hctl2 as _ Hstk2. rewrite Hstk2 in Hstk.
      injection Hstk as Hst _.
      rewrite Hkeep, Hres2; [reflexivity |]. rewrite <- Hst. discriminate.
    + intros ic r1 r3 r4 Hin (Hctl1 & Hres1) Hitem Hchild.
      pose proof (deliver_item_control _ _ _ (children_item doc ic Hin) Hitem)
        as Hctl3.
      pose proof (container_events_balanced ic.2 r3 r4 Hchild) as Hctl4.
      split; [congruence |].
      assert (Hst1 : state r1 = st_top) by (injection Hctl1 as ->; reflexivity).
      assert (Hst3 : state r3 = st_top)
        by (injection Hctl3 as -> _; exact Hst1).
      destruct doc as [members s e | | | | |]; try discriminate Hdict.
      simpl in Hin. apply list_elem_of_fmap in Hin as (m & -> & _).
      simpl in *.
      destruct (dictionaryItem_top _ _ _ _ Hst1 Hitem) as [Hres3 [Hn | Hn]].
      * apply (qpdf_object_closes_without_reservation m.2 r3 r4 Hn);
          congruence.
      * destruct (ignored_subtree m.2 r3 r4 Hn (or_introl Hst3) Hchild)
          as [Hres4 _].
        congruence.
    + split; reflexivity.
  - destruct doc as [| elements s e | | | |]; try discriminate Hdict;
      simpl in Hrun; discriminate Hrun.
Qed.
(** ** The keys seen in an object entry *)

Lemma below_refl (r : JSONReactor) : below r r.
Proof. split; [reflexivity | tauto]. Qed.

Lemma below_trans (r1 r2 r3 : JSONReactor) :
  below r1 r2 -> below r2 r3 -> below r1 r3.
Proof. intros [H1 N1] [H2 N2]. split; [congruence | tauto]. Qed.

Lemma stays_bind {A B} (m : M A) (f : A -> M B) (r : JSONReactor) :
  stays m r ->
  (forall a r', m r = (Return a, r') -> stays (f a) r') ->
  stays (bind m f) r.
Proof.
  unfold stays, bind. intros Hm Hf.
  destruct (m r) as [[a | x] r'] eqn:E; simpl in *; [| exact Hm].
  eapply below_trans; [exact Hm |]. apply Hf. reflexivity.
Qed.

Lemma stays_same {A} (m : M A) (r : JSONReactor) : (m r).2 = r -> stays m r.
Proof. unfold stays. intros ->. apply below_refl. Qed.

Lemma stays_kept {A} (m : M A) (r : JSONReactor) :
  entry_keys (m r).2 = entry_keys r ->
  (nested (next_state r) = true -> nested (next_state (m r).2) = true) ->
  stays m r.
Proof. intros Hk Hn. split; assumption. Qed.

Lemma stays_on_pdf {A} (op : QPDF -> A * QPDF) (r : JSONReactor) :
  stays (on_pdf op) r.
Proof.
  unfold stays, on_pdf. destruct (op (pdf r)) as [a q'].
  split; [reflexivity | tauto].
Qed.

Lemma stays_pdf_replaceObject (og : QPDFObjGen) (oh : QPDFObjectHandle)
    (r : JSONReactor) :
  stays (pdf_replaceObject og oh) r.
Proof.
  unfold stays, pdf_replaceObject; unfold_monad.
  destruct (ObjectGraph.replaceObject og oh (pdf r));
    (split; [reflexivity | tauto]).
Qed.

Lemma stays_error (off : Z) (msg : string) (r : JSONReactor) :
  stays (error off msg) r.
Proof. split; [reflexivity | tauto]. Qed.

Lemma stays_for_each {A} (l : list A) (body : A -> M unit)
    (r : JSONReactor) :
  (forall x r', stays (body x) r') -> stays (for_each l body) r.
Proof.
  intros Hbody. revert r.
  induction l as [| x l IH]; intros r; simpl.
  - apply stays_same. reflexivity.
  - apply stays_bind; [apply Hbody |]. intros _ r' _. apply IH.
Qed.

Create HintDb stays_db.

Ltac stays_step :=
  lazymatch goal with
  | |- stays (bind get _) _ =>
      apply stays_bind;
      [ apply stays_same; reflexivity
      | let a := fresh "r" in let r' := fresh "r" in
        intros a r' [= <- <-] ]
  | |- stays (bind _ _) _ => apply stays_bind; [| intros ? ? _]
  | |- stays (ret _) _ => apply stays_same; reflexivity
  | |- stays skip _ => apply stays_same; reflexivity
  | |- stays get _ => apply stays_same; reflexivity
  | |- stays (throw _) _ => apply stays_same; reflexivity
  | |- stays (back ?v) _ => apply stays_same; destruct v; reflexivity
  | |- stays (pop_back ?v) _ => apply stays_same; destruct v; reflexivity
  | |- stays (newObject _) _ => apply stays_on_pdf
  | |- stays (pdf_replaceObject _ _) _ => apply stays_pdf_replaceObject
  | |- stays (error _ _) _ => apply stays_error
  | |- stays (on_pdf _) _ => apply stays_on_pdf
  | |- stays (when ?b _) _ => unfold when; destruct b eqn:?
  | |- stays (if ?b then _ else _) _ => destruct b eqn:?
  | |- stays (match ?x with _ => _ end) _ => destruct x eqn:?
  | |- stays (modify _) _ =>
      apply stays_kept;
      [ reflexivity
      | simpl; let H := fresh in intros H; first [exact H | reflexivity] ]
  | |- stays (update_pdf _) _ =>
      apply stays_kept;
      [ reflexivity
      | simpl; let H := fresh in intros H; first [exact H | reflexivity] ]
  | |- stays _ _ => solve [eauto with stays_db]
  end.

Lemma stays_nestedState (key : string) (value : JSON) (next : state_e)
    (r : JSONReactor) :
  nested next = true -> stays (nestedState key value next) r.
Proof.
  intros Hnext. unfold nestedState.
  destruct (isDictionary value).
  - apply stays_kept; [reflexivity | intros _; exact Hnext].
  - repeat stays_step.
Qed.

Lemma stays_reserveObject (obj gen : string) (r : JSONReactor) :
  stays (reserveObject obj gen) r.
Proof. unfold reserveObject. repeat stays_step. Qed.

Lemma stays_replaceObject (to_replace replacement : QPDFObjectHandle)
    (r : JSONReactor) :
  stays (replaceObject to_replace replacement) r.
Proof. unfold replaceObject. repeat stays_step. Qed.

#[local] Hint Resolve stays_reserveObject stays_replaceObject : stays_db.

Lemma stays_makeObject (value : JSON) (r : JSONReactor) :
  stays (makeObject value) r.
Proof. unfold makeObject. repeat stays_step. Qed.

#[local] Hint Resolve stays_makeObject : stays_db.

(** Within the value of a member of an entry, an item notes nothing of the
    entry. *)
Lemma stays_dictionaryItem (key : string) (value : JSON) (r : JSONReactor) :
  nested (state r) = true -> stays (dictionaryItem key value) r.
Proof.
  intros Hst. unfold dictionaryItem.
  apply stays_bind; [apply stays_same; reflexivity |].
  intros a r' [= <- <-].
  apply stays_bind; [| intros ? ? _; apply stays_same; reflexivity].
  destruct (state r) eqn:Est; try discriminate Hst.
  - repeat first [ apply stays_nestedState; reflexivity | stays_step ].
  - repeat first [ apply stays_nestedState; reflexivity | stays_step ].
  - repeat first [ apply stays_nestedState; reflexivity | stays_step ].
Qed.

Lemma stays_arrayItem (value : JSON) (r : JSONReactor) :
  stays (arrayItem value) r.
Proof. unfold arrayItem. repeat stays_step. Qed.

Lemma stays_closing (st : state_e) (value : JSON) (r : JSONReactor) :
  entry_level st = true -> stays (closing st value) r.
Proof.
  intros Hst. unfold closing.
  destruct st; try discriminate Hst; repeat stays_step.
Qed.

Lemma stays_item (e : event) (r r1 : JSONReactor) :
  is_item e = true -> nested (state r) = true ->
  deliver e r = (Return tt, r1) -> below r r1.
Proof.
  intros He Hst Hrun.
  assert (Hs : stays (deliver e) r).
  { destruct e; try discriminate He; simpl.
    - apply stays_bind; [apply stays_dictionaryItem, Hst |].
      intros ? ? _. apply stays_same. reflexivity.
    - apply stays_bind; [apply stays_arrayItem |].
      intros ? ? _. apply stays_same. reflexivity. }
  unfold stays in Hs. rewrite Hrun in Hs. exact Hs.
Qed.

(** The calls for the value of a member of an entry note nothing of the
    entry. *)
Lemma subtree_below (c : JSON) (r r' : JSONReactor) :
  entry_level (state r) = true -> nested (next_state r) = true ->
  run (container_events c) r = (Return tt, r') ->
  below r r'.
Proof.
  revert r r'. induction c as [c IH] using JSON_children_ind.
  intros r r' Hst Hnext Hrun.
  destruct (isDictionary c || isArray c) eqn:Hc.
  - destruct (container_run c r r' Hc Hrun) as (r2 & Hloop & Hend).
    apply (children_loop
             (fun r0 => control r0
                        = (next_state r, state r :: state_stack r) /\
                        below r r0)) in Hloop.
    + destruct Hloop as [Hctl Hbelow].
      eapply below_trans; [exact Hbelow |].
      rewrite containerEnd_closing in Hend.
      unfold control in Hctl. injection Hctl as _ Hstk. rewrite Hstk in Hend.
      pose proof (stays_closing (state r) c
                    (set_state_stack (state_stack r)
                       (set_state (state r) r2)) Hst) as Hs.
      unfold stays in Hs. rewrite Hend in Hs. exact Hs.
    + intros ic r0 r1 r3 Hin [Hctl Hbelow] Hitem Hchild.
      assert (Hst0 : nested (state r0) = true).
      { unfold control in Hctl. injection Hctl as -> _. exact Hnext. }
      pose proof (stays_item ic.1 r0 r1 (children_item c ic Hin) Hst0 Hitem)
        as H01.
      pose proof (deliver_item_control ic.1 r0 r1 (children_item c ic Hin)
                    Hitem) as Hc01.
      assert (Hst1 : nested (state r1) = true).
      { unfold control in Hc01. injection Hc01 as -> _. exact Hst0. }
      assert (H13 : below r1 r3).
      { apply (IH ic Hin r1 r3); [| | exact Hchild].
        - unfold entry_level. destruct (state r1); try discriminate Hst1;
            reflexivity.
        - apply H01, Hbelow, Hnext. }
      split.
      * rewrite (container_events_balanced ic.2 r1 r3 Hchild), Hc01.
        exact Hctl.
      * eapply below_trans; [exact Hbelow |].
        eapply below_trans; [exact H01 | exact H13].
    + split; [reflexivity |]. split; [reflexivity | tauto].
  - rewrite (container_events_scalar c Hc) in Hrun.
    unfold run in Hrun. simpl in Hrun. injection Hrun as <-.
    apply below_refl.
Qed.

Lemma bind_get_run {B} (k : JSONReactor -> M B) (r : JSONReactor) :
  bind get k r = k r r.
Proof. reflexivity. Qed.

Lemma bind_ret_run {A B} (a : A) (k : A -> M B) (r : JSONReactor) :
  bind (ret a) k r = k a r.
Proof. reflexivity. Qed.

Lemma modify_run {B} (f : JSONReactor -> JSONReactor) (rest : M B)
    (r : JSONReactor) :
  bind (modify f) (fun _ => rest) r = rest (f r).
Proof. reflexivity. Qed.

Lemma bind_modify_run {A B} (f : JSONReactor -> JSONReactor) (rest : M A)
    (k : A -> M B) (r : JSONReactor) :
  bind (bind (modify f) (fun _ => rest)) k r = bind rest k (f r).
Proof. reflexivity. Qed.

Lemma bind_snd {A B} (m : M A) (b : B) (r : JSONReactor) :
  (bind m (fun _ => ret b) r).2 = (m r).2.
Proof. unfold bind, ret. destruct (m r) as [[a | x] r']; reflexivity. Qed.

(** A call that leaves the next container in a nested state, followed by
    calls that note nothing of the entry. *)
Lemma stays_lands_bind {A B} (m : M A) (f : A -> M B) (r : JSONReactor) :
  stays m r -> nested (next_state (m r).2) = true ->
  (forall a r', m r = (Return a, r') -> stays (f a) r') ->
  stays (bind m f) r /\ nested (next_state (bind m f r).2) = true.
Proof.
  intros Hm Hn Hf. split; [apply stays_bind; assumption |].
  unfold bind. destruct (m r) as [[a | x] r'] eqn:E; simpl in *;
    [| exact Hn].
  apply (Hf a r' eq_refl), Hn.
Qed.

Lemma nestedState_lands (key : string) (value : JSON) (next : state_e)
    (r : JSONReactor) :
  nested next = true ->
  nested (next_state (nestedState key value next r).2) = true.
Proof.
  intros Hnext. unfold nestedState; unfold_monad.
  destruct (isDictionary value); [exact Hnext | reflexivity].
Qed.

(** A member of an object entry: the reactor notes the keys value and
    stream, and the value of the member starts in a nested state. *)
Lemma object_top_item (key : string) (value : JSON) (r r1 : JSONReactor)
    (b : bool) :
  state r = st_object_top ->
  dictionaryItem key value r = (Return b, r1) ->
  entry_keys r1
  = (cur_object r, saw_value r || String.eqb key "value",
     saw_stream r || String.eqb key "stream") /\
  nested (next_state r1) = true.
Proof.
  intros Hst Hrun.
  unfold dictionaryItem in Hrun. rewrite bind_get_run in Hrun.
  cbv beta in Hrun. rewrite Hst in Hrun. cbv beta iota in Hrun.
  destruct (object_stack r) as [| tos stk] eqn:Hstk;
    cbn [length Nat.eqb back] in Hrun;
    [unfold bind, throw in Hrun; discriminate Hrun |].
  apply (f_equal snd) in Hrun. cbn [snd] in Hrun.
  rewrite bind_snd, bind_ret_run in Hrun. cbv beta in Hrun.
  destruct (String.eqb key "value") eqn:Hv;
    [| destruct (String.eqb key "stream") eqn:Hs].
  - apply String.eqb_eq in Hv. subst key.
    rewrite !bind_modify_run in Hrun.
    match type of Hrun with
    | (?m ?ra).2 = _ => assert (Hstays : stays m ra) by (repeat stays_step)
    end.
    destruct Hstays as [Hk Hn]. rewrite Hrun in Hk, Hn.
    split; [| apply Hn; reflexivity].
    rewrite Hk. unfold entry_keys. cbn.
    rewrite orb_true_r, orb_false_r. reflexivity.
  - apply String.eqb_eq in Hs. subst key.
    rewrite bind_modify_run in Hrun.
    match type of Hrun with
    | (bind (bind ?m ?f) ?k ?ra).2 = _ =>
        destruct (stays_lands_bind (bind m f) k ra) as [Hstays Hn]
    end.
    + repeat first [ apply stays_nestedState; reflexivity | stays_step ].
    + match goal with
      | |- nested (next_state (bind ?m ?f ?ra).2) = true =>
          apply (stays_lands_bind m f ra)
      end.
      * apply stays_nestedState. reflexivity.
      * apply nestedState_lands. reflexivity.
      * intros ? ? _. repeat stays_step.
    + intros ? ? _. repeat stays_step.
    + destruct Hstays as [Hk _]. rewrite Hrun in Hk, Hn.
      split; [| exact Hn].
      rewrite Hk. unfold entry_keys. cbn.
      rewrite orb_true_r, orb_false_r. reflexivity.
  - rewrite bind_modify_run in Hrun.
    match type of Hrun with
    | (?m ?ra).2 = _ => assert (Hstays : stays m ra) by (repeat stays_step)
    end.
    destruct Hstays as [Hk Hn]. rewrite Hrun in Hk, Hn.
    split; [| apply Hn; reflexivity].
    rewrite Hk. unfold entry_keys. cbn.
    rewrite !orb_false_r. reflexivity.
Qed.

(** A member of the trailer entry. *)
Lemma trailer_item (key : string) (value : JSON) (r r1 : JSONReactor)
    (b : bool) :
  state r = st_trailer ->
  dictionaryItem key value r = (Return b, r1) ->
  entry_keys r1
  = (cur_object r, saw_value r || String.eqb key "value", saw_stream r) /\
  nested (next_state r1) = true.
Proof.
  intros Hst Hrun.
  unfold dictionaryItem in Hrun. rewrite bind_get_run in Hrun.
  cbv beta in Hrun. rewrite Hst in Hrun. cbv beta iota in Hrun.
  apply (f_equal snd) in Hrun. cbn [snd] in Hrun.
  rewrite bind_snd in Hrun.
  destruct (String.eqb key "value") eqn:Hv;
    [| destruct (String.eqb key "stream") eqn:Hs].
  - rewrite modify_run in Hrun.
    match type of Hrun with
    | (bind ?m ?f ?ra).2 = _ =>
        destruct (stays_lands_bind m f ra) as [Hstays Hn]
    end.
    + apply stays_nestedState. reflexivity.
    + apply nestedState_lands. reflexivity.
    + intros ? ? _. repeat stays_step.
    + destruct Hstays as [Hk _]. rewrite Hrun in Hk, Hn.
      split; [| exact Hn].
      rewrite Hk. unfold entry_keys. cbn.
      rewrite orb_true_r. reflexivity.
  - subst r1. unfold error; unfold_monad. cbn.
    rewrite orb_false_r. split; reflexivity.
  - subst r1. unfold_monad. cbn.
    rewrite orb_false_r. split; reflexivity.
Qed.

(** The members of an entry, one after the other: when their calls have
    returned, the reactor has seen value if one of the keys is value, and
    stream if one of them is stream. *)
Lemma members_seen (top : bool) (members : list (string * JSON)) :
  forall r r',
    state r = (if top then st_object_top else st_trailer) ->
    run (member_events members) r = (Return tt, r') ->
    control r' = control r /\ cur_object r' = cur_object r /\
    saw_value r' = saw_value r || has_key "value" members /\
    (top = true -> saw_stream r' = saw_stream r || has_key "stream" members).
Proof.
  induction members as [| m members IH]; intros r r' Hst Hrun.
  - unfold run in Hrun. simpl in Hrun. injection Hrun as <-.
    simpl. rewrite !orb_false_r. repeat split; reflexivity.
  - unfold member_events in Hrun. simpl in Hrun.
    fold (member_events members) in Hrun.
    rewrite run_cons in Hrun.
    destruct (deliver (ev_dictionaryItem m.1 m.2) r) as [[[] | x] r1]
      eqn:Hitem; [| discriminate].
    rewrite run_app in Hrun.
    destruct (run (container_events m.2) r1) as [[[] | x] r2] eqn:Hchild;
      [| discriminate].
    pose proof (deliver_item_control (ev_dictionaryItem m.1 m.2) r r1
                  eq_refl Hitem) as Hc1.
    pose proof (container_events_balanced _ r1 r2 Hchild) as Hc2.
    assert (Hst1 : state r1 = state r)
      by (unfold control in Hc1; congruence).
    assert (Hst2 : state r2 = state r)
      by (unfold control in Hc2; congruence).
    assert (Hdi : exists b, dictionaryItem m.1 m.2 r = (Return b, r1)).
    { simpl in Hitem. unfold bind in Hitem.
      destruct (dictionaryItem m.1 m.2 r) as [[b | x] r0]; [| discriminate].
      injection Hitem as <-. exists b. reflexivity. }
    destruct Hdi as [b Hdi].
    assert (Hkeys : cur_object r1 = cur_object r /\
                    saw_value r1 = saw_value r || String.eqb m.1 "value" /\
                    (top = true ->
                     saw_stream r1
                     = saw_stream r || String.eqb m.1 "stream") /\
                    nested (next_state r1) = true).
    { destruct top.
      - destruct (object_top_item m.1 m.2 r r1 b Hst Hdi) as [Hk Hn].
        unfold entry_keys in Hk. injection Hk as Hk1 Hk2 Hk3.
        repeat split; try assumption. intros _. assumption.
      - destruct (trailer_item m.1 m.2 r r1 b Hst Hdi) as [Hk Hn].
        unfold entry_keys in Hk. injection Hk as Hk1 Hk2 Hk3.
        repeat split; try assumption. discriminate. }
    destruct Hkeys as (Hcur1 & Hv1 & Hs1 & Hn1).
    assert (Hbelow : below r1 r2).
    { apply (subtree_below m.2 r1 r2); [| exact Hn1 | exact Hchild].
      rewrite Hst1, Hst. destruct top; reflexivity. }
    destruct Hbelow as [Hk12 _]. unfold entry_keys in Hk12.
    injection Hk12 as Hcur2 Hv2 Hs2.
    destruct (IH r2 r' (eq_trans Hst2 Hst) Hrun)
      as (Hc & Hcur & Hv & Hs).
    split; [congruence |]. split; [congruence |]. split.
    + rewrite Hv, Hv2, Hv1. simpl. rewrite orb_assoc. reflexivity.
    + intros Htop. rewrite (Hs Htop), Hs2, (Hs1 Htop). simpl.
      rewrite orb_assoc. reflexivity.
Qed.

Lemma reserveObject_entry (obj gen : string) :
  keeps (fun r => (control r, entry_keys r, next_state r, parse_error r))
    (reserveObject obj gen).
Proof. unfold reserveObject. repeat keeps_step. Qed.

(** The key of an entry of the objects dictionary whose value is a
    dictionary: unless it sets [parse_error], the reactor notes the key, and
    the entry starts in the state of the trailer or of an object. *)
Lemma entry_key_item (key : string) (members : list (string * JSON))
    (s e : Z) (r r1 : JSONReactor) (b : bool) :
  state r = st_objects ->
  dictionaryItem key (JSON_dictionary members s e) r = (Return b, r1) ->
  parse_error r1 = false ->
  control r1 = control r /\
  saw_value r1 = saw_value r /\ saw_stream r1 = saw_stream r /\
  cur_object r1 = (if String.eqb key "trailer" then "trailer" else key) /\
  next_state r1
  = (if String.eqb key "trailer" then st_trailer else st_object_top).
Proof.
  intros Hst Hrun Hpe.
  unfold dictionaryItem, nestedState in Hrun; unfold_monad.
  rewrite Hst in Hrun. cbn [isDictionary] in Hrun.
  destruct (String.eqb key "trailer").
  - injection Hrun as <- <-. repeat split; reflexivity.
  - destruct (Regex.OBJ_KEY_RE key) as [[m1 m2] |].
    + pose proof (reserveObject_entry m1 m2 r) as Hkeep.
      destruct (reserveObject m1 m2 r) as [[oh | x] ra]; [| discriminate].
      injection Hrun as <- <-. cbn [snd] in Hkeep.
      injection Hkeep as Hc Hstk Hcur Hv Hs Hn Hp.
      unfold control. cbn. rewrite Hc, Hstk.
      repeat split; try assumption; reflexivity.
    + injection Hrun as <- <-. discriminate Hpe.
Qed.

(** The calls for a dictionary are its start, the calls for its members
    and its end. *)
Lemma dictionary_events (members : list (string * JSON)) (s e : Z) :
  container_events (JSON_dictionary members s e)
  = (ev_dictionaryStart :: member_events members
     ++ [ev_containerEnd (JSON_dictionary members s e)])%list.
Proof. reflexivity. Qed.

(** C1, amended: an entry of the objects dictionary whose value is a
    dictionary, opened while the flags for value and stream are clear.
    When the call for its key and the calls for its members have returned
    and [parse_error] is not set, the call that closes the entry returns
    and records, for a key other than "trailer", exactly one error if both
    or neither of the keys "value" and "stream" are among its members, and
    none if exactly one of them is; for the key "trailer", exactly one
    error if "value" is not among its members, and none if it is.  The
    reactor is then back in the objects dictionary with both flags
    clear. *)
Theorem containerEnd_object_entry_check
    (key : string) (members : list (string * JSON)) (s e : Z)
    (r r_c : JSONReactor) :
  let entry := JSON_dictionary members s e in
  state r = st_objects ->
  saw_value r = false -> saw_stream r = false ->
  run (ev_dictionaryItem key entry :: ev_dictionaryStart
       :: member_events members) r
    = (Return tt, r_c) ->
  parse_error r_c = false ->
  exists r',
    containerEnd entry r_c = (Return tt, r') /\
    warnings (pdf r') =
      (warnings (pdf r_c) ++
       if String.eqb key "trailer" then
         if has_key "value" members then []
         else [mkQPDFExc qpdf_e_json "trailer" s msg_trailer_no_value]
       else
         if Bool.eqb (has_key "value" members) (has_key "stream" members)
         then [mkQPDFExc qpdf_e_json key s msg_value_stream]
         else [])%list /\
    state r' = st_objects /\
    saw_value r' = false /\ saw_stream r' = false.
Proof.
  intros entry Hst Hv Hs Hrun Hpe.
  rewrite run_cons in Hrun.
  destruct (deliver (ev_dictionaryItem key entry) r) as [[[] | x] r1]
    eqn:Hitem; [| discriminate].
  assert (Hpe1 : parse_error r1 = false).
  { pose proof (pres_run (ev_dictionaryStart :: member_events members) r1)
      as Hev.
    unfold pres in Hev. rewrite Hrun in Hev.
    destruct (parse_error r1) eqn:E; [| reflexivity].
    simpl in Hev. rewrite (ev_parse_error _ _ Hev E) in Hpe.
    discriminate Hpe. }
  assert (Hdi : exists b, dictionaryItem key entry r = (Return b, r1)).
  { simpl in Hitem. unfold bind in Hitem.
    destruct (dictionaryItem key entry r) as [[b | x] r0]; [| discriminate].
    injection Hitem as <-. exists b. reflexivity. }
  destruct Hdi as [b Hdi].
  destruct (entry_key_item key members s e r r1 b Hst Hdi Hpe1)
    as (Hc1 & Hv1 & Hs1 & Hcur1 & Hn1).
  rewrite run_cons in Hrun.
  destruct (deliver ev_dictionaryStart r1) as [[[] | x] r2] eqn:Hstart;
    [| discriminate].
  apply (deliver_start entry) in Hstart.
  assert (Hst2 : state r2
                 = if negb (String.eqb key "trailer")
                   then st_object_top else st_trailer).
  { subst r2. cbn. rewrite Hn1. destruct (String.eqb key "trailer");
      reflexivity. }
  destruct (members_seen (negb (String.eqb key "trailer")) members r2 r_c
              Hst2 Hrun) as (Hc & Hcur & Hvc & Hsc).
  assert (Hstk : state_stack r_c = st_objects :: state_stack r).
  { unfold control in Hc, Hc1. injection Hc as _ ->. subst r2. cbn.
    injection Hc1 as -> ->. rewrite Hst. reflexivity. }
  destruct (containerEnd_objects_flags entry r_c (state_stack r) Hstk Hpe)
    as (r' & Hend & Hw & Hst' & _ & Hv' & Hs').
  exists r'. split; [exact Hend |]. split; [| repeat split; assumption].
  rewrite Hw. f_equal.
  assert (Hcur_c : cur_object r_c
                   = if String.eqb key "trailer" then "trailer" else key).
  { rewrite Hcur. subst r2. cbn. exact Hcur1. }
  assert (Hv_c : saw_value r_c = has_key "value" members).
  { rewrite Hvc. subst r2. cbn. rewrite Hv1, Hv. reflexivity. }
  unfold json_error. cbn [getStart entry].
  destruct (String.eqb key "trailer") eqn:Hk.
  - rewrite Hcur_c. cbn [String.eqb Ascii.eqb Bool.eqb].
    rewrite Hv_c. reflexivity.
  - assert (Hs_c : saw_stream r_c = has_key "stream" members).
    { rewrite (Hsc eq_refl). subst r2. cbn. rewrite Hs1, Hs. reflexivity. }
    rewrite Hcur_c, Hk, Hv_c, Hs_c. reflexivity.
Qed.

Lemma containerEnd_object_entry_check_witness :
  let r := Samples.after true Samples.open_objects in
  let members :=
    [("value", JSON_number "1" 50 51); ("stream", Samples.D 62 64)] in
  let entry := JSON_dictionary members 40 66 in
  let r_c :=
    (run (ev_dictionaryItem "obj:1 0 R" entry :: ev_dictionaryStart
          :: member_events members) r).2 in
  exists r',
    containerEnd entry r_c = (Return tt, r') /\
    warnings (pdf r') =
      (warnings (pdf r_c)
       ++ [mkQPDFExc qpdf_e_json "obj:1 0 R" 40 msg_value_stream])%list /\
    state r' = st_objects /\
    saw_value r' = false /\ saw_stream r' = false.
Proof.
  intros r members entry r_c.
  apply (containerEnd_object_entry_check "obj:1 0 R" members 40 66 r r_c).
  - vm_compute. reflexivity.
  - vm_compute. reflexivity.
  - vm_compute. reflexivity.
  - vm_compute. reflexivity.
  - vm_compute. reflexivity.
Defined.

(** The flags must be clear when the entry opens.  In the document below a
    key "value" is read in the state of the trailer outside any entry, and
    the flag for value is still set when the entry of object 1 opens: that
    entry has no member, [parse_error] is not set, and closing it records
    nothing. *)
Lemma object_entry_after_stray_value :
  let evs := parse_events Samples.doc_stray_value in
  let r := Samples.after true (take 20 evs) in
  let r_c := Samples.after true (take 22 evs) in
  drop 20 evs
  = [ev_dictionaryItem "obj:1 0 R" (Samples.D 101 103); ev_dictionaryStart;
     ev_containerEnd (Samples.D 101 103);
     ev_containerEnd
       (JSON_dictionary [("obj:1 0 R", Samples.D 101 103)] 88 104);
     ev_containerEnd
       (JSON_dictionary
          [("pdfversion",
            JSON_dictionary
              [("objects",
                JSON_dictionary [("trailer", Samples.D 47 49)] 36 50);
               ("pdfversion",
                JSON_dictionary [("value", Samples.D 73 75)] 64 76)]
              25 77);
           ("objects",
            JSON_dictionary [("obj:1 0 R", Samples.D 101 103)] 88 104)]
          11 105);
     ev_containerEnd Samples.doc_stray_value] /\
  state r = st_objects /\ saw_value r = true /\ saw_stream r = false /\
  (run (take 22 evs) (Samples.fresh true)).1 = Return tt /\
  parse_error r_c = false /\
  exists r',
    containerEnd (Samples.D 101 103) r_c = (Return tt, r') /\
    warnings (pdf r') = warnings (pdf r_c).
Proof.
  intros evs r r_c. subst evs r r_c.
  split; [vm_compute; reflexivity |].
  split; [vm_compute; reflexivity |].
  split; [vm_compute; reflexivity |].
  split; [vm_compute; reflexivity |].
  split; [vm_compute; reflexivity |].
  split; [vm_compute; reflexivity |].
  eexists. split; vm_compute; reflexivity.
Qed.

(** *** What the writer selects *)





Section WriterFacts.

Variable getJSON : QPDF -> QPDFObjectHandle -> Z -> JSON.
Variable getStreamJSON :
  QPDF -> QPDFObjectHandle -> Z -> qpdf_json_stream_data_e ->
  qpdf_stream_decode_level_e -> bool -> string -> JSON * string.
Variable unparse_direct : QPDF -> QPDFObjectHandle -> string.

Lemma writeJSONObject_pipeline (q : QPDF) (version : Z) (p : output)
    (first : bool) (key : string) (obj : QPDFObjectHandle) :
  exists j,
    pipeline (writeJSONObject getJSON q version p first key obj).1
    = (pipeline p ++ [w_dictionary_item first key j 2])%list.
Proof. eexists. reflexivity. Qed.




End WriterFacts.






(** ** Further properties of the reactor *)

(** *** Unknown keys *)

Lemma set_reserved_same (r : JSONReactor) :
  reserved r = ∅ -> set_reserved ∅ r = r.
Proof. destruct r; simpl; intros ->; reflexivity. Qed.

Lemma restore_control (r : JSONReactor) (st : state_e) :
  set_state_stack (state_stack r)
    (set_state (state r)
       (set_state st (set_state_stack (state r :: state_stack r) r)))
  = r.
Proof. destruct r; reflexivity. Qed.

(** Where an ignored member may sit for its calls to leave no trace: at the
    top, in the trailer entry, inside another ignored member, or in the qpdf
    dictionary while nothing is reserved. *)
Lemma closing_ignorable (value : JSON) (r : JSONReactor) :
  ignorable r -> closing (state r) value r = (Return tt, r).
Proof.
  unfold ignorable. intros [Hst | [Hst | [Hst | [Hst Hres]]]]; rewrite Hst;
    try reflexivity.
  unfold closing. unfold bind at 1, get at 1.
  rewrite Hres, elements_empty.
  change (for_each [] ?b) with skip.
  unfold bind, skip, ret, modify.
  rewrite set_reserved_same by exact Hres. reflexivity.
Qed.

Lemma ignored_children (l : list (event * JSON)) (r : JSONReactor) :
  state r = st_ignore ->
  (forall ic, ic ∈ l ->
     is_item ic.1 = true /\ run (container_events ic.2) r = (Return tt, r)) ->
  run (flat_map (fun ic => ic.1 :: container_events ic.2) l) r
    = (Return tt, r).
Proof.
  intros Hst. induction l as [| ic l IH]; intros Hl; [reflexivity |].
  destruct (Hl ic) as [Hitem Hchild]; [left |].
  simpl. rewrite run_cons.
  assert (Hdel : deliver ic.1 r = (Return tt, r)).
  { destruct (ic.1); try discriminate; simpl;
      unfold dictionaryItem, arrayItem; unfold_monad; rewrite Hst;
      reflexivity. }
  rewrite Hdel, run_app, Hchild. apply IH.
  intros ic' Hin. apply Hl. right. exact Hin.
Qed.

Lemma ignored_subtree_unchanged (c : JSON) (r : JSONReactor) :
  next_state r = st_ignore -> ignorable r ->
  run (container_events c) r = (Return tt, r).
Proof.
  revert r. induction c as [c IH] using JSON_children_ind.
  intros r Hnext Hign.
  destruct (isDictionary c || isArray c) eqn:Hc;
    [| rewrite (container_events_scalar c Hc); reflexivity].
  rewrite (container_events_shape c Hc), run_cons.
  set (r1 := set_state st_ignore
               (set_state_stack (state r :: state_stack r) r)).
  assert (Hstart :
    deliver (if isDictionary c then ev_dictionaryStart else ev_arrayStart) r
    = (Return tt, r1)).
  { subst r1. clear IH Hign. destruct_reactor r. simpl in Hnext. subst nst.
    destruct (isDictionary c); reflexivity. }
  rewrite Hstart, run_app.
  rewrite (ignored_children (children c) r1); [| reflexivity |].
  - rewrite run_cons. simpl. rewrite containerEnd_closing. simpl.
    subst r1. rewrite restore_control.
    rewrite (closing_ignorable c r Hign). reflexivity.
  - intros ic Hin. split; [exact (children_item c ic Hin) |].
    apply (IH ic Hin); [exact Hnext |].
    right. right. left. reflexivity.
Qed.

(** A container entered while the next state is [st_ignore]: nothing in it
    is looked at, and closing it does the checks of the state it returns
    to. *)
Lemma ignored_container (c : JSON) (r : JSONReactor) :
  next_state r = st_ignore ->
  isDictionary c || isArray c = true ->
  run (container_events c) r = closing (state r) c r.
Proof.
  intros Hnext Hc.
  rewrite (container_events_shape c Hc), run_cons.
  set (r1 := set_state st_ignore
               (set_state_stack (state r :: state_stack r) r)).
  assert (Hstart :
    deliver (if isDictionary c then ev_dictionaryStart else ev_arrayStart) r
    = (Return tt, r1)).
  { subst r1. destruct_reactor r. simpl in Hnext. subst nst.
    destruct (isDictionary c); reflexivity. }
  rewrite Hstart, run_app.
  rewrite (ignored_children (children c) r1); [| reflexivity |].
  - rewrite run_cons. simpl. rewrite containerEnd_closing. simpl.
    subst r1. rewrite restore_control.
    destruct (closing (state r) c r) as [[[] | x] r2]; reflexivity.
  - intros ic Hin. split; [exact (children_item c ic Hin) |].
    apply ignored_subtree_unchanged; [exact Hnext |].
    right. right. left. reflexivity.
Qed.

(** A member under an unknown key, with all that it holds. *)
Lemma unknown_member_run (key : string) (value : JSON)
    (r : JSONReactor) :
  unknown_key r key = true ->
  (state r = st_qpdf -> reserved r = ∅) ->
  run (ev_dictionaryItem key value :: container_events value) r
    = (Return tt, set_next_state st_ignore r).
Proof.
  intros Hkey Hres. rewrite run_cons.
  assert (Hitem : deliver (ev_dictionaryItem key value) r
                  = (Return tt, set_next_state st_ignore r)).
  { unfold unknown_key in Hkey. simpl.
    unfold dictionaryItem; unfold_monad.
    destruct (state r); try discriminate Hkey;
      repeat match goal with
             | H : context [String.eqb key ?s] |- _ =>
                 destruct (String.eqb key s); try discriminate H
             end; reflexivity. }
  rewrite Hitem. apply ignored_subtree_unchanged; [reflexivity |].
  unfold ignorable, unknown_key in *. simpl.
  destruct (state r); try discriminate Hkey; auto.
  right. right. right. split; [reflexivity | apply Hres; reflexivity].
Qed.

(** X1: a member under a key the reactor does not know at the top, in the
    qpdf dictionary (while nothing is reserved) or in the trailer entry is
    skipped as a whole, whatever its value holds: all its calls return, and
    the only change to the reactor is that [next_state] is [st_ignore].
    Nothing is recorded and the document is not touched. *)
Theorem unknown_member_skipped (key : string) (value : JSON)
    (r : JSONReactor) :
  unknown_key r key = true ->
  (state r = st_qpdf -> reserved r = ∅) ->
  run (ev_dictionaryItem key value :: container_events value) r
    = (Return tt, set_next_state st_ignore r).
Proof. apply unknown_member_run. Qed.

Lemma unknown_member_skipped_witness :
  run (ev_dictionaryItem "maxobjectid" (JSON_array [JSON_number "7" 30 31] 29 32)
       :: container_events (JSON_array [JSON_number "7" 30 31] 29 32))
    Samples.in_qpdf
  = (Return tt, set_next_state st_ignore Samples.in_qpdf).
Proof.
  apply (unknown_member_skipped "maxobjectid"
           (JSON_array [JSON_number "7" 30 31] 29 32) Samples.in_qpdf).
  - vm_compute. reflexivity.
  - intros _. vm_compute. reflexivity.
Defined.

(** X2: in a stream, a member under an unknown key whose value is a
    dictionary or an array is skipped, but closing it pops the object stack:
    the stream is no longer on it.  When the stream was alone on the stack,
    the next key of the stream throws the logic error "no object on stack in
    st_stream". *)
Theorem unknown_container_in_stream_pops_stream
    (key : string) (value : JSON) (r : JSONReactor) (tos : QPDFObjectHandle)
    (stk : list QPDFObjectHandle) :
  state r = st_stream ->
  object_stack r = tos :: stk ->
  ObjectGraph.isStream (pdf r) tos = true ->
  parse_error r = false ->
  unknown_stream_key key = true ->
  isDictionary value || isArray value = true ->
  let r' := set_object_stack stk (set_next_state st_ignore r) in
  run (ev_dictionaryItem key value :: container_events value) r
    = (Return tt, r') /\
  (stk = [] ->
   forall key2 value2,
     dictionaryItem key2 value2 r'
     = (Raise (logic_error "no object on stack in st_stream"), r')).
Proof.
  intros Hst Hstack Hstream Hpe Hkey Hc r'. split.
  - rewrite run_cons.
    assert (Hitem : deliver (ev_dictionaryItem key value) r
                    = (Return tt, set_next_state st_ignore r)).
    { unfold unknown_stream_key in Hkey. simpl.
      unfold dictionaryItem; unfold_monad.
      rewrite Hst, Hstack. simpl. rewrite Hstream. simpl.
      destruct (String.eqb key "dict"); [discriminate Hkey |].
      destruct (String.eqb key "data"); [discriminate Hkey |].
      destruct (String.eqb key "datafile"); [discriminate Hkey |].
      reflexivity. }
    rewrite Hitem.
    rewrite (ignored_container value (set_next_state st_ignore r) eq_refl Hc).
    subst r'. simpl. rewrite Hst.
    unfold closing; unfold_monad. simpl. rewrite Hpe, Hstack. reflexivity.
  - intros -> key2 value2. subst r'.
    unfold dictionaryItem; unfold_monad. simpl. rewrite Hst. reflexivity.
Qed.

Lemma unknown_container_in_stream_pops_stream_witness :
  let r := Samples.in_stream in
  let r' := set_object_stack [] (set_next_state st_ignore r) in
  run (ev_dictionaryItem "note" (Samples.D 60 62)
       :: container_events (Samples.D 60 62)) r
    = (Return tt, r') /\
  (@nil QPDFObjectHandle = [] ->
   forall key2 value2,
     dictionaryItem key2 value2 r'
     = (Raise (logic_error "no object on stack in st_stream"), r')).
Proof.
  apply (unknown_container_in_stream_pops_stream "note" (Samples.D 60 62)
           Samples.in_stream (h_direct 4%nat) []).
  - vm_compute. reflexivity.
  - vm_compute. reflexivity.
  - vm_compute. reflexivity.
  - vm_compute. reflexivity.
  - vm_compute. reflexivity.
  - reflexivity.
Defined.

(** At the top, members that are not the qpdf-v2 member leave the reactor as
    it was, but for [next_state]. *)
Lemma top_members_without_qpdf (members : list (string * JSON))
    (r : JSONReactor) :
  state r = st_top ->
  Forall (fun m => m.1 <> "qpdf-v2") members ->
  run (flat_map (fun m => ev_dictionaryItem m.1 m.2 :: container_events m.2)
         members) r
  = (Return tt,
     match members with [] => r | _ => set_next_state st_ignore r end).
Proof.
  intros Hst Hall. revert r Hst.
  induction Hall as [| m members Hm Hall IH]; intros r Hst; [reflexivity |].
  simpl flat_map. rewrite app_comm_cons, run_app.
  rewrite unknown_member_run.
  - rewrite IH by exact Hst. destruct members; reflexivity.
  - unfold unknown_key. rewrite Hst.
    apply String.eqb_neq in Hm. rewrite Hm. reflexivity.
  - rewrite Hst. discriminate.
Qed.

(** X3: a document whose root dictionary has no qpdf-v2 member is read to
    its end and then refused: the import throws "errors found in JSON", and
    all it did to the document is to record one error, at offset 0, that
    the qpdf object was not seen.  This holds in both modes and whatever
    the other members hold. *)
Theorem importJSON_without_qpdf_member
    (is_name : string) (members : list (string * JSON)) (start end_ : Z)
    (must_be_complete : bool) (q : QPDF) :
  Forall (fun m => m.1 <> "qpdf-v2") members ->
  importJSON is_name (JSON_dictionary members start end_) must_be_complete q
  = (Raise (runtime_error (is_name ++ ": errors found in JSON")),
     ObjectGraph.warn (mkQPDFExc qpdf_e_json EmptyString 0 msg_missing_qpdf)
       q).
Proof.
  intros Hall. unfold importJSON, JSON_parse, parse_events.
  simpl isDictionary. simpl orb. cbv iota.
  simpl container_events. rewrite run_cons. simpl deliver.
  set (r1 := (dictionaryStart
                (new_JSONReactor q is_name must_be_complete)).2).
  change (dictionaryStart (new_JSONReactor q is_name must_be_complete))
    with (@Return unit tt, r1).
  cbv iota. rewrite run_app.
  rewrite (top_members_without_qpdf members r1 eq_refl Hall).
  destruct members; reflexivity.
Qed.

Lemma importJSON_without_qpdf_member_witness :
  importJSON "in.json"
    (JSON_dictionary
       [("version", JSON_number "2" 12 13);
        ("parameters", JSON_dictionary [("x", JSON_array [] 33 35)] 28 36)]
       0 37)
    true JSON_PDF
  = (Raise (runtime_error ("in.json" ++ ": errors found in JSON")),
     ObjectGraph.warn (mkQPDFExc qpdf_e_json EmptyString 0 msg_missing_qpdf)
       JSON_PDF).
Proof.
  apply (importJSON_without_qpdf_member "in.json"
           [("version", JSON_number "2" 12 13);
            ("parameters",
             JSON_dictionary [("x", JSON_array [] 33 35)] 28 36)]
           0 37 true JSON_PDF).
  repeat constructor; discriminate.
Defined.

(** *** The patterns *)

Lemma append_cons (c : ascii) (a b : string) :
  String c a ++ b = String c (a ++ b).
Proof. reflexivity. Qed.

Lemma append_empty_r (s : string) : s ++ EmptyString = s.
Proof.
  induction s as [| c s IH]; [reflexivity |].
  rewrite append_cons, IH. reflexivity.
Qed.

Lemma span_digits_sound (s a b : string) :
  Text.span_digits s = (a, b) ->
  s = a ++ b /\ Text.all_digits a = true /\
  match b with
  | String c _ => Text.is_digit c = false
  | EmptyString => True
  end.
Proof.
  revert a b. induction s as [| c s IH]; intros a b; simpl.
  - intros [= <- <-]. auto.
  - destruct (Text.is_digit c) eqn:Hc.
    + destruct (Text.span_digits s) as [ds tl].
      intros [= <- <-]. destruct (IH ds tl eq_refl) as (-> & Hds & Htl).
      simpl. rewrite Hc, Hds. auto.
    + intros [= <- <-]. simpl. auto.
Qed.

Lemma span_digits_complete (a b : string) :
  Text.all_digits a = true ->
  match b with
  | String c _ => Text.is_digit c = false
  | EmptyString => True
  end ->
  Text.span_digits (a ++ b) = (a, b).
Proof.
  intros Ha Hb. induction a as [| c a IH]; simpl in *.
  - destruct b as [| c b]; [reflexivity |]. simpl. rewrite Hb. reflexivity.
  - apply andb_prop in Ha as [Hc Ha]. rewrite Hc, (IH Ha). reflexivity.
Qed.

Lemma digits1_sound (s a b : string) :
  Text.digits1 s = Some (a, b) ->
  s = a ++ b /\ is_number a = true /\
  match b with
  | String c _ => Text.is_digit c = false
  | EmptyString => True
  end.
Proof.
  unfold Text.digits1.
  destruct (Text.span_digits s) as [ds tl] eqn:Hspan.
  destruct ds as [| c ds]; [discriminate |].
  intros [= <- <-].
  destruct (span_digits_sound _ _ _ Hspan) as (Hs & Hds & Htl).
  unfold is_number. simpl String.eqb. auto.
Qed.

Lemma digits1_complete (a b : string) :
  is_number a = true ->
  match b with
  | String c _ => Text.is_digit c = false
  | EmptyString => True
  end ->
  Text.digits1 (a ++ b) = Some (a, b).
Proof.
  unfold is_number. intros Ha Hb. apply andb_prop in Ha as [Hne Ha].
  unfold Text.digits1. rewrite (span_digits_complete a b Ha Hb).
  destruct a; [discriminate Hne | reflexivity].
Qed.

Lemma strip_prefix_sound (p s t : string) :
  Text.strip_prefix p s = Some t -> s = p ++ t.
Proof.
  revert s. induction p as [| a p IH]; intros s; simpl.
  - intros [= ->]. reflexivity.
  - destruct s as [| b s]; [discriminate |].
    destruct (Ascii.eqb a b) eqn:Hab; [| discriminate].
    apply Ascii.eqb_eq in Hab as ->. intros H. rewrite (IH s H). reflexivity.
Qed.

Lemma strip_prefix_complete (p t : string) :
  Text.strip_prefix p (p ++ t) = Some t.
Proof.
  induction p as [| a p IH]; simpl; [reflexivity |].
  rewrite Ascii.eqb_refl. exact IH.
Qed.

(** X4: [PDF_VERSION_RE] accepts exactly the strings made of one or more
    digits, a dot, and one or more digits. *)
Theorem PDF_VERSION_RE_matches (s : string) :
  Regex.PDF_VERSION_RE s = true <->
  exists major minor,
    is_number major = true /\ is_number minor = true /\
    s = major ++ "." ++ minor.
Proof.
  unfold Regex.PDF_VERSION_RE. split.
  - destruct (Text.digits1 s) as [[a tl] |] eqn:H1; [| discriminate].
    destruct tl as [| c tl]; [discriminate |].
    destruct c as [[] [] [] [] [] [] [] []]; try discriminate.
    destruct (Text.digits1 tl) as [[b tl2] |] eqn:H2; [| discriminate].
    destruct tl2; [| discriminate]. intros _.
    destruct (digits1_sound _ _ _ H1) as (-> & Ha & _).
    destruct (digits1_sound _ _ _ H2) as (-> & Hb & _).
    exists a, b. rewrite append_empty_r. auto.
  - intros (a & b & Ha & Hb & ->).
    change ("." ++ b) with (String "." b).
    rewrite (digits1_complete a (String "." b) Ha eq_refl).
    pose proof (digits1_complete b EmptyString Hb I) as Hminor.
    rewrite append_empty_r in Hminor. rewrite Hminor. reflexivity.
Qed.

(** X5: [INDIRECT_OBJ_RE] accepts exactly "id gen R" with id and gen made
    of one or more digits, and captures them; [OBJ_KEY_RE] accepts exactly
    the same text after "obj:", with the same captures. *)
Theorem OBJ_KEY_RE_matches (s id gen : string) :
  (Regex.INDIRECT_OBJ_RE s = Some (id, gen) <->
   is_number id = true /\ is_number gen = true /\
   s = id ++ " " ++ gen ++ " R") /\
  (Regex.OBJ_KEY_RE s = Some (id, gen) <->
   is_number id = true /\ is_number gen = true /\
   s = "obj:" ++ id ++ " " ++ gen ++ " R").
Proof.
  assert (Hind : forall s,
    Regex.INDIRECT_OBJ_RE s = Some (id, gen) <->
    is_number id = true /\ is_number gen = true /\
    s = id ++ " " ++ gen ++ " R").
  { clear s. intros s. unfold Regex.INDIRECT_OBJ_RE. split.
    - destruct (Text.digits1 s) as [[a tl] |] eqn:H1; [| discriminate].
      destruct tl as [| c tl]; [discriminate |].
      destruct c as [[] [] [] [] [] [] [] []]; try discriminate.
      destruct (Text.digits1 tl) as [[b tl2] |] eqn:H2; [| discriminate].
      destruct tl2 as [| c1 tl2]; [discriminate |].
      destruct c1 as [[] [] [] [] [] [] [] []]; try discriminate.
      destruct tl2 as [| c2 tl2]; [discriminate |].
      destruct c2 as [[] [] [] [] [] [] [] []]; try discriminate.
      destruct tl2; [| discriminate]. intros [= <- <-].
      destruct (digits1_sound _ _ _ H1) as (-> & Ha & _).
      destruct (digits1_sound _ _ _ H2) as (-> & Hb & _). auto.
    - intros (Ha & Hb & ->).
      change (" " ++ gen ++ " R") with (String " " (gen ++ " R")).
      rewrite (digits1_complete id (String " " (gen ++ " R")) Ha eq_refl).
      rewrite (digits1_complete gen " R" Hb eq_refl). reflexivity. }
  split; [apply Hind |].
  unfold Regex.OBJ_KEY_RE. split.
  - destruct (Text.strip_prefix "obj:" s) as [tl |] eqn:Hp; [| discriminate].
    intros H. apply Hind in H as (Ha & Hb & ->).
    apply strip_prefix_sound in Hp. auto.
  - intros (Ha & Hb & ->).
    rewrite (strip_prefix_complete "obj:"). apply Hind. auto.
Qed.

(** X6: no string is accepted by two of the four patterns that [makeObject]
    tries on a string value (reference, u: text, b: hex, name), so the order
    in which it tries them decides nothing. *)
Theorem string_patterns_exclusive (s : string) :
  (matching_patterns s <= 1)%nat.
Proof.
  unfold matching_patterns.
  destruct s as [| c s]; [vm_compute; lia |].
  unfold Regex.INDIRECT_OBJ_RE, Regex.UNICODE_RE, Regex.BINARY_RE,
    Regex.NAME_RE, Text.digits1.
  cbn [Text.span_digits Text.strip_prefix].
  destruct (Text.is_digit c) eqn:Hdigit.
  - (* a digit is neither u, b nor a slash *)
    assert (Hc : Ascii.eqb "u" c = false /\ Ascii.eqb "b" c = false /\
                 Ascii.eqb "/" c = false).
    { destruct c as [[] [] [] [] [] [] [] []];
        try discriminate Hdigit; repeat split; reflexivity. }
    destruct Hc as (Hu & Hb & Hs).
    rewrite Hu, Hb.
    assert (Hname : match c with "/"%char => true | _ => false end = false).
    { destruct c as [[] [] [] [] [] [] [] []];
        try reflexivity; discriminate Hs. }
    rewrite Hname.
    destruct (let '(ds, tl) := Text.span_digits s in (String c ds, tl))
      as [[| c0 ds] tl]; [cbn; lia |].
    match goal with
    | |- (match ?x with Some _ => _ | None => _ end + _ + _ + _ <= _)%nat =>
        destruct x
    end; cbn; lia.
  - destruct c as [[] [] [] [] [] [] [] []]; cbn;
      repeat match goal with
             | |- context [match ?x with _ => _ end] =>
                 lazymatch x with
                 | context [match _ with _ => _ end] => fail
                 | _ => destruct x; cbn
                 end
             end; lia.
Qed.

(** *** The data of a stream, read back from the input *)

Lemma request_bounds (bytes : nat) :
  (Provider.request bytes <= bytes)%nat /\
  Z.of_nat (Provider.request bytes) <= 8192 /\
  (Provider.request bytes = 0%nat -> bytes = 0%nat).
Proof. unfold Provider.request, Provider.sizeof_buf. lia. Qed.

Section ProviderFacts.

Variable granted : nat -> nat -> nat.

Lemma read_length (contents : list Byte.byte) (pos n : nat) :
  (length (Provider.read granted contents pos n) <= n)%nat.
Proof.
  unfold Provider.read. rewrite length_take.
  destruct (length contents - pos =? 0)%nat; simpl; [lia |].
  destruct (n =? 0)%nat eqn:Hn; [lia |].
  apply Nat.eqb_neq in Hn. lia.
Qed.

Lemma read_take (contents : list Byte.byte) (pos n : nat) :
  Provider.read granted contents pos n
  = take (length (Provider.read granted contents pos n)) (drop pos contents).
Proof.
  unfold Provider.read. rewrite length_take, length_drop.
  destruct (length contents - pos =? 0)%nat eqn:Hleft; simpl;
    [reflexivity |].
  destruct (n =? 0)%nat; [reflexivity |].
  apply Nat.eqb_neq in Hleft. f_equal. lia.
Qed.

Lemma read_nothing (contents : list Byte.byte) (pos n : nat) :
  Provider.read granted contents pos n = [] ->
  n = 0%nat \/ drop pos contents = [].
Proof.
  unfold Provider.read. intros Hread.
  apply (f_equal length) in Hread. rewrite length_take, length_drop in Hread.
  simpl in Hread.
  destruct (length contents - pos =? 0)%nat eqn:Hleft; simpl in Hread.
  - right. apply Nat.eqb_eq in Hleft. apply drop_ge. lia.
  - destruct (n =? 0)%nat eqn:Hn.
    + left. apply Nat.eqb_eq in Hn. exact Hn.
    + apply Nat.eqb_neq in Hleft, Hn. lia.
Qed.

(** The loop sends the bytes of the range, in buffers of 1 to 8192 bytes. *)
Lemma pump_range (contents : list Byte.byte) (pos bytes : nat) :
  concat (Provider.pump granted contents pos bytes)
  = take bytes (drop pos contents) /\
  Forall (fun w => 0 < Z.of_nat (length w) <= 8192)
    (Provider.pump granted contents pos bytes).
Proof.
  funelim (Provider.pump granted contents pos bytes); clear Heqcall;
    repeat match goal with
           | Hi : _ = {| pr1 := _; pr2 := _ |} |- _ => clear Hi
           end.
  - split; [| constructor]. simpl.
    apply read_nothing in e as [Hn | Hend].
    + apply request_bounds in Hn as ->. reflexivity.
    + rewrite Hend. rewrite take_nil. reflexivity.
  - pose proof (read_length contents pos (Provider.request bytes))
      as Hlen.
    pose proof (read_take contents pos (Provider.request bytes))
      as Htake.
    rewrite e in Hlen, Htake.
    pose proof (request_bounds bytes) as (Hle & Hbuf & _).
    split.
    + rewrite concat_cons. simpl concat. rewrite app_nil_r, Htake.
      f_equal. lia.
    + repeat constructor; simpl length in *; lia.
  - pose proof (read_length contents pos (Provider.request bytes))
      as Hlen.
    pose proof (read_take contents pos (Provider.request bytes))
      as Htake.
    rewrite e in Hlen, Htake.
    pose proof (request_bounds bytes) as (Hle & Hbuf & _).
    destruct H as [Hcat Hall].
    split.
    + rewrite concat_cons, Hcat, <- e0, <- drop_drop.
      rewrite Htake at 1.
      rewrite take_take_drop. f_equal. lia.
    + constructor; [simpl length in *; lia | exact Hall].
Qed.

End ProviderFacts.

(** X7: when the provider of a stream's data is called for the byte range
    from start to end, what it writes to the base64 decoder, put end to end,
    is the bytes of the input in that range (up to the end of the input),
    whatever the sizes of the reads; every write sends at least one byte and
    at most the 8192 of the buffer. *)
Theorem provide_data_sends_range (granted : nat -> nat -> nat)
    (contents : list Byte.byte) (start end_ : Z) :
  0 <= start <= end_ -> end_ < QIntC.size_max ->
  concat (Provider.writes granted contents start end_)
  = take (Z.to_nat (end_ - start)) (drop (Z.to_nat start) contents) /\
  Forall (fun w => 0 < Z.of_nat (length w) <= 8192)
    (Provider.writes granted contents start end_).
Proof.
  intros Hrange Hmax.
  unfold Provider.writes, QIntC.wrap_size_t, QIntC.to_offset.
  rewrite Z.mod_small by lia.
  exact (pump_range granted contents (Z.to_nat start)
           (Z.to_nat (end_ - start))).
Qed.

Lemma provide_data_sends_range_witness :
  concat (Provider.writes (fun _ n => n) [Byte.x41; Byte.x42; Byte.x43] 1 3)
  = take (Z.to_nat (3 - 1)) (drop (Z.to_nat 1) [Byte.x41; Byte.x42; Byte.x43])
  /\
  Forall (fun w => 0 < Z.of_nat (length w) <= 8192)
    (Provider.writes (fun _ n => n) [Byte.x41; Byte.x42; Byte.x43] 1 3).
Proof.
  apply (provide_data_sends_range (fun _ n => n)
           [Byte.x41; Byte.x42; Byte.x43] 1 3).
  - lia.
  - unfold QIntC.size_max. lia.
Defined.
(** *** The files the writer creates *)

Lemma written_app (fs : gmap string string) (l1 l2 : list (string * string)) :
  written fs (l1 ++ l2) = written (written fs l1) l2.
Proof. apply foldl_app. Qed.

(** A file that is not written is left as it was. *)
Lemma written_other (l : list (string * string)) (fs : gmap string string)
    (name : string) :
  name ∉ l.*1 -> written fs l !! name = fs !! name.
Proof.
  revert fs. induction l as [| [n b] l IH]; intros fs Hnot; [reflexivity |].
  simpl in Hnot. apply not_elem_of_cons in Hnot as [Hne Hnot].
  simpl. rewrite (IH _ Hnot). apply lookup_insert_ne. congruence.
Qed.

(** A file that is written holds what was written to it last. *)
Lemma written_last (before after : list (string * string))
    (fs : gmap string string) (name bytes : string) :
  name ∉ after.*1 ->
  written fs (before ++ (name, bytes) :: after) !! name = Some bytes.
Proof.
  intros Hnot. rewrite written_app. simpl.
  rewrite (written_other after _ name Hnot). apply lookup_insert_eq.
Qed.

Section FileFacts.

Variable getJSON : QPDF -> QPDFObjectHandle -> Z -> JSON.
Variable getStreamJSON :
  QPDF -> QPDFObjectHandle -> Z -> qpdf_json_stream_data_e ->
  qpdf_stream_decode_level_e -> bool -> string -> JSON * string.
Variable unparse_direct : QPDF -> QPDFObjectHandle -> string.

Lemma writeJSONStream_files (q : QPDF) (version : Z) (p : output)
    (first : bool) (key : string) (obj : QPDFObjectHandle)
    (decode_level : qpdf_stream_decode_level_e)
    (json_stream_data : qpdf_json_stream_data_e) (file_prefix : string) :
  files (writeJSONStream getStreamJSON q version p first key obj
           decode_level json_stream_data file_prefix).1
  = match json_stream_data with
    | qpdf_sj_file =>
        written (files p)
          [stream_file getStreamJSON q version decode_level file_prefix obj]
    | _ => files p
    end.
Proof.
  unfold writeJSONStream, stream_file, data_file.
  destruct json_stream_data;
    destruct (getStreamJSON _ _ _ _ _ _ _) as [sj bytes]; reflexivity.
Qed.

Lemma write_objects_files (q : QPDF) (version : Z)
    (decode_level : qpdf_stream_decode_level_e)
    (json_stream_data : qpdf_json_stream_data_e) (file_prefix : string)
    (wanted_objects : gset string) (objects : list QPDFObjectHandle)
    (p : output) (first_object : bool) :
  files
    (write_objects getJSON getStreamJSON unparse_direct q version
       decode_level json_stream_data file_prefix
       (bool_decide (wanted_objects = ∅)) wanted_objects objects p
       first_object).1
  = match json_stream_data with
    | qpdf_sj_file =>
        written (files p)
          (stream_file getStreamJSON q version decode_level file_prefix
             <$> wanted_streams unparse_direct q wanted_objects objects)
    | _ => files p
    end.
Proof.
  revert p first_object.
  induction objects as [| obj objects IH]; intros p first_object; simpl.
  - destruct json_stream_data; reflexivity.
  - fold (object_key unparse_direct q obj).
    unfold wanted_streams. rewrite filter_cons.
    change (bool_decide (wanted_objects = ∅)
            || bool_decide (object_key unparse_direct q obj ∈ wanted_objects))
      with (wanted wanted_objects (object_key unparse_direct q obj)).
    destruct (wanted wanted_objects (object_key unparse_direct q obj))
      eqn:Hsel.
    + destruct (ObjectGraph.isStream q obj) eqn:Hstream.
      * rewrite decide_True by (split; reflexivity).
        pose proof (writeJSONStream_files q version p first_object
                      (object_key unparse_direct q obj) obj decode_level
                      json_stream_data file_prefix) as Hfile.
        destruct (writeJSONStream _ _ _ _ _ _ _ _ _ _) as [p1 f1].
        simpl in Hfile. cbv beta iota. rewrite IH, Hfile.
        destruct json_stream_data; reflexivity.
      * rewrite decide_False by (intros [_ H]; discriminate).
        unfold writeJSONObject, JSONWriter.writeDictionaryItem.
        cbv beta iota. rewrite IH. reflexivity.
    + rewrite decide_False by (intros [H _]; discriminate).
      cbv beta iota. rewrite IH. reflexivity.
Qed.

End FileFacts.

(** X8: the files an export of version 2 writes.  With stream data sent to
    files ([qpdf_sj_file]) each wanted object that is a stream is written,
    in the order of the table, to the file named after the prefix and the
    object's id; the generation is not part of the name and the file is
    emptied when it is opened, so of the wanted streams with the same id
    the last one has its data in the file.  Every other file is left as it
    was; in the other modes, and for objects that are not streams or not
    wanted, no file is touched.  The trailer never gets a file. *)
Theorem writeJSON_files
    (getJSON : QPDF -> QPDFObjectHandle -> Z -> JSON)
    (getStreamJSON :
       QPDF -> QPDFObjectHandle -> Z -> qpdf_json_stream_data_e ->
       qpdf_stream_decode_level_e -> bool -> string -> JSON * string)
    (unparse_direct : QPDF -> QPDFObjectHandle -> string)
    (q : QPDF) (p : output) (decode_level : qpdf_stream_decode_level_e)
    (json_stream_data : qpdf_json_stream_data_e) (file_prefix : string)
    (wanted_objects : gset string) :
  let streams :=
    wanted_streams unparse_direct q wanted_objects
      (Document.getAllObjects q) in
  let after :=
    files
      (writeJSON getJSON getStreamJSON unparse_direct q 2 p decode_level
         json_stream_data file_prefix wanted_objects).2 in
  match json_stream_data with
  | qpdf_sj_file =>
      (forall name,
         name ∉ data_file file_prefix <$> streams ->
         after !! name = files p !! name) /\
      (forall earlier obj later,
         streams = (earlier ++ obj :: later)%list ->
         data_file file_prefix obj ∉ data_file file_prefix <$> later ->
         after !! data_file file_prefix obj
         = Some (getStreamJSON q obj 2 qpdf_sj_file decode_level true
                   (data_file file_prefix obj)).2)
  | _ => after = files p
  end.
Proof.
  intros streams after. subst after. unfold writeJSON.
  change (negb (2 =? 2)%Z) with false. cbv beta iota.
  unfold JSONWriter.writeDictionaryOpen, JSONWriter.writeDictionaryKey,
    JSONWriter.writeDictionaryItem, JSONWriter.writeDictionaryClose,
    JSONWriter.write_text.
  cbv beta iota zeta.
  match goal with
  | |- context [write_objects ?a ?b ?c ?d ?e ?f ?g ?h ?i ?j ?k ?l ?m] =>
      pose proof (write_objects_files a b c d e f g h j k l m) as Hloop;
      destruct (write_objects a b c d e f g h i j k l m) as [p1 f1]
  end.
  simpl in Hloop. fold streams in Hloop.
  assert (Hnames :
            (stream_file getStreamJSON q 2 decode_level file_prefix
               <$> streams).*1
            = data_file file_prefix <$> streams).
  { rewrite <- list_fmap_compose. reflexivity. }
  unfold writeJSONObject, JSONWriter.writeDictionaryItem.
  destruct (bool_decide (wanted_objects = ∅)
            || bool_decide ("trailer" ∈ wanted_objects));
    cbn [snd files]; rewrite Hloop;
    (destruct json_stream_data; [reflexivity | reflexivity |]);
    (split;
     [ intros name Hnot; apply written_other; rewrite Hnames; exact Hnot
     | intros earlier obj later Hsplit Hnot;
       rewrite Hsplit, fmap_app, fmap_cons;
       apply (written_last _ _ _ (data_file file_prefix obj));
       rewrite <- list_fmap_compose; exact Hnot ]).
Qed.

(** *** What an import never takes away *)

Lemma grows_refl (q : QPDF) : grows q q.
Proof. split; auto. Qed.

Lemma grows_trans (q1 q2 q3 : QPDF) : grows q1 q2 -> grows q2 q3 -> grows q1 q3.
Proof.
  intros [Ht1 Hh1 Hl1 Hv1] [Ht2 Hh2 Hl2 Hv2]. split.
  - intros og H. apply Ht2, Ht1, H.
  - lia.
  - intros l o H Hleaf. apply Hl2; [apply Hl1 |]; assumption.
  - destruct Hv2 as [Hv2 | Hv2]; [| right; exact Hv2].
    rewrite Hv2. exact Hv1.
Qed.

Lemma grows_alloc (o : QPDFObject) (q : QPDF) :
  grows q (ObjectGraph.alloc o q).2.
Proof.
  split; simpl; auto.
  - rewrite length_app. lia.
  - intros l o' H _. apply lookup_app_l_Some. exact H.
Qed.

Lemma grows_reserveObjectIfNotExists (o g : Z) (q : QPDF) :
  grows q (ObjectGraph.reserveObjectIfNotExists o g q).2.
Proof.
  unfold ObjectGraph.reserveObjectIfNotExists.
  destruct (obj_cache q !! (o, g)) eqn:E; [apply grows_refl |].
  split; simpl; auto.
  - intros og H. apply lookup_insert_is_Some'. right. exact H.
  - rewrite length_app. lia.
  - intros l o' H _. apply lookup_app_l_Some. exact H.
Qed.

Lemma grows_reserveStream (o g : Z) (q : QPDF) :
  grows q (ObjectGraph.reserveStream o g q).2.
Proof.
  unfold ObjectGraph.reserveStream.
  eapply grows_trans; [apply (grows_alloc (ot_dictionary ∅)) |].
  apply grows_alloc.
Qed.

Lemma grows_replaceObject (og : QPDFObjGen) (oh : QPDFObjectHandle)
    (q q' : QPDF) :
  ObjectGraph.replaceObject og oh q = Some q' -> grows q q'.
Proof.
  destruct oh; simpl; intros [= <-].
  split; simpl; auto.
  intros og' H. apply lookup_insert_is_Some'. right. exact H.
Qed.

Lemma grows_update (h : QPDFObjectHandle) (f : QPDFObject -> QPDFObject)
    (q : QPDF) :
  (forall o, is_leaf o = true -> f o = o) ->
  grows q (ObjectGraph.update h f q).
Proof.
  intros Hf. unfold ObjectGraph.update.
  destruct (ObjectGraph.loc_of q h) as [l |]; [| apply grows_refl].
  destruct (object_heap q !! l) as [o |] eqn:E; [| apply grows_refl].
  split; simpl; auto.
  - rewrite length_insert. lia.
  - intros l' o' H Hleaf.
    destruct (decide (l = l')) as [<- | Hne].
    + rewrite E in H. injection H as ->.
      rewrite Hf by exact Hleaf.
      apply list_lookup_insert_eq. eapply lookup_lt_Some. exact E.
    + rewrite list_lookup_insert_ne by exact Hne. exact H.
Qed.

Lemma grows_setObjectDescription (h : QPDFObjectHandle) (d : string)
    (q : QPDF) :
  grows q (ObjectGraph.setObjectDescription h d q).
Proof.
  unfold ObjectGraph.setObjectDescription.
  destruct (ObjectGraph.loc_of q h); split; simpl; auto.
Qed.

Lemma grows_warn (e : QPDFExc) (q : QPDF) : grows q (ObjectGraph.warn e q).
Proof. split; simpl; auto. Qed.

Lemma grows_with_pdf_version (v : string) (q : QPDF) :
  Regex.PDF_VERSION_RE v = true -> grows q (with_pdf_version v q).
Proof. intros Hv. split; simpl; auto. Qed.

Lemma grows_with_trailer (t : QPDFObjectHandle) (q : QPDF) :
  grows q (with_trailer t q).
Proof. split; simpl; auto. Qed.

Lemma follows_bind {A B} (m : M A) (f : A -> M B) (r : JSONReactor) :
  follows m r ->
  (forall a r', m r = (Return a, r') -> follows (f a) r') ->
  follows (bind m f) r.
Proof.
  unfold follows, bind. intros Hm Hf.
  destruct (m r) as [[a | e] r'] eqn:E; simpl in *; [| exact Hm].
  eapply grows_trans; [exact Hm |]. apply Hf. reflexivity.
Qed.

Lemma follows_same {A} (m : M A) (r : JSONReactor) :
  pdf (m r).2 = pdf r -> follows m r.
Proof. unfold follows. intros ->. apply grows_refl. Qed.

Lemma follows_back {A} (v : list A) (r : JSONReactor) : follows (back v) r.
Proof. apply follows_same. destruct v; reflexivity. Qed.

Lemma follows_pop_back {A} (v : list A) (r : JSONReactor) :
  follows (pop_back v) r.
Proof. apply follows_same. destruct v; reflexivity. Qed.

Lemma follows_on_pdf {A} (op : QPDF -> A * QPDF) (r : JSONReactor) :
  grows (pdf r) (op (pdf r)).2 -> follows (on_pdf op) r.
Proof.
  unfold follows, on_pdf. destruct (op (pdf r)) as [a q']. simpl. auto.
Qed.

Lemma follows_update_pdf (op : QPDF -> QPDF) (r : JSONReactor) :
  grows (pdf r) (op (pdf r)) -> follows (update_pdf op) r.
Proof. unfold follows, update_pdf, modify. simpl. auto. Qed.

Lemma follows_error (offset : Z) (msg : string) (r : JSONReactor) :
  follows (error offset msg) r.
Proof. unfold follows, error; unfold_monad. simpl. apply grows_warn. Qed.

Lemma follows_pdf_replaceObject (og : QPDFObjGen) (oh : QPDFObjectHandle)
    (r : JSONReactor) :
  follows (pdf_replaceObject og oh) r.
Proof.
  unfold follows, pdf_replaceObject, bind, get.
  destruct (ObjectGraph.replaceObject og oh (pdf r)) as [q' |] eqn:E.
  - simpl. eapply grows_replaceObject. exact E.
  - apply grows_refl.
Qed.

Lemma follows_for_each {A} (l : list A) (body : A -> M unit)
    (r : JSONReactor) :
  (forall x r', follows (body x) r') -> follows (for_each l body) r.
Proof.
  intros Hbody. revert r.
  induction l as [| x l IH]; intros r; simpl.
  - apply follows_same. reflexivity.
  - apply follows_bind; [apply Hbody |]. intros _ r' _. apply IH.
Qed.

Create HintDb follows_db.

Ltac leaf_kept :=
  let o := fresh "o" in let H := fresh "H" in
  intros o H; destruct o; first [reflexivity | discriminate H].

Ltac follows_step :=
  lazymatch goal with
  | |- follows (bind get _) _ =>
      apply follows_bind;
      [ apply follows_same; reflexivity
      | let a := fresh "r" in let r' := fresh "r" in
        intros a r' [= <- <-] ]
  | |- follows (bind _ _) _ => apply follows_bind; [| intros ? ? _]
  | |- follows (ret _) _ => apply follows_same; reflexivity
  | |- follows skip _ => apply follows_same; reflexivity
  | |- follows get _ => apply follows_same; reflexivity
  | |- follows (throw _) _ => apply follows_same; reflexivity
  | |- follows (back _) _ => apply follows_back
  | |- follows (pop_back _) _ => apply follows_pop_back
  | |- follows (newObject _) _ => apply follows_on_pdf; apply grows_alloc
  | |- follows (pdf_replaceObject _ _) _ => apply follows_pdf_replaceObject
  | |- follows (when ?b _) _ => unfold when; destruct b eqn:?
  | |- follows (if ?b then _ else _) _ => destruct b eqn:?
  | |- follows (match ?x with _ => _ end) _ => destruct x eqn:?
  | |- follows (modify _) _ => apply follows_same; reflexivity
  | |- follows (update_pdf _) _ =>
      apply follows_update_pdf;
      first [ apply grows_update; leaf_kept
            | apply grows_setObjectDescription
            | apply grows_with_trailer
            | apply grows_with_pdf_version; assumption ]
  | |- follows (on_pdf _) _ =>
      apply follows_on_pdf;
      first [ apply grows_reserveObjectIfNotExists
            | apply grows_reserveStream | apply grows_alloc ]
  | |- follows (error _ _) _ => apply follows_error
  | |- follows _ _ => solve [eauto with follows_db]
  end.

Lemma follows_nestedState (key : string) (value : JSON) (next : state_e)
    (r : JSONReactor) :
  follows (nestedState key value next) r.
Proof. unfold nestedState. repeat follows_step. Qed.

Lemma follows_reserveObject (obj gen : string) (r : JSONReactor) :
  follows (reserveObject obj gen) r.
Proof. unfold reserveObject. repeat follows_step. Qed.

Lemma follows_replaceObject (to_replace replacement : QPDFObjectHandle)
    (r : JSONReactor) :
  follows (replaceObject to_replace replacement) r.
Proof. unfold replaceObject. repeat follows_step. Qed.

#[local] Hint Resolve follows_nestedState follows_reserveObject
  follows_replaceObject : follows_db.

Lemma follows_makeObject (value : JSON) (r : JSONReactor) :
  follows (makeObject value) r.
Proof. unfold makeObject. repeat follows_step. Qed.

#[local] Hint Resolve follows_makeObject : follows_db.

Lemma follows_dictionaryItem (key : string) (value : JSON) (r : JSONReactor) :
  follows (dictionaryItem key value) r.
Proof. unfold dictionaryItem. repeat follows_step. Qed.

Lemma follows_arrayItem (value : JSON) (r : JSONReactor) :
  follows (arrayItem value) r.
Proof. unfold arrayItem. repeat follows_step. Qed.

Lemma follows_containerEnd (value : JSON) (r : JSONReactor) :
  follows (containerEnd value) r.
Proof.
  unfold containerEnd. repeat follows_step.
  apply follows_for_each. intros og r0. repeat follows_step.
Qed.

Lemma follows_deliver (e : event) (r : JSONReactor) : follows (deliver e) r.
Proof.
  destruct e; simpl.
  - apply follows_same. reflexivity.
  - unfold arrayStart, containerStart. repeat follows_step.
  - apply follows_containerEnd.
  - apply follows_same. reflexivity.
  - apply follows_bind; [apply follows_dictionaryItem |].
    intros _ r' _. apply follows_same. reflexivity.
  - apply follows_bind; [apply follows_arrayItem |].
    intros _ r' _. apply follows_same. reflexivity.
Qed.




(** *** What a complete import that succeeds has seen *)

(** X10: the calls made for a value, when they all return, leave the
    reactor in the state it was in before them, with the same stack of
    states: every container is closed into the state it was opened from. *)
Theorem value_calls_restore_state (c : JSON) (r r' : JSONReactor) :
  run (container_events c) r = (Return tt, r') ->
  state r' = state r /\ state_stack r' = state_stack r.
Proof.
  intros Hrun. pose proof (container_events_balanced c r r' Hrun) as Hctl.
  unfold control in Hctl. injection Hctl as Hst Hstk. split; assumption.
Qed.

Lemma value_calls_restore_state_witness :
  let c :=
    JSON_dictionary [("/Kids", JSON_array [JSON_string "3 0 R" 70 77] 69 78)]
      60 79 in
  let r' := (run (container_events c) Samples.in_entry).2 in
  state r' = state Samples.in_entry /\
  state_stack r' = state_stack Samples.in_entry.
Proof.
  apply (value_calls_restore_state
           (JSON_dictionary
              [("/Kids", JSON_array [JSON_string "3 0 R" 70 77] 69 78)]
              60 79)
           Samples.in_entry).
  vm_compute. reflexivity.
Defined.

(** An invariant of the calls that return. *)
Lemma run_invariant (J : JSONReactor -> Prop) (evs : list event) :
  (forall e r r', J r -> deliver e r = (Return tt, r') -> J r') ->
  forall r r', J r -> run evs r = (Return tt, r') -> J r'.
Proof.
  intros Hstep. induction evs as [| e evs IH]; intros r r' HJ Hrun.
  - unfold run in Hrun. simpl in Hrun. injection Hrun as <-. exact HJ.
  - rewrite run_cons in Hrun.
    destruct (deliver e r) as [[[] | x] r1] eqn:He; [| discriminate].
    apply (IH r1 r'); [| exact Hrun]. apply (Hstep e r r1 HJ He).
Qed.

(** A parse that returns was given a dictionary, ran the calls for its
    members, and closed it into the initial state. *)
Lemma parse_returns (is_name : string) (doc : JSON) (must_be_complete : bool)
    (q : QPDF) (r : JSONReactor) :
  JSON_parse doc (new_JSONReactor q is_name must_be_complete)
    = (Return tt, r) ->
  exists r2,
    run (flat_map (fun ic => ic.1 :: container_events ic.2) (children doc))
      (set_state st_top
         (set_state_stack [st_initial; st_initial]
            (new_JSONReactor q is_name must_be_complete)))
    = (Return tt, r2) /\
    closing st_initial doc
      (set_state_stack [st_initial] (set_state st_initial r2))
    = (Return tt, r).
Proof.
  unfold JSON_parse, parse_events. intros Hrun.
  destruct (isDictionary doc) eqn:Hdict; simpl in Hrun.
  - set (r0 := new_JSONReactor q is_name must_be_complete) in *.
    assert (Hc : isDictionary doc || isArray doc = true)
      by (rewrite Hdict; reflexivity).
    destruct (container_run doc r0 r Hc Hrun) as (r2 & Hloop & Hend).
    exists r2. split; [exact Hloop |].
    apply (children_loop
             (fun r1 => control r1 = (st_top, [st_initial; st_initial])))
      in Hloop.
    + rewrite containerEnd_closing in Hend.
      injection Hloop as _ Hstk2. rewrite Hstk2 in Hend. exact Hend.
    + intros ic r1 r3 r4 Hin Hctl1 Hitem Hchild.
      pose proof (deliver_item_control _ _ _ (children_item doc ic Hin) Hitem)
        as Hctl3.
      pose proof (container_events_balanced ic.2 r3 r4 Hchild) as Hctl4.
      congruence.
    + reflexivity.
  - destruct doc as [| elements s e | | | |]; try discriminate Hdict;
      simpl in Hrun; discriminate Hrun.
Qed.

(** The checks made when the document closes: if none of them records an
    error, the keys were seen. *)
Lemma closing_initial_clean (value : JSON) (r r' : JSONReactor) :
  closing st_initial value r = (Return tt, r') ->
  errors r' = false ->
  r' = r /\ saw_qpdf r = true /\ saw_objects r = true /\
  (must_be_complete r = true ->
   saw_pdf_version r = true /\ saw_trailer r = true).
Proof.
  destruct_reactor r. unfold closing; unfold_monad. simpl.
  destruct sq, sobj, mbc, spv, strl; simpl; intros [= <-]; simpl;
    intros Herr; try discriminate Herr; repeat split; congruence.
Qed.

Lemma dictionaryItem_saw_pdf_version (key : string) (value : JSON)
    (r : JSONReactor) :
  (state r = st_qpdf -> key <> "pdfversion") ->
  saw_pdf_version (dictionaryItem key value r).2 = saw_pdf_version r.
Proof.
  intros Hkey. unfold dictionaryItem. unfold bind at 1, get at 1.
  destruct (state r) eqn:Hst;
    try (destruct (String.eqb key "pdfversion") eqn:Hk;
         [apply String.eqb_eq in Hk; exfalso; apply Hkey; [reflexivity | exact Hk] |]);
    match goal with
    | |- saw_pdf_version (?m r).2 = _ =>
        let H := fresh in
        assert (H : keeps saw_pdf_version m) by (repeat keeps_step);
        apply H
    end.
Qed.

Lemma deliver_saw_pdf_version (e : event) (r : JSONReactor) :
  (forall key value,
     e = ev_dictionaryItem key value -> state r = st_qpdf ->
     key <> "pdfversion") ->
  saw_pdf_version (deliver e r).2 = saw_pdf_version r.
Proof.
  intros Hkey. destruct e; simpl.
  - reflexivity.
  - assert (H : keeps saw_pdf_version arrayStart)
      by (unfold arrayStart, containerStart; repeat keeps_step).
    apply H.
  - assert (H : keeps saw_pdf_version (containerEnd value))
      by (unfold containerEnd; repeat keeps_step).
    apply H.
  - reflexivity.
  - pose proof (dictionaryItem_saw_pdf_version key value r
                  (Hkey key value eq_refl)) as H.
    unfold bind. destruct (dictionaryItem key value r) as [[b | x] r1];
      exact H.
  - assert (H : keeps saw_pdf_version (arrayItem value))
      by (unfold arrayItem; repeat keeps_step).
    unfold bind. specialize (H r).
    destruct (arrayItem value r) as [[b | x] r1]; exact H.
Qed.

Lemma dictionaryItem_pdfversion_checked (value : JSON) (r : JSONReactor) :
  state r = st_qpdf ->
  version_checked (dictionaryItem "pdfversion" value r).2.
Proof.
  intros Hst. destruct_reactor r. simpl in Hst. subst st.
  unfold version_checked, dictionaryItem; unfold_monad. simpl.
  destruct (getString value) as [v |]; simpl;
    [destruct (Regex.PDF_VERSION_RE v) eqn:Hv |]; simpl; auto.
Qed.

Lemma pdfversion_item_or_not (e : event) (r : JSONReactor) :
  (exists value,
     e = ev_dictionaryItem "pdfversion" value /\ state r = st_qpdf) \/
  (forall key value,
     e = ev_dictionaryItem key value -> state r = st_qpdf ->
     key <> "pdfversion").
Proof.
  destruct e as [| | | | key value |];
    try (right; intros ? ? H; discriminate H).
  destruct (String.eqb key "pdfversion") eqn:Hk.
  - apply String.eqb_eq in Hk. subst key.
    destruct (state r) eqn:Hst;
      try (right; intros ? ? _ H; discriminate H).
    left. exists value. split; reflexivity.
  - right. intros k v [= <- <-] _ ->. rewrite String.eqb_refl in Hk.
    discriminate Hk.
Qed.

Lemma deliver_version_checked (e : event) (r r' : JSONReactor) :
  version_checked r -> deliver e r = (Return tt, r') -> version_checked r'.
Proof.
  intros HJ He.
  destruct (pdfversion_item_or_not e r) as [(value & -> & Hst) | Hother].
  - pose proof (dictionaryItem_pdfversion_checked value r Hst) as H.
    simpl in He. unfold bind in He.
    destruct (dictionaryItem "pdfversion" value r) as [[b | x] r1];
      [| discriminate].
    injection He as <-. exact H.
  - pose proof (deliver_saw_pdf_version e r Hother) as Hsaw.
    pose proof (pres_deliver e r) as Hev.
    pose proof (follows_deliver e r) as Hg.
    unfold pres, follows in *. rewrite He in Hsaw, Hev, Hg. simpl in *.
    intros Hseen. rewrite Hsaw in Hseen.
    destruct (HJ Hseen) as [Herr | Hver].
    + left. destruct (ev_warnings _ _ Hev) as (new & _ & -> & _).
      rewrite Herr. reflexivity.
    + right. destruct (grows_version _ _ Hg) as [-> | Hv]; assumption.
Qed.

(** X11: a complete import (the one [createFromJSON] runs) that succeeds
    leaves a document whose version is of the form x.y: the pdfversion key
    was present, and its value was accepted. *)
Theorem complete_import_sets_version (is_name : string) (doc : JSON)
    (q q' : QPDF) :
  importJSON is_name doc true q = (Return tt, q') ->
  Regex.PDF_VERSION_RE (pdf_version q') = true.
Proof.
  unfold importJSON. intros Himport.
  destruct (JSON_parse doc (new_JSONReactor q is_name true))
    as [[[] | x] r] eqn:Hparse; [| destruct x; discriminate].
  unfold anyErrors in Himport.
  destruct (errors r) eqn:Herr; [discriminate |].
  injection Himport as <-.
  assert (HJ : version_checked r).
  { apply (run_invariant version_checked (parse_events doc)
             deliver_version_checked (new_JSONReactor q is_name true) r);
      [| exact Hparse].
    intros H. discriminate H. }
  destruct (parse_returns _ _ _ _ _ Hparse) as (r2 & Hloop & Hend).
  destruct (closing_initial_clean _ _ _ Hend Herr) as (Heq & _ & _ & Hmbc).
  assert (Hmust : must_be_complete r2 = true).
  { pose proof (pres_run
                  (flat_map (fun ic => ic.1 :: container_events ic.2)
                     (children doc))
                  (set_state st_top
                     (set_state_stack [st_initial; st_initial]
                        (new_JSONReactor q is_name true)))) as Hev.
    unfold pres in Hev. rewrite Hloop in Hev.
    apply (ev_must_be_complete _ _ Hev). }
  destruct (Hmbc Hmust) as [Hseen _].
  destruct HJ as [Hbad | Hok].
  - rewrite Heq. exact Hseen.
  - congruence.
  - exact Hok.
Qed.

Lemma complete_import_sets_version_witness :
  Regex.PDF_VERSION_RE
    (pdf_version (importJSON "in.json" Samples.doc_catalog true JSON_PDF).2)
  = true.
Proof.
  apply (complete_import_sets_version "in.json" Samples.doc_catalog JSON_PDF).
  vm_compute. reflexivity.
Defined.

(** *** The object built for a value *)

Lemma built_reference (heap : list QPDFObject) (lo hi : nat) (v : JSON)
    (h : QPDFObjectHandle) (og : QPDFObjGen) :
  reference v = Some og -> (built heap lo hi v h <-> h = h_indirect og).
Proof.
  intros Href. destruct v; try discriminate Href.
  cbn [built]. rewrite Href. reflexivity.
Qed.

Lemma built_leaf (heap : list QPDFObject) (lo hi : nat) (v : JSON)
    (h : QPDFObjectHandle) :
  reference v = None -> isDictionary v || isArray v = false ->
  (built heap lo hi v h <->
   exists l, h = h_direct l /\ (lo <= l < hi)%nat /\
             heap !! l = Some (new_node v)).
Proof.
  intros Href Hc. destruct v; try discriminate Hc;
    cbn [built]; rewrite Href; reflexivity.
Qed.

Lemma members_match_impl (P Q : JSON -> QPDFObjectHandle -> Prop)
    (items : gmap string QPDFObjectHandle) (members : list (string * JSON)) :
  Forall (fun m => forall h, P m.2 h -> Q m.2 h) members ->
  members_match P items members -> members_match Q items members.
Proof.
  induction 1 as [| m members Hm _ IH]; simpl; [done |].
  intros [Hhead Htail]. split; [| apply IH, Htail].
  intros Hlast. destruct (Hhead Hlast) as (h & Hh & HP).
  exists h. split; [exact Hh | apply Hm, HP].
Qed.

Lemma members_match_snoc (P : JSON -> QPDFObjectHandle -> Prop)
    (items : gmap string QPDFObjectHandle) (members : list (string * JSON))
    (key : string) (c : JSON) (h : QPDFObjectHandle) :
  members_match P items members -> P c h ->
  members_match P (<[key := h]> items) (members ++ [(key, c)]).
Proof.
  intros Hm HP. induction members as [| m members IH]; simpl.
  - split; [| done]. intros _. exists h. split; [| exact HP].
    apply lookup_insert_eq.
  - destruct Hm as [Hhead Htail]. split; [| apply IH, Htail].
    rewrite fmap_app. simpl. intros Hlast.
    apply not_elem_of_app in Hlast as [Hlast Hne].
    apply not_elem_of_cons in Hne as [Hne _].
    destruct (Hhead Hlast) as (h0 & Hh0 & HP0).
    exists h0. split; [| exact HP0].
    rewrite lookup_insert_ne by congruence. exact Hh0.
Qed.

Lemma items_match_impl (P Q : JSON -> QPDFObjectHandle -> Prop)
    (elements : list JSON) :
  Forall (fun c => forall h, P c h -> Q c h) elements ->
  forall items, items_match P elements items -> items_match Q elements items.
Proof.
  induction 1 as [| c elements Hc _ IH]; intros [| h items]; simpl; try done.
  intros [Hhead Htail]. split; [apply Hc, Hhead | apply IH, Htail].
Qed.

Lemma items_match_snoc (P : JSON -> QPDFObjectHandle -> Prop)
    (elements : list JSON) (items : list QPDFObjectHandle) (c : JSON)
    (h : QPDFObjectHandle) :
  items_match P elements items -> P c h ->
  items_match P (elements ++ [c]) (items ++ [h]).
Proof.
  revert items. induction elements as [| c0 elements IH];
    intros [| h0 items]; simpl; try done.
  intros [Hhead Htail] HP. split; [exact Hhead | apply IH; assumption].
Qed.

(** The objects of a value are in its part of the heap: what is built
    stays built when other parts change and when the heap grows. *)
Lemma built_mono (heap heap' : list QPDFObject) (lo hi lo' hi' : nat)
    (v : JSON) :
  (lo' <= lo)%nat -> (hi <= hi')%nat ->
  (forall l, (lo <= l < hi)%nat -> heap' !! l = heap !! l) ->
  forall h, built heap lo hi v h -> built heap' lo' hi' v h.
Proof.
  intros Hlo Hhi Hsame.
  induction v as [members s e IH | elements s e IH | s e | b s e | t s e
                 | t s e] using JSON_nested_ind; intros h.
  - simpl. intros (l & -> & Hl & items & Hheap & Hdom & Hm).
    exists l. split; [reflexivity |]. split; [lia |].
    exists items. rewrite Hsame by exact Hl.
    split; [exact Hheap |]. split; [exact Hdom |].
    eapply members_match_impl; [exact IH | exact Hm].
  - simpl. intros (l & -> & Hl & items & Hheap & Hm).
    exists l. split; [reflexivity |]. split; [lia |].
    exists items. rewrite Hsame by exact Hl.
    split; [exact Hheap |].
    eapply items_match_impl; [exact IH | exact Hm].
  - simpl. intros (l & -> & Hl & Hheap). exists l.
    rewrite Hsame by exact Hl. repeat split; try lia. exact Hheap.
  - simpl. intros (l & -> & Hl & Hheap). exists l.
    rewrite Hsame by exact Hl. repeat split; try lia. exact Hheap.
  - simpl. intros (l & -> & Hl & Hheap). exists l.
    rewrite Hsame by exact Hl. repeat split; try lia. exact Hheap.
  - cbn [built]. destruct (reference (JSON_string t s e)); [done |].
    intros (l & -> & Hl & Hheap). exists l.
    rewrite Hsame by exact Hl. repeat split; try lia. exact Hheap.
Qed.

Ltac split_reserved :=
  match goal with
  | |- context [ObjectGraph.isReserved ?q ?h] =>
      destruct (ObjectGraph.isReserved q h); simpl
  end.

(** What [makeObject] does for a value that is not a reference: one new
    object, denoted by a direct handle, and pushed if it is a container. *)
Lemma makeObject_node (v : JSON) (r : JSONReactor) :
  reference v = None ->
  exists r1,
    makeObject v r
    = (Return (h_direct (length (object_heap (pdf r)))), r1) /\
    object_heap (pdf r1) = (object_heap (pdf r) ++ [new_node v])%list /\
    obj_cache (pdf r1) = obj_cache (pdf r) /\
    (trailer (pdf r1) = trailer (pdf r) /\
     pdf_version (pdf r1) = pdf_version (pdf r)) /\
    control r1 = control r /\ next_state r1 = next_state r /\
    parse_error r1 = parse_error r /\
    object_stack r1
    = (if isDictionary v || isArray v
       then h_direct (length (object_heap (pdf r))) :: object_stack r
       else object_stack r) /\
    (seen_top r1 = seen_top r /\ seen_entry r1 = seen_entry r) /\
    (recognized v = true -> errors r1 = errors r).
Proof.
  intros Href. destruct_reactor r.
  destruct v as [members s e | elements s e | s e | b s e | t s e | t s e];
    unfold makeObject, recognized; unfold_monad; simpl.
  - eexists. repeat split.
  - eexists. repeat split.
  - eexists. repeat split.
  - eexists. repeat split.
  - destruct (QUtil.is_long_long t); eexists; repeat split.
  - unfold reference in Href. simpl in Href.
    destruct (Regex.INDIRECT_OBJ_RE t) as [[m1 m2] |]; [discriminate |].
    destruct (Regex.UNICODE_RE t); [eexists; repeat split |].
    destruct (Regex.BINARY_RE t); [eexists; repeat split |].
    destruct (Regex.NAME_RE t); eexists; repeat split; discriminate.
Qed.

Lemma heap_setObjectDescription (h : QPDFObjectHandle) (d : string)
    (q : QPDF) :
  object_heap (ObjectGraph.setObjectDescription h d q) = object_heap q.
Proof.
  unfold ObjectGraph.setObjectDescription.
  destruct (ObjectGraph.loc_of q h); reflexivity.
Qed.

Lemma trailer_setObjectDescription (h : QPDFObjectHandle) (d : string)
    (q : QPDF) :
  trailer (ObjectGraph.setObjectDescription h d q) = trailer q.
Proof.
  unfold ObjectGraph.setObjectDescription.
  destruct (ObjectGraph.loc_of q h); reflexivity.
Qed.

Lemma version_setObjectDescription (h : QPDFObjectHandle) (d : string)
    (q : QPDF) :
  pdf_version (ObjectGraph.setObjectDescription h d q) = pdf_version q.
Proof.
  unfold ObjectGraph.setObjectDescription.
  destruct (ObjectGraph.loc_of q h); reflexivity.
Qed.

Lemma roots_kept_refl (q : QPDF) : roots_kept q q.
Proof. split; [intros og l H; exact H | split; reflexivity]. Qed.

Lemma roots_kept_trans (q1 q2 q3 : QPDF) :
  roots_kept q1 q2 -> roots_kept q2 q3 -> roots_kept q1 q3.
Proof.
  intros (Ht1 & Hr1 & Hv1) (Ht2 & Hr2 & Hv2).
  split; [| split; congruence].
  intros og l H. apply Ht2, Ht1, H.
Qed.

Lemma settled_refl (b : bool) (r : JSONReactor) : settled b r r.
Proof.
  split; [apply roots_kept_refl |]. split; [split; reflexivity |].
  reflexivity.
Qed.

Lemma settled_trans (b1 b2 : bool) (r1 r2 r3 : JSONReactor) :
  settled b1 r1 r2 -> settled b2 r2 r3 -> settled (b1 && b2) r1 r3.
Proof.
  intros (Hroots1 & [Htop1 Hentry1] & Herr1) (Hroots2 & [Htop2 Hentry2] & Herr2).
  split; [exact (roots_kept_trans _ _ _ Hroots1 Hroots2) |].
  split; [split; congruence |].
  intros Hb. apply andb_prop in Hb as [Hb1 Hb2].
  rewrite (Herr2 Hb2). exact (Herr1 Hb1).
Qed.

(** Only what [settled] looks at matters. *)
Lemma settled_view (b : bool) (r1 r1' r2 r2' : JSONReactor) :
  pdf r1' = pdf r1 -> pdf r2' = pdf r2 ->
  seen_top r1' = seen_top r1 -> seen_top r2' = seen_top r2 ->
  seen_entry r1' = seen_entry r1 -> seen_entry r2' = seen_entry r2 ->
  errors r1' = errors r1 -> errors r2' = errors r2 ->
  settled b r1 r2 -> settled b r1' r2'.
Proof.
  unfold settled. intros -> -> -> -> -> -> -> ->. auto.
Qed.

Lemma clean_recognized (c : JSON) : clean c = true -> recognized c = true.
Proof. destruct c; simpl; auto. Qed.

Lemma fits_reference (c : JSON) (og : QPDFObjGen) :
  reference c = Some og -> fits c = true -> in_int og = true.
Proof.
  intros Href. destruct c; try discriminate Href; simpl; rewrite Href; auto.
Qed.

Lemma table_setObjectDescription (h : QPDFObjectHandle) (d : string)
    (q : QPDF) :
  obj_cache (ObjectGraph.setObjectDescription h d q) = obj_cache q.
Proof.
  unfold ObjectGraph.setObjectDescription.
  destruct (ObjectGraph.loc_of q h); reflexivity.
Qed.

(** What [makeObject] does for a reference: the handle is the indirect
    handle of the target, which is reserved if it is new. *)
Lemma makeObject_reference (v : JSON) (r : JSONReactor) (og : QPDFObjGen) :
  reference v = Some og -> in_int og = true ->
  exists r1 extra,
    makeObject v r = (Return (h_indirect og), r1) /\
    object_heap (pdf r1) = (object_heap (pdf r) ++ extra)%list /\
    roots_kept (pdf r) (pdf r1) /\
    control r1 = control r /\ next_state r1 = next_state r /\
    parse_error r1 = parse_error r /\
    object_stack r1 = object_stack r /\
    (seen_top r1 = seen_top r /\ seen_entry r1 = seen_entry r) /\
    errors r1 = errors r.
Proof.
  intros Href Hfit. destruct_reactor r.
  destruct v as [members s e | elements s e | s e | b s e | t s e | t s e];
    try discriminate Href.
  unfold reference in Href. simpl in Href.
  unfold makeObject; unfold_monad; simpl.
  destruct (Regex.INDIRECT_OBJ_RE t) as [[m1 m2] |]; [| discriminate].
  injection Href as <-.
  rewrite (reserveObject_fits m1 m2 Hfit).
  unfold reserve; unfold_monad; simpl.
  unfold ObjectGraph.reserveObjectIfNotExists. simpl.
  destruct (obj_cache q !! _) as [l |] eqn:Hcache; simpl.
  - split_reserved;
      (eexists; exists []; split; [reflexivity |]; simpl;
       rewrite heap_setObjectDescription, app_nil_r;
       split; [reflexivity |]; split; [| repeat split];
       split;
         [| rewrite trailer_setObjectDescription,
              version_setObjectDescription; split; reflexivity];
       intros og' l' H; rewrite table_setObjectDescription; exact H).
  - split_reserved;
      (eexists; exists [ot_reserved]; split; [reflexivity |]; simpl;
       rewrite heap_setObjectDescription;
       split; [reflexivity |]; split; [| repeat split];
       split;
         [| rewrite trailer_setObjectDescription,
              version_setObjectDescription; split; reflexivity];
       intros og' l' H; rewrite table_setObjectDescription; simpl;
       apply lookup_insert_Some; right; split; [| exact H];
       intros <-; generalize (eq_trans (eq_sym H) Hcache); discriminate).
Qed.

(** A reference string that names an object whose id or generation does
    not fit an [int] makes [makeObject] throw, before anything is done. *)
Lemma makeObject_reference_range (v : JSON) (r : JSONReactor)
    (og : QPDFObjGen) :
  reference v = Some og -> in_int og = false ->
  exists what, makeObject v r = (Raise (runtime_error what), r).
Proof.
  intros Href Hfit.
  destruct v as [members s e | elements s e | s e | b s e | t s e | t s e];
    try discriminate Href.
  unfold reference in Href. simpl in Href.
  destruct (Regex.INDIRECT_OBJ_RE t) as [[m1 m2] |] eqn:Hre;
    [| discriminate].
  injection Href as <-.
  destruct (reserveObject_range m1 m2 r Hfit) as [what Hres].
  exists what. unfold makeObject. unfold bind at 1.
  cbn [isDictionary isArray isNull getBool getNumber getString].
  cbv beta iota. rewrite Hre. cbv beta iota. rewrite Hres. reflexivity.
Qed.

Lemma update_direct (d : nat) (f : QPDFObject -> QPDFObject) (q : QPDF)
    (o : QPDFObject) :
  object_heap q !! d = Some o ->
  ObjectGraph.update (h_direct d) f q
  = with_object_heap (<[d := f o]> (object_heap q)) q.
Proof. intros H. unfold ObjectGraph.update. simpl. rewrite H. reflexivity. Qed.

Lemma run_done (r : JSONReactor) : run [] r = (Return tt, r).
Proof. reflexivity. Qed.

(** A container that starts inside a value. *)
Lemma start_inside (c : JSON) (r : JSONReactor) :
  next_state r = st_object ->
  deliver (if isDictionary c then ev_dictionaryStart else ev_arrayStart) r
  = (Return tt,
     set_state st_object (set_state_stack (state r :: state_stack r) r)).
Proof.
  intros Hnext. destruct_reactor r. simpl in Hnext. subst nst.
  destruct (isDictionary c); reflexivity.
Qed.

(** A container that ends inside a value: the object is popped. *)
Lemma end_inside (c : JSON) (r : JSONReactor) (top : QPDFObjectHandle)
    (stk : list QPDFObjectHandle) (states : list state_e) :
  state_stack r = st_object :: states -> parse_error r = false ->
  object_stack r = top :: stk ->
  containerEnd c r
  = (Return tt,
     set_object_stack stk (set_state_stack states (set_state st_object r))).
Proof.
  intros Hss Hpe Hstk. rewrite containerEnd_closing, Hss.
  destruct_reactor r. simpl in *. subst.
  unfold closing; unfold_monad. reflexivity.
Qed.

(** An item inside a value: the object for it is made, then put into the
    container on top of the stack. *)
Lemma dictionaryItem_inside (key : string) (c : JSON) (r : JSONReactor)
    (d : nat) (stk : list QPDFObjectHandle)
    (items : gmap string QPDFObjectHandle) :
  inside r d stk -> object_heap (pdf r) !! d = Some (ot_dictionary items) ->
  deliver (ev_dictionaryItem key c) r
  = match makeObject c r with
    | (Return item, r1) =>
        (Return tt,
         set_pdf (ObjectGraph.replaceKey (h_direct d) key item (pdf r1)) r1)
    | (Raise x, r1) => (Raise x, r1)
    end.
Proof.
  intros (Hst & Hnext & Hpe & Hstk) Hd.
  destruct (makeObject c r) as [[item | x] r1] eqn:Hmake;
    unfold deliver, dictionaryItem; unfold_monad;
    rewrite Hst, Hpe, Hstk; unfold_monad; cbn [negb]; cbv beta iota;
    unfold ObjectGraph.isStream, ObjectGraph.resolve, ObjectGraph.loc_of;
    rewrite Hd, Hmake; reflexivity.
Qed.

Lemma arrayItem_inside (c : JSON) (r : JSONReactor) (d : nat)
    (stk : list QPDFObjectHandle) :
  inside r d stk ->
  deliver (ev_arrayItem c) r
  = match makeObject c r with
    | (Return item, r1) =>
        (Return tt,
         set_pdf (ObjectGraph.appendItem (h_direct d) item (pdf r1)) r1)
    | (Raise x, r1) => (Raise x, r1)
    end.
Proof.
  intros (Hst & Hnext & Hpe & Hstk).
  destruct (makeObject c r) as [[item | x] r1] eqn:Hmake;
    unfold deliver, arrayItem; unfold_monad;
    rewrite Hst, Hpe, Hstk; unfold_monad; cbn [negb]; cbv beta iota;
    rewrite Hmake; reflexivity.
Qed.

Ltac fields :=
  cbn [pdf set_pdf set_state set_state_stack set_object_stack object_heap
       with_object_heap obj_cache state state_stack next_state parse_error
       object_stack].

(** One member of a container under construction: its object is made and
    put into the container, and if the member is itself a container its own
    members are put into it before the calls go on. *)
Lemma item_built (c : JSON) (e : event)
    (attach : QPDFObjectHandle -> QPDFObject -> QPDFObject)
    (r : JSONReactor) (d : nat) (stk : list QPDFObjectHandle)
    (o : QPDFObject) :
  (isDictionary c || isArray c = true -> fills c) ->
  fits c = true ->
  inside r d stk -> object_heap (pdf r) !! d = Some o ->
  deliver e r
  = match makeObject c r with
    | (Return item, r1) =>
        (Return tt,
         set_pdf (ObjectGraph.update (h_direct d) (attach item) (pdf r1)) r1)
    | (Raise x, r1) => (Raise x, r1)
    end ->
  exists r' item,
    run (e :: container_events c) r = (Return tt, r') /\
    inside r' d stk /\ state_stack r' = state_stack r /\
    object_heap (pdf r') !! d = Some (attach item o) /\
    built (object_heap (pdf r')) (length (object_heap (pdf r)))
      (length (object_heap (pdf r'))) c item /\
    (length (object_heap (pdf r)) <= length (object_heap (pdf r')))%nat /\
    (forall l, (l < length (object_heap (pdf r)))%nat -> l <> d ->
               object_heap (pdf r') !! l = object_heap (pdf r) !! l) /\
    settled (clean c) r r'.
Proof.
  intros Hfill Hfits (Hst & Hnext & Hpe & Hstk) Hd Hdeliver.
  assert (Hdlt : (d < length (object_heap (pdf r)))%nat)
    by (eapply lookup_lt_Some; exact Hd).
  destruct (reference c) as [og |] eqn:Href.
  - destruct (makeObject_reference c r og Href
                (fits_reference c og Href Hfits))
      as (r1 & extra & Hmake & Hheap1 & Htab1 & Hctl1 & Hnext1 & Hpe1 & Hstk1
          & Hseen1 & Herr1).
    rewrite Hmake in Hdeliver.
    assert (Hd1 : object_heap (pdf r1) !! d = Some o)
      by (rewrite Hheap1; apply lookup_app_l_Some; exact Hd).
    rewrite (update_direct d _ _ o Hd1) in Hdeliver.
    assert (Hscalar : container_events c = [])
      by (destruct c; try discriminate Href; reflexivity).
    unfold control in Hctl1. injection Hctl1 as Hst1 Hss1.
    eexists. exists (h_indirect og).
    split; [rewrite Hscalar, run_cons, Hdeliver; reflexivity |].
    fields. split; [unfold inside; simpl; intuition congruence |].
    split; [exact Hss1 |].
    split; [apply list_lookup_insert_eq; rewrite Hheap1, length_app; lia |].
    split; [apply (proj2 (built_reference _ _ _ _ _ _ Href)); reflexivity |].
    rewrite length_insert, Hheap1, length_app.
    split; [lia |]. split.
    { intros l Hl Hne. rewrite list_lookup_insert_ne by congruence.
      apply lookup_app_l. exact Hl. }
    split; [exact Htab1 |]. split; [exact Hseen1 |]. intros _. exact Herr1.
  - destruct (makeObject_node c r Href)
      as (r1 & Hmake & Hheap1 & Htab1 & Htrl1 & Hctl1 & Hnext1 & Hpe1
          & Hstk1 & Hseen1 & Herr1).
    rewrite Hmake in Hdeliver.
    assert (Hd1 : object_heap (pdf r1) !! d = Some o)
      by (rewrite Hheap1; apply lookup_app_l_Some; exact Hd).
    rewrite (update_direct d _ _ o Hd1) in Hdeliver.
    unfold control in Hctl1. injection Hctl1 as Hst1 Hss1.
    set (lo := length (object_heap (pdf r))) in *.
    set (r2 := set_pdf _ r1) in Hdeliver.
    assert (Hheap2 : object_heap (pdf r2)
                     = <[d := attach (h_direct lo) o]>
                         (object_heap (pdf r) ++ [new_node c])%list)
      by (unfold r2; simpl; rewrite Hheap1; reflexivity).
    assert (Hlen2 : length (object_heap (pdf r2)) = S lo)
      by (rewrite Hheap2, length_insert, length_app; simpl; lia).
    assert (Hnew2 : object_heap (pdf r2) !! lo = Some (new_node c)).
    { rewrite Hheap2, list_lookup_insert_ne by lia.
      rewrite lookup_app_r by (unfold lo; lia).
      unfold lo. rewrite Nat.sub_diag. reflexivity. }
    assert (Hd2 : object_heap (pdf r2) !! d
                  = Some (attach (h_direct lo) o)).
    { rewrite Hheap2. apply list_lookup_insert_eq.
      rewrite length_app. unfold lo in *. lia. }
    assert (Hframe2 : forall l, (l < lo)%nat -> l <> d ->
              object_heap (pdf r2) !! l = object_heap (pdf r) !! l).
    { intros l Hl Hne. rewrite Hheap2, list_lookup_insert_ne by congruence.
      apply lookup_app_l. exact Hl. }
    assert (Htab2 : settled (clean c) r r2).
    { unfold r2. split; [split; simpl; [rewrite Htab1; auto | exact Htrl1] |].
      split; [exact Hseen1 |].
      intros Hclean. apply Herr1, clean_recognized, Hclean. }
    destruct (isDictionary c || isArray c) eqn:Hc.
    + specialize (Hfill eq_refl).
      set (r3 := set_state st_object
                   (set_state_stack (state r2 :: state_stack r2) r2)).
      destruct (Hfill r3 lo (h_direct d :: stk) Hfits)
        as (r4 & Hrun4 & (Hst4 & Hnext4 & Hpe4 & Hstk4) & Hss4 & Hbuilt4
            & Hframe4 & Htab4).
      { unfold inside, r3, r2. simpl. rewrite Hstk1, Hstk.
        intuition congruence. }
      { exact Hlen2. }
      { exact Hnew2. }
      assert (Hend : containerEnd c r4
                = (Return tt,
                   set_object_stack (h_direct d :: stk)
                     (set_state_stack (state_stack r)
                        (set_state st_object r4)))).
      { apply (end_inside c r4 (h_direct lo)); [| exact Hpe4 | exact Hstk4].
        rewrite Hss4. unfold r3, r2. simpl. congruence. }
      eexists. exists (h_direct lo).
      split.
      { rewrite (container_events_shape c Hc), run_cons, Hdeliver, run_cons.
        rewrite (start_inside c r2) by (unfold r2; simpl; congruence).
        fold r3. rewrite run_app, Hrun4, run_cons. cbn [deliver].
        rewrite Hend. reflexivity. }
      fields.
      assert (Hlen4 : (S lo <= length (object_heap (pdf r4)))%nat).
      { destruct c; try discriminate Hc; simpl in Hbuilt4;
          destruct Hbuilt4 as (l & [= <-] & Hl & _); lia. }
      split; [unfold inside; simpl; intuition congruence |].
      split; [reflexivity |].
      split; [rewrite Hframe4 by lia; exact Hd2 |].
      split; [exact Hbuilt4 |].
      split; [lia |].
      split.
      * intros l Hl Hne. rewrite Hframe4 by exact Hl. apply Hframe2; assumption.
      * rewrite <- (andb_diag (clean c)).
        eapply settled_trans; [exact Htab2 |].
        eapply settled_view; [| | | | | | | | exact Htab4]; reflexivity.
    + eexists. exists (h_direct lo).
      split.
      { rewrite (container_events_scalar c Hc), run_cons, Hdeliver.
        reflexivity. }
      fold r2. split; [unfold inside, r2; simpl; intuition congruence |].
      split; [unfold r2; simpl; exact Hss1 |].
      split; [exact Hd2 |].
      split.
      { apply (proj2 (built_leaf _ _ _ _ _ Href Hc)). exists lo.
        split; [reflexivity |]. split; [lia | exact Hnew2]. }
      split; [lia |]. split; [exact Hframe2 | exact Htab2].
Qed.

Lemma members_match_mono (heap heap' : list QPDFObject) (lo hi lo' hi' : nat)
    (items : gmap string QPDFObjectHandle) (members : list (string * JSON)) :
  (lo' <= lo)%nat -> (hi <= hi')%nat ->
  (forall l, (lo <= l < hi)%nat -> heap' !! l = heap !! l) ->
  members_match (built heap lo hi) items members ->
  members_match (built heap' lo' hi') items members.
Proof.
  intros Hlo Hhi Hsame. apply members_match_impl.
  apply Forall_forall. intros m _ h.
  apply built_mono; assumption.
Qed.

Lemma items_match_mono (heap heap' : list QPDFObject) (lo hi lo' hi' : nat)
    (elements : list JSON) (items : list QPDFObjectHandle) :
  (lo' <= lo)%nat -> (hi <= hi')%nat ->
  (forall l, (lo <= l < hi)%nat -> heap' !! l = heap !! l) ->
  items_match (built heap lo hi) elements items ->
  items_match (built heap' lo' hi') elements items.
Proof.
  intros Hlo Hhi Hsame. apply items_match_impl.
  apply Forall_forall. intros c _ h.
  apply built_mono; assumption.
Qed.

(** The members of a dictionary, one after the other. *)
Lemma members_filled (post : list (string * JSON)) :
  Forall (fun m => isDictionary m.2 || isArray m.2 = true -> fills m.2)
    post ->
  forall (pre : list (string * JSON)) (r : JSONReactor) (d : nat)
         (stk : list QPDFObjectHandle)
         (items : gmap string QPDFObjectHandle),
    forallb (fun m => fits m.2) post = true ->
    inside r d stk ->
    object_heap (pdf r) !! d = Some (ot_dictionary items) ->
    dom items = list_to_set pre.*1 ->
    members_match
      (built (object_heap (pdf r)) (S d) (length (object_heap (pdf r))))
      items pre ->
    exists r' items',
      run (flat_map (fun ic => ic.1 :: container_events ic.2)
             ((fun m => (ev_dictionaryItem m.1 m.2, m.2)) <$> post)) r
      = (Return tt, r') /\
      inside r' d stk /\ state_stack r' = state_stack r /\
      object_heap (pdf r') !! d = Some (ot_dictionary items') /\
      dom items' = list_to_set (pre ++ post)%list.*1 /\
      members_match
        (built (object_heap (pdf r')) (S d) (length (object_heap (pdf r'))))
        items' (pre ++ post)%list /\
      (length (object_heap (pdf r)) <= length (object_heap (pdf r')))%nat /\
      (forall l, (l < length (object_heap (pdf r)))%nat -> l <> d ->
                 object_heap (pdf r') !! l = object_heap (pdf r) !! l) /\
      settled (forallb (fun m => clean m.2) post) r r'.
Proof.
  induction 1 as [| m post Hm _ IH];
    intros pre r d stk items Hfits Hin Hd Hdom Hpre.
  - exists r, items. rewrite app_nil_r.
    repeat split; try assumption; try reflexivity; try apply Hin;
      apply roots_kept_refl.
  - assert (Hdlt : (d < length (object_heap (pdf r)))%nat)
      by (eapply lookup_lt_Some; exact Hd).
    cbn [forallb] in Hfits. apply andb_prop in Hfits as [Hfits1 Hfits].
    destruct (item_built m.2 (ev_dictionaryItem m.1 m.2)
                (fun item o =>
                   match o with
                   | ot_dictionary items0 =>
                       ot_dictionary (<[m.1 := item]> items0)
                   | _ => o
                   end)
                r d stk (ot_dictionary items) Hm Hfits1 Hin Hd
                (dictionaryItem_inside m.1 m.2 r d stk items Hin Hd))
      as (r1 & item & Hrun1 & Hin1 & Hss1 & Hd1 & Hbuilt1 & Hlen1 & Hframe1
          & Htab1).
    destruct (IH (pre ++ [m])%list r1 d stk (<[m.1 := item]> items) Hfits
                Hin1 Hd1)
      as (r' & items' & Hrun & Hin' & Hss' & Hd' & Hdom' & Hall' & Hlen'
          & Hframe' & Htab').
    + rewrite dom_insert_L, Hdom, fmap_app, list_to_set_app_L. simpl.
      rewrite union_empty_r_L. apply union_comm_L.
    + destruct m as [key c]. apply members_match_snoc.
      * eapply members_match_mono; [| exact Hlen1 | | exact Hpre]; [lia |].
        intros l Hl. apply Hframe1; lia.
      * eapply built_mono; [| | | exact Hbuilt1]; [lia | lia | reflexivity].
    + exists r', items'.
      split.
      { simpl flat_map. simpl fmap.
        change (run ((ev_dictionaryItem m.1 m.2 :: container_events m.2)
                     ++ flat_map
                          (fun ic => ic.1 :: container_events ic.2)
                          ((fun m0 => (ev_dictionaryItem m0.1 m0.2, m0.2))
                             <$> post))%list r = (Return tt, r')).
        rewrite run_app, Hrun1. exact Hrun. }
      split; [exact Hin' |]. split; [congruence |].
      split; [exact Hd' |].
      rewrite <- app_assoc in Hdom', Hall'.
      split; [exact Hdom' |]. split; [exact Hall' |].
      split; [lia |]. split.
      * intros l Hl Hne. rewrite Hframe' by (try lia; exact Hne).
        apply Hframe1; assumption.
      * exact (settled_trans _ _ _ _ _ Htab1 Htab').
Qed.

(** The elements of an array, one after the other. *)
Lemma elements_filled (post : list JSON) :
  Forall (fun c => isDictionary c || isArray c = true -> fills c) post ->
  forall (pre : list JSON) (r : JSONReactor) (d : nat)
         (stk : list QPDFObjectHandle) (items : list QPDFObjectHandle),
    forallb fits post = true ->
    inside r d stk ->
    object_heap (pdf r) !! d = Some (ot_array items) ->
    items_match
      (built (object_heap (pdf r)) (S d) (length (object_heap (pdf r))))
      pre items ->
    exists r' items',
      run (flat_map (fun ic => ic.1 :: container_events ic.2)
             ((fun c => (ev_arrayItem c, c)) <$> post)) r
      = (Return tt, r') /\
      inside r' d stk /\ state_stack r' = state_stack r /\
      object_heap (pdf r') !! d = Some (ot_array items') /\
      items_match
        (built (object_heap (pdf r')) (S d) (length (object_heap (pdf r'))))
        (pre ++ post)%list items' /\
      (length (object_heap (pdf r)) <= length (object_heap (pdf r')))%nat /\
      (forall l, (l < length (object_heap (pdf r)))%nat -> l <> d ->
                 object_heap (pdf r') !! l = object_heap (pdf r) !! l) /\
      settled (forallb clean post) r r'.
Proof.
  induction 1 as [| c post Hc _ IH];
    intros pre r d stk items Hfits Hin Hd Hpre.
  - exists r, items. rewrite app_nil_r.
    repeat split; try assumption; try reflexivity; try apply Hin;
      apply roots_kept_refl.
  - assert (Hdlt : (d < length (object_heap (pdf r)))%nat)
      by (eapply lookup_lt_Some; exact Hd).
    cbn [forallb] in Hfits. apply andb_prop in Hfits as [Hfits1 Hfits].
    destruct (item_built c (ev_arrayItem c)
                (fun item o =>
                   match o with
                   | ot_array items0 => ot_array (items0 ++ [item])%list
                   | _ => o
                   end)
                r d stk (ot_array items) Hc Hfits1 Hin Hd
                (arrayItem_inside c r d stk Hin))
      as (r1 & item & Hrun1 & Hin1 & Hss1 & Hd1 & Hbuilt1 & Hlen1 & Hframe1
          & Htab1).
    destruct (IH (pre ++ [c])%list r1 d stk (items ++ [item])%list Hfits
                Hin1 Hd1)
      as (r' & items' & Hrun & Hin' & Hss' & Hd' & Hall' & Hlen'
          & Hframe' & Htab').
    + apply items_match_snoc.
      * eapply items_match_mono; [| exact Hlen1 | | exact Hpre]; [lia |].
        intros l Hl. apply Hframe1; lia.
      * eapply built_mono; [| | | exact Hbuilt1]; [lia | lia | reflexivity].
    + exists r', items'.
      split.
      { simpl flat_map. simpl fmap.
        change (run ((ev_arrayItem c :: container_events c)
                     ++ flat_map
                          (fun ic => ic.1 :: container_events ic.2)
                          ((fun c0 => (ev_arrayItem c0, c0)) <$> post))%list
                  r
                = (Return tt, r')).
        rewrite run_app, Hrun1. exact Hrun. }
      split; [exact Hin' |]. split; [congruence |].
      split; [exact Hd' |].
      rewrite <- app_assoc in Hall'.
      split; [exact Hall' |].
      split; [lia |]. split.
      * intros l Hl Hne. rewrite Hframe' by (try lia; exact Hne).
        apply Hframe1; assumption.
      * exact (settled_trans _ _ _ _ _ Htab1 Htab').
Qed.

(** Every container is filled with what it describes. *)
Lemma containers_fill (c : JSON) :
  isDictionary c || isArray c = true -> fills c.
Proof.
  induction c as [members s e IH | elements s e IH | s e | b s e | t s e
                 | t s e] using JSON_nested_ind; try discriminate; intros _.
  - intros r d stk Hfits Hin Hlen Hnew.
    destruct (members_filled members IH [] r d stk ∅ Hfits Hin Hnew)
      as (r' & items' & Hrun & Hin' & Hss' & Hd' & Hdom' & Hall' & Hlen'
          & Hframe' & Htab'); [reflexivity | exact I |].
    exists r'. split; [exact Hrun |]. split; [exact Hin' |].
    split; [exact Hss' |]. split; [| split; [| exact Htab']].
    + simpl. exists d. split; [reflexivity |]. split; [lia |].
      exists items'. split; [exact Hd' |]. split; [exact Hdom' |].
      eapply members_match_mono; [| | | exact Hall']; [lia | lia | reflexivity].
    + intros l Hl. apply Hframe'; lia.
  - intros r d stk Hfits Hin Hlen Hnew.
    destruct (elements_filled elements IH [] r d stk [] Hfits Hin Hnew)
      as (r' & items' & Hrun & Hin' & Hss' & Hd' & Hall' & Hlen'
          & Hframe' & Htab'); [exact I |].
    exists r'. split; [exact Hrun |]. split; [exact Hin' |].
    split; [exact Hss' |]. split; [| split; [| exact Htab']].
    + simpl. exists d. split; [reflexivity |]. split; [lia |].
      exists items'. split; [exact Hd' |].
      eapply items_match_mono; [| | | exact Hall']; [lia | lia | reflexivity].
    + intros l Hl. apply Hframe'; lia.
Qed.

(** *** Where values are built: object entries, the trailer, streams *)

Ltac all_fields :=
  cbn [pdf set_pdf set_state set_state_stack set_object_stack
       set_next_state set_saw_value set_saw_dict set_reserved set_errors
       set_parse_error object_heap with_object_heap with_obj_cache
       with_trailer with_warnings obj_cache trailer pdf_version state
       state_stack next_state parse_error object_stack saw_value saw_dict]
    in *.

(** The key "value" of an object entry (lines 337-342 and 358-361): the
    object for the value is made, the table entry of the object on top of
    the stack is pointed at it, and it takes the top of the stack. *)
Lemma dictionaryItem_value (c : JSON) (r : JSONReactor)
    (tos : QPDFObjectHandle) (stk : list QPDFObjectHandle) :
  state r = st_object_top -> object_stack r = tos :: stk ->
  reference c = None ->
  exists r2,
    deliver (ev_dictionaryItem "value" c) r = (Return tt, r2) /\
    object_heap (pdf r2) = (object_heap (pdf r) ++ [new_node c])%list /\
    obj_cache (pdf r2)
    = <[ObjectGraph.getObjGen tos := length (object_heap (pdf r))]>
        (obj_cache (pdf r)) /\
    control r2 = control r /\ next_state r2 = st_object /\
    parse_error r2 = parse_error r /\
    object_stack r2
    = h_direct (length (object_heap (pdf r)))
      :: (if isDictionary c || isArray c then tos :: stk else stk) /\
    trailer (pdf r2) = trailer (pdf r) /\
    pdf_version (pdf r2) = pdf_version (pdf r) /\
    seen_top r2 = seen_top r /\ cur_object r2 = cur_object r /\
    saw_value r2 = true /\ saw_stream r2 = saw_stream r /\
    (recognized c = true -> errors r2 = errors r).
Proof.
  intros Hst Hstk Href.
  destruct (makeObject_node c (set_next_state st_object (set_saw_value true r))
              Href)
    as (r1 & Hmake & Hheap1 & Htab1 & (Htrl1 & Hver1) & Hctl1 & Hnext1 & Hpe1
        & Hstk1 & [Htop1 Hentry1] & Herr1).
  unfold seen_entry in Hentry1. simpl in Hentry1.
  injection Hentry1 as Hcur1 Hsval1 Hsstr1 _ _ _.
  change (seen_top (set_next_state st_object (set_saw_value true r)))
    with (seen_top r) in Htop1.
  change (errors (set_next_state st_object (set_saw_value true r)))
    with (errors r) in Herr1.
  unfold deliver, dictionaryItem, replaceObject, pdf_replaceObject.
  unfold_monad. rewrite Hst, Hstk. unfold_monad.
  cbn [length Nat.eqb String.eqb Ascii.eqb Bool.eqb].
  cbv beta iota. rewrite Hmake.
  cbn [ObjectGraph.replaceObject ObjectGraph.isInitialized].
  cbv beta iota. all_fields. rewrite Hstk1. all_fields. rewrite Hstk.
  unfold control in *. all_fields.
  destruct (isDictionary c || isArray c); cbv beta iota;
    (eexists; split; [reflexivity |]); all_fields;
    rewrite Hheap1, Htab1; repeat split; try congruence;
    first [exact Htop1 | exact Hcur1 | exact Hsval1 | exact Hsstr1
          | apply Herr1; assumption].
Qed.

(** What closing a value does to an object entry (lines 192-213): nothing
    but the checks of a stream, which can only record errors. *)
Lemma closing_object_top (value : JSON) (r : JSONReactor) :
  exists r',
    closing st_object_top value r = (Return tt, r') /\
    object_heap (pdf r') = object_heap (pdf r) /\
    obj_cache (pdf r') = obj_cache (pdf r) /\
    trailer (pdf r') = trailer (pdf r) /\
    control r' = control r /\ object_stack r' = object_stack r /\
    pdf_version (pdf r') = pdf_version (pdf r) /\
    parse_error r' = parse_error r /\
    seen_top r' = seen_top r /\ seen_entry r' = seen_entry r /\
    (saw_stream r = false -> errors r' = errors r).
Proof.
  destruct_reactor r. unfold closing; unfold_monad. simpl.
  destruct sstr, sdict, mbc, sdata, sdfile; simpl;
    eexists; repeat split; discriminate.
Qed.

(** The key "value" of an object entry and the calls for its value. *)
Lemma value_built (c : JSON) (r : JSONReactor)
    (tos : QPDFObjectHandle) (stk : list QPDFObjectHandle) :
  state r = st_object_top -> parse_error r = false ->
  object_stack r = tos :: stk -> reference c = None -> fits c = true ->
  exists r' l,
    run (ev_dictionaryItem "value" c :: container_events c) r
    = (Return tt, r') /\
    obj_cache (pdf r') !! ObjectGraph.getObjGen tos = Some l /\
    built (object_heap (pdf r')) (length (object_heap (pdf r)))
      (length (object_heap (pdf r'))) c (h_direct l) /\
    (forall l', (l' < length (object_heap (pdf r)))%nat ->
                object_heap (pdf r') !! l' = object_heap (pdf r) !! l') /\
    control r' = control r /\ parse_error r' = false /\
    (forall og x, og <> ObjectGraph.getObjGen tos ->
                  obj_cache (pdf r) !! og = Some x ->
                  obj_cache (pdf r') !! og = Some x) /\
    trailer (pdf r') = trailer (pdf r) /\
    pdf_version (pdf r') = pdf_version (pdf r) /\
    seen_top r' = seen_top r /\ cur_object r' = cur_object r /\
    saw_value r' = true /\ saw_stream r' = saw_stream r /\
    (clean c = true -> saw_stream r = false -> errors r' = errors r).
Proof.
  intros Hst Hpe Hstk Href Hfits.
  destruct (dictionaryItem_value c r tos stk Hst Hstk Href)
    as (r2 & Hitem & Hheap2 & Htab2 & Hctl2 & Hnext2 & Hpe2 & Hstk2 & Htrl2
        & Hver2 & Htop2 & Hcur2 & Hsval2 & Hsstr2 & Herr2).
  set (lo := length (object_heap (pdf r))) in *.
  unfold control in Hctl2. injection Hctl2 as Hst2 Hss2.
  assert (Hnew2 : object_heap (pdf r2) !! lo = Some (new_node c)).
  { rewrite Hheap2, lookup_app_r by (unfold lo; lia).
    unfold lo. rewrite Nat.sub_diag. reflexivity. }
  assert (Hframe2 : forall l', (l' < lo)%nat ->
            object_heap (pdf r2) !! l' = object_heap (pdf r) !! l')
    by (intros l' Hl; rewrite Hheap2; apply lookup_app_l; exact Hl).
  assert (Hkept2 : forall og x, og <> ObjectGraph.getObjGen tos ->
            obj_cache (pdf r) !! og = Some x ->
            obj_cache (pdf r2) !! og = Some x).
  { intros og x Hne H. rewrite Htab2, lookup_insert_ne by congruence.
    exact H. }
  destruct (isDictionary c || isArray c) eqn:Hc.
  - set (r3 := set_state st_object
                 (set_state_stack (state r2 :: state_stack r2) r2)).
    destruct (containers_fill c Hc r3 lo (tos :: stk) Hfits)
      as (r4 & Hrun4 & (Hst4 & Hnext4 & Hpe4 & Hstk4) & Hss4 & Hbuilt4
          & Hframe4 & (Htab4 & Htrl4 & Hver4) & [Htop4 Hentry4] & Herr4).
    { unfold inside, r3. simpl. rewrite Hstk2. intuition congruence. }
    { unfold r3. simpl. rewrite Hheap2, length_app. simpl. unfold lo. lia. }
    { exact Hnew2. }
    change (seen_top r3) with (seen_top r2) in Htop4.
    change (seen_entry r3) with (seen_entry r2) in Hentry4.
    change (errors r3) with (errors r2) in Herr4.
    unfold seen_entry in Hentry4.
    injection Hentry4 as Hcur4 Hsval4 Hsstr4 _ _ _.
    destruct (closing_object_top c
                (set_state_stack (state_stack r)
                   (set_state st_object_top r4)))
      as (r5 & Hclose & Hheap5 & Htab5 & Htrl5 & Hctl5 & _ & Hver5 & Hpe5
          & Htop5 & Hentry5 & Herr5).
    change (seen_top (set_state_stack (state_stack r)
                        (set_state st_object_top r4)))
      with (seen_top r4) in Htop5.
    change (seen_entry (set_state_stack (state_stack r)
                          (set_state st_object_top r4)))
      with (seen_entry r4) in Hentry5.
    change (saw_stream (set_state_stack (state_stack r)
                          (set_state st_object_top r4)))
      with (saw_stream r4) in Herr5.
    change (errors (set_state_stack (state_stack r)
                      (set_state st_object_top r4)))
      with (errors r4) in Herr5.
    unfold seen_entry in Hentry5.
    injection Hentry5 as Hcur5 Hsval5 Hsstr5 _ _ _.
    assert (Hend : containerEnd c r4 = (Return tt, r5)).
    { rewrite containerEnd_closing, Hss4. unfold r3. simpl.
      rewrite Hst2, Hst, Hss2. exact Hclose. }
    exists r5, lo. split.
    { rewrite (container_events_shape c Hc), run_cons, Hitem, run_cons.
      rewrite (start_inside c r2 Hnext2). fold r3.
      rewrite run_app, Hrun4, run_cons. cbn [deliver].
      rewrite Hend. reflexivity. }
    simpl in Hheap5, Htab5, Hctl5, Htrl5, Hver5, Hpe5. rewrite Hheap5.
    split.
    { rewrite Htab5. apply Htab4. unfold r3. simpl. rewrite Htab2.
      apply lookup_insert_eq. }
    split; [exact Hbuilt4 |].
    split.
    { intros l' Hl. rewrite Hframe4 by exact Hl. apply Hframe2. exact Hl. }
    split.
    { rewrite Hctl5. unfold control. simpl. rewrite Hst. reflexivity. }
    split; [congruence |].
    split.
    { intros og x Hne H. rewrite Htab5. apply Htab4. unfold r3. simpl.
      apply Hkept2; assumption. }
    unfold r3 in Htrl4, Hver4. simpl in Htrl4, Hver4.
    split; [congruence |]. split; [congruence |].
    split; [congruence |]. split; [congruence |].
    split; [congruence |]. split; [congruence |].
    intros Hclean Hnostream.
    rewrite Herr5 by congruence. rewrite (Herr4 Hclean).
    apply Herr2, clean_recognized, Hclean.
  - exists r2, lo. split.
    { rewrite (container_events_scalar c Hc), run_cons, Hitem. reflexivity. }
    split; [rewrite Htab2; apply lookup_insert_eq |].
    split.
    { apply (proj2 (built_leaf _ _ _ _ _ Href Hc)). exists lo.
      split; [reflexivity |].
      split; [rewrite Hheap2, length_app; simpl; lia | exact Hnew2]. }
    split; [exact Hframe2 |].
    split; [unfold control; congruence |].
    split; [congruence |].
    split; [exact Hkept2 |].
    repeat (split; [assumption |]).
    intros Hclean _. apply Herr2, clean_recognized, Hclean.
Qed.



(** The key "value" of the trailer entry, with a dictionary (lines
    363-367). *)
Lemma dictionaryItem_trailer_value (c : JSON) (r : JSONReactor) :
  state r = st_trailer -> isDictionary c = true ->
  exists r2,
    deliver (ev_dictionaryItem "value" c) r = (Return tt, r2) /\
    object_heap (pdf r2) = (object_heap (pdf r) ++ [new_node c])%list /\
    obj_cache (pdf r2) = obj_cache (pdf r) /\
    trailer (pdf r2) = h_direct (length (object_heap (pdf r))) /\
    control r2 = control r /\ next_state r2 = st_object /\
    parse_error r2 = parse_error r /\
    object_stack r2
    = h_direct (length (object_heap (pdf r))) :: object_stack r /\
    pdf_version (pdf r2) = pdf_version (pdf r) /\
    seen_top r2 = seen_top r /\ cur_object r2 = cur_object r /\
    saw_value r2 = true /\ errors r2 = errors r.
Proof.
  intros Hst Hdict.
  assert (Href : reference c = None)
    by (destruct c; try discriminate Hdict; reflexivity).
  assert (Hrec : recognized c = true)
    by (destruct c; try discriminate Hdict; reflexivity).
  destruct (makeObject_node c (set_next_state st_object (set_saw_value true r))
              Href)
    as (r1 & Hmake & Hheap1 & Htab1 & (Htrl1 & Hver1) & Hctl1 & Hnext1 & Hpe1
        & Hstk1 & [Htop1 Hentry1] & Herr1).
  specialize (Herr1 Hrec).
  unfold seen_entry in Hentry1. simpl in Hentry1.
  injection Hentry1 as Hcur1 Hsval1 _ _ _ _.
  change (seen_top (set_next_state st_object (set_saw_value true r)))
    with (seen_top r) in Htop1.
  change (errors (set_next_state st_object (set_saw_value true r)))
    with (errors r) in Herr1.
  unfold deliver, dictionaryItem, nestedState.
  unfold_monad. rewrite Hst, Hdict. unfold_monad.
  cbn [String.eqb Ascii.eqb Bool.eqb].
  cbv beta iota. rewrite Hmake. cbv beta iota.
  rewrite Hdict in Hstk1. cbn [orb] in Hstk1. unfold control in *.
  all_fields.
  eexists. split; [reflexivity |]. all_fields.
  rewrite Hheap1, Htab1. repeat split; try congruence;
    first [exact Htop1 | exact Hcur1 | exact Hsval1 | exact Herr1].
Qed.

(** The key "value" of the trailer entry and the calls for its value. *)
Lemma trailer_built (c : JSON) (r : JSONReactor) :
  state r = st_trailer -> parse_error r = false -> isDictionary c = true ->
  fits c = true ->
  exists r',
    run (ev_dictionaryItem "value" c :: container_events c) r
    = (Return tt, r') /\
    built (object_heap (pdf r')) (length (object_heap (pdf r)))
      (length (object_heap (pdf r'))) c (trailer (pdf r')) /\
    (forall l', (l' < length (object_heap (pdf r)))%nat ->
                object_heap (pdf r') !! l' = object_heap (pdf r) !! l') /\
    (forall og l, obj_cache (pdf r) !! og = Some l ->
                  obj_cache (pdf r') !! og = Some l) /\
    control r' = control r /\ parse_error r' = false /\
    pdf_version (pdf r') = pdf_version (pdf r) /\
    seen_top r' = seen_top r /\ cur_object r' = cur_object r /\
    saw_value r' = true /\ (clean c = true -> errors r' = errors r).
Proof.
  intros Hst Hpe Hdict Hfits.
  destruct (dictionaryItem_trailer_value c r Hst Hdict)
    as (r2 & Hitem & Hheap2 & Htab2 & Htrl2 & Hctl2 & Hnext2 & Hpe2 & Hstk2
        & Hver2 & Htop2 & Hcur2 & Hsval2 & Herr2).
  set (lo := length (object_heap (pdf r))) in *.
  unfold control in Hctl2. injection Hctl2 as Hst2 Hss2.
  assert (Hc : isDictionary c || isArray c = true)
    by (rewrite Hdict; reflexivity).
  set (r3 := set_state st_object
               (set_state_stack (state r2 :: state_stack r2) r2)).
  destruct (containers_fill c Hc r3 lo (object_stack r) Hfits)
    as (r4 & Hrun4 & (Hst4 & Hnext4 & Hpe4 & Hstk4) & Hss4 & Hbuilt4
        & Hframe4 & (Htab4 & Htrl4 & Hver4) & [Htop4 Hentry4] & Herr4).
  { unfold inside, r3. simpl. rewrite Hstk2. intuition congruence. }
  { unfold r3. simpl. rewrite Hheap2, length_app. simpl. unfold lo. lia. }
  { unfold r3. simpl. rewrite Hheap2, lookup_app_r by (unfold lo; lia).
    unfold lo. rewrite Nat.sub_diag. reflexivity. }
  assert (Hend : containerEnd c r4
            = (Return tt,
               set_state_stack (state_stack r) (set_state st_trailer r4))).
  { rewrite containerEnd_closing, Hss4. unfold r3. simpl.
    rewrite Hst2, Hst, Hss2. reflexivity. }
  eexists. split.
  { rewrite (container_events_shape c Hc), run_cons, Hitem, run_cons.
    rewrite (start_inside c r2 Hnext2). fold r3.
    rewrite run_app, Hrun4, run_cons. cbn [deliver].
    rewrite Hend. reflexivity. }
  cbn [pdf set_state set_state_stack parse_error].
  split.
  { rewrite Htrl4. unfold r3. simpl. rewrite Htrl2. exact Hbuilt4. }
  split.
  { intros l' Hl. rewrite Hframe4 by exact Hl. unfold r3. simpl.
    rewrite Hheap2. apply lookup_app_l. exact Hl. }
  split.
  { intros og l H. apply Htab4. unfold r3. simpl. rewrite Htab2. exact H. }
  split; [unfold control; simpl; rewrite Hst; reflexivity |].
  split; [exact Hpe4 |].
  change (seen_top r3) with (seen_top r2) in Htop4.
  change (seen_entry r3) with (seen_entry r2) in Hentry4.
  change (errors r3) with (errors r2) in Herr4.
  unfold seen_entry in Hentry4.
  injection Hentry4 as Hcur4 Hsval4 _ _ _ _.
  unfold r3 in Hver4. simpl in Hver4.
  split; [congruence |].
  split; [exact (eq_trans Htop4 Htop2) |].
  split; [exact (eq_trans Hcur4 Hcur2) |].
  split; [exact (eq_trans Hsval4 Hsval2) |].
  intros Hclean. exact (eq_trans (Herr4 Hclean) Herr2).
Qed.










(** *** The data of a stream *)

(** X15: the key "data" of a stream, with a string that lies in the input
    from offset start to offset end, quotes included.  The call returns and
    records no error; the stream on top of the stack keeps its dictionary
    and gets a data provider which, when it is called on the input, sends
    to the base64 decoder exactly the bytes between the two quotes. *)
Theorem stream_data_provides_quoted_text (text : string) (start end_ : Z)
    (r : JSONReactor) (tos : QPDFObjectHandle)
    (stk : list QPDFObjectHandle) (ls : nat) (d0 : QPDFObjectHandle)
    (data : option stream_data_provider) :
  state r = st_stream -> object_stack r = tos :: stk ->
  ObjectGraph.loc_of (pdf r) tos = Some ls ->
  object_heap (pdf r) !! ls = Some (ot_stream d0 data) ->
  0 <= start -> start + 2 <= end_ -> end_ <= QIntC.size_max ->
  exists r' p,
    dictionaryItem "data" (JSON_string text start end_) r
    = (Return true, r') /\
    object_heap (pdf r')
    = <[ls := ot_stream d0 (Some p)]> (object_heap (pdf r)) /\
    errors r' = errors r /\ warnings (pdf r') = warnings (pdf r) /\
    saw_data r' = true /\
    forall (granted : nat -> nat -> nat) (contents : list Byte.byte),
      exists ws,
        Provider.call granted contents p = Some ws /\
        concat ws
        = take (Z.to_nat (end_ - start - 2))
            (drop (Z.to_nat (start + 1)) contents).
Proof.
  intros Hst Hstk Hloc Hls Hstart Hlen Hend.
  assert (Hs : QIntC.wrap_size_t (start + 1) = start + 1)
    by (unfold QIntC.wrap_size_t, QIntC.size_max in *;
        apply Z.mod_small; lia).
  assert (He : QIntC.wrap_size_t (end_ - 1) = end_ - 1)
    by (unfold QIntC.wrap_size_t, QIntC.size_max in *;
        apply Z.mod_small; lia).
  assert (Hcmp : (end_ - 1 <? start + 1)%Z = false)
    by (apply Z.ltb_ge; lia).
  eexists. exists (provide_data (is_name r) (start + 1) (end_ - 1)).
  split; [| split; [| split; [| split; [| split]]]].
  - unfold dictionaryItem; unfold_monad. rewrite Hst, Hstk. unfold_monad.
    unfold ObjectGraph.isStream, ObjectGraph.resolve. rewrite Hloc, Hls.
    cbn [length Nat.eqb negb String.eqb Ascii.eqb Bool.eqb getString
         getStart getEnd].
    cbv beta iota. rewrite Hs, He, Hcmp.
    unfold ObjectGraph.replaceStreamData, ObjectGraph.update.
    cbn [pdf set_saw_data]. rewrite Hloc, Hls. reflexivity.
  - reflexivity.
  - reflexivity.
  - reflexivity.
  - reflexivity.
  - intros granted contents. eexists. split; [reflexivity |].
    unfold Provider.writes, QIntC.to_offset.
    replace (QIntC.wrap_size_t (end_ - 1 - (start + 1)))
      with (end_ - start - 2)
      by (unfold QIntC.wrap_size_t, QIntC.size_max in *;
          rewrite Z.mod_small by lia; lia).
    apply pump_range.
Qed.

Lemma stream_data_provides_quoted_text_witness :
  let r := Samples.in_stream in
  exists r' p,
    dictionaryItem "data" (JSON_string "cG90YXRv" 74 84) r
    = (Return true, r') /\
    object_heap (pdf r')
    = <[4%nat := ot_stream (h_direct 3) (Some p)]> (object_heap (pdf r)) /\
    errors r' = errors r /\ warnings (pdf r') = warnings (pdf r) /\
    saw_data r' = true /\
    forall (granted : nat -> nat -> nat) (contents : list Byte.byte),
      exists ws,
        Provider.call granted contents p = Some ws /\
        concat ws
        = take (Z.to_nat (84 - 74 - 2)) (drop (Z.to_nat (74 + 1)) contents).
Proof.
  intros r.
  apply (stream_data_provides_quoted_text "cG90YXRv" 74 84 r (h_direct 4) []
           4 (h_direct 3) None).
  - vm_compute. reflexivity.
  - vm_compute. reflexivity.
  - vm_compute. reflexivity.
  - vm_compute. reflexivity.
  - lia.
  - lia.
  - unfold QIntC.size_max. lia.
Defined.

(** *** The shape of what the writer writes *)

Lemma entries_from_app (first : bool) (ops1 ops2 : list write_op) :
  entries_from first ops1 ->
  entries_from (still_first first ops1) ops2 ->
  entries_from first (ops1 ++ ops2).
Proof.
  revert first. induction ops1 as [| op ops1 IH]; intros first; simpl.
  - intros _ H. exact H.
  - destruct op as [| | f key value depth | |]; try (intros []; fail).
    destruct depth as [| [| [| depth]]]; try (intros []; fail).
    intros [Hf H1] H2. split; [exact Hf |].
    apply IH; [exact H1 |].
    destruct ops1; exact H2.
Qed.

Lemma still_first_app (first : bool) (ops1 ops2 : list write_op) :
  still_first (still_first first ops1) ops2 = still_first first (ops1 ++ ops2).
Proof. destruct ops1, ops2; reflexivity. Qed.

Section ShapeFacts.

Variable getJSON : QPDF -> QPDFObjectHandle -> Z -> JSON.
Variable getStreamJSON :
  QPDF -> QPDFObjectHandle -> Z -> qpdf_json_stream_data_e ->
  qpdf_stream_decode_level_e -> bool -> string -> JSON * string.
Variable unparse_direct : QPDF -> QPDFObjectHandle -> string.

Lemma writeJSONObject_entry (q : QPDF) (version : Z) (p : output)
    (first : bool) (key : string) (obj : QPDFObjectHandle) :
  exists j,
    writeJSONObject getJSON q version p first key obj
    = (mkOutput (pipeline p ++ [w_dictionary_item first key j 2]) (files p),
       false).
Proof. eexists. reflexivity. Qed.

Lemma writeJSONStream_entry (q : QPDF) (version : Z) (p : output)
    (first : bool) (key : string) (obj : QPDFObjectHandle)
    (decode_level : qpdf_stream_decode_level_e)
    (json_stream_data : qpdf_json_stream_data_e) (file_prefix : string) :
  exists j fs,
    writeJSONStream getStreamJSON q version p first key obj decode_level
      json_stream_data file_prefix
    = (mkOutput (pipeline p ++ [w_dictionary_item first key j 2]) fs, false).
Proof.
  unfold writeJSONStream.
  destruct (getStreamJSON _ _ _ _ _ _ _) as [sj bytes].
  destruct json_stream_data; eexists; eexists; reflexivity.
Qed.

(** The loop writes entries only, and hands on the mark. *)
Lemma write_objects_entries (q : QPDF) (version : Z)
    (decode_level : qpdf_stream_decode_level_e)
    (json_stream_data : qpdf_json_stream_data_e) (file_prefix : string)
    (all_objects : bool) (wanted_objects : gset string)
    (objects : list QPDFObjectHandle) (p : output) (first_object : bool) :
  exists entries,
    pipeline
      (write_objects getJSON getStreamJSON unparse_direct q version
         decode_level json_stream_data file_prefix all_objects
         wanted_objects objects p first_object).1
    = (pipeline p ++ entries)%list /\
    entries_from first_object entries /\
    (write_objects getJSON getStreamJSON unparse_direct q version
       decode_level json_stream_data file_prefix all_objects
       wanted_objects objects p first_object).2
    = still_first first_object entries.
Proof.
  revert p first_object.
  induction objects as [| obj objects IH]; intros p first_object; simpl.
  - exists []. rewrite app_nil_r. repeat split.
  - destruct (all_objects || bool_decide (_ ∈ wanted_objects)).
    + destruct (ObjectGraph.isStream q obj).
      * match goal with
        | |- context [writeJSONStream ?a ?b ?c ?d ?e ?f ?g ?h ?i ?j] =>
            destruct (writeJSONStream_entry b c d e f g h i j)
              as (j0 & fs & ->)
        end.
        cbv beta iota.
        match goal with
        | |- context [write_objects _ _ _ _ _ _ _ _ _ _ _ ?p1 ?f1] =>
            destruct (IH p1 f1) as (entries & Hp & He & Hf)
        end.
        eexists (_ :: entries). rewrite Hp, Hf. simpl.
        rewrite <- app_assoc. repeat split; [exact He |].
        destruct entries; reflexivity.
      * unfold writeJSONObject, JSONWriter.writeDictionaryItem.
        cbv beta iota.
        match goal with
        | |- context [write_objects _ _ _ _ _ _ _ _ _ _ _ ?p1 ?f1] =>
            destruct (IH p1 f1) as (entries & Hp & He & Hf)
        end.
        eexists (_ :: entries). rewrite Hp, Hf. simpl.
        rewrite <- app_assoc. repeat split; [exact He |].
        destruct entries; reflexivity.
    + cbv beta iota. apply IH.
Qed.

End ShapeFacts.

(** X16: what an export of version 2 sends to the pipeline.  After what was
    there before: the outer dictionary is opened, the key qpdf-v2 is written
    as its first member, the qpdf dictionary is opened, pdfversion is
    written as its first member, then maxobjectid, then the key objects,
    and the objects dictionary is opened; then come entries of the objects
    dictionary only, the first of them marked as first and all others not;
    then the three dictionaries are closed, innermost first, the objects
    dictionary being marked empty exactly if no entry was written, and a
    newline ends the output. *)
Theorem writeJSON_shape
    (getJSON : QPDF -> QPDFObjectHandle -> Z -> JSON)
    (getStreamJSON :
       QPDF -> QPDFObjectHandle -> Z -> qpdf_json_stream_data_e ->
       qpdf_stream_decode_level_e -> bool -> string -> JSON * string)
    (unparse_direct : QPDF -> QPDFObjectHandle -> string)
    (q : QPDF) (p : output) (decode_level : qpdf_stream_decode_level_e)
    (json_stream_data : qpdf_json_stream_data_e) (file_prefix : string)
    (wanted_objects : gset string) :
  exists entries,
    pipeline
      (writeJSON getJSON getStreamJSON unparse_direct q 2 p decode_level
         json_stream_data file_prefix wanted_objects).2
    = (pipeline p
       ++ [w_dictionary_open 0;
           w_dictionary_key true "qpdf-v2" 0;
           w_dictionary_open 1;
           w_dictionary_item true "pdfversion"
             (JSONWriter.makeString (Document.getPDFVersion q)) 1;
           w_dictionary_item false "maxobjectid"
             (JSONWriter.makeInt
                (QIntC.to_longlong (Document.getObjectCount q))) 1;
           w_dictionary_key false "objects" 1;
           w_dictionary_open 2]
       ++ entries
       ++ [w_dictionary_close (still_first true entries) 2;
           w_dictionary_close false 1;
           w_dictionary_close false 0;
           w_text (String (ascii_of_nat 10) EmptyString)])%list /\
    entries_from true entries.
Proof.
  unfold writeJSON.
  change (negb (2 =? 2)%Z) with false. cbv beta iota.
  unfold JSONWriter.writeDictionaryOpen, JSONWriter.writeDictionaryKey,
    JSONWriter.writeDictionaryItem, JSONWriter.writeDictionaryClose,
    JSONWriter.write_text.
  cbv beta iota zeta.
  match goal with
  | |- context [write_objects ?a ?b ?c ?d ?e ?f ?g ?h ?i ?j ?k ?l ?m] =>
      destruct (write_objects_entries a b c d e f g h i j k l m)
        as (entries & Hp & He & Hf);
      destruct (write_objects a b c d e f g h i j k l m) as [p1 f1]
  end.
  simpl in Hp, Hf. subst f1.
  destruct (bool_decide (wanted_objects = ∅)
            || bool_decide ("trailer" ∈ wanted_objects)).
  - unfold writeJSONObject, JSONWriter.writeDictionaryItem.
    set (w := w_dictionary_item (still_first true entries) "trailer"
                (JSONWriter.addDictionaryMember JSONWriter.makeDictionary
                   "value" (getJSON q (Document.getTrailer q) 2)) 2).
    exists (entries ++ [w])%list. split.
    + assert (still_first true (entries ++ [w]) = false) as ->
        by (destruct entries; reflexivity).
      simpl. rewrite Hp. rewrite <- !app_assoc. reflexivity.
    + apply entries_from_app; [exact He |]. simpl. auto.
  - exists entries. split; [| exact He].
    simpl. rewrite Hp. rewrite <- !app_assoc. reflexivity.
Qed.

(** *** Every reference is resolved *)

Lemma accounted_view (r r' : JSONReactor) :
  view r' = view r -> accounted r -> accounted r'.
Proof.
  unfold view, accounted, table_sound. intros [= Ht Hh Hr].
  rewrite Ht, Hh, Hr. auto.
Qed.

Lemma safe_bind {A B} (m : M A) (f : A -> M B) (r : JSONReactor) :
  safe m r ->
  (forall a r1, m r = (Return a, r1) -> safe (f a) r1) ->
  safe (bind m f) r.
Proof.
  intros Hm Hf Hacc b r' Hrun. unfold bind in Hrun.
  specialize (Hm Hacc).
  destruct (m r) as [[a | e] r1]; [| discriminate].
  apply (Hf a r1 eq_refl (Hm a r1 eq_refl) b r' Hrun).
Qed.

Lemma safe_view {A} (m : M A) (r : JSONReactor) :
  view (m r).2 = view r -> safe m r.
Proof.
  intros Hv Hacc a r' Hrun. rewrite Hrun in Hv.
  apply (accounted_view r r' Hv Hacc).
Qed.

Lemma safe_back {A} (v : list A) (r : JSONReactor) : safe (back v) r.
Proof. apply safe_view. destruct v; reflexivity. Qed.

Lemma safe_pop_back {A} (v : list A) (r : JSONReactor) :
  safe (pop_back v) r.
Proof. apply safe_view. destruct v; reflexivity. Qed.

Lemma safe_error (offset : Z) (msg : string) (r : JSONReactor) :
  safe (error offset msg) r.
Proof. apply safe_view. reflexivity. Qed.

Lemma safe_alloc (o : QPDFObject) (r : JSONReactor) :
  safe (on_pdf (ObjectGraph.alloc o)) r.
Proof.
  intros (Hsound & Hacc & Hback) a r' [= <- <-]. split; [| split].
  - intros og l H. simpl in *. rewrite length_app.
    specialize (Hsound og l H). lia.
  - intros og l H Hres. simpl in *.
    apply (Hacc og l H).
    rewrite lookup_app_l in Hres by exact (Hsound og l H). exact Hres.
  - intros og Hin. simpl in *.
    destruct (Hback og Hin) as (l & H & Hres). exists l.
    split; [exact H |]. apply lookup_app_l_Some. exact Hres.
Qed.

Lemma safe_reserveStream (o g : Z) (r : JSONReactor) :
  safe (on_pdf (ObjectGraph.reserveStream o g)) r.
Proof.
  intros (Hsound & Hacc & Hback) a r'.
  unfold on_pdf, ObjectGraph.reserveStream, ObjectGraph.alloc. simpl.
  intros [= <- <-]. split; [| split].
  - intros og l H. simpl in *. rewrite !length_app.
    specialize (Hsound og l H). lia.
  - intros og l H Hres. simpl in *.
    apply (Hacc og l H).
    pose proof (Hsound og l H) as Hl.
    rewrite <- app_assoc, lookup_app_l in Hres by exact Hl. exact Hres.
  - intros og Hin. simpl in *.
    destruct (Hback og Hin) as (l & H & Hres). exists l.
    split; [exact H |]. rewrite <- app_assoc.
    apply lookup_app_l_Some. exact Hres.
Qed.

Lemma reserveStream_direct_ok (o g : Z) (r r1 : JSONReactor)
    (a : QPDFObjectHandle) :
  on_pdf (ObjectGraph.reserveStream o g) r = (Return a, r1) ->
  direct_ok (object_heap (pdf r1)) a.
Proof.
  unfold on_pdf, ObjectGraph.reserveStream, ObjectGraph.alloc. simpl.
  intros [= <- <-]. simpl. exists (ot_stream
    (h_direct (length (object_heap (pdf r)))) None).
  split; [| discriminate].
  rewrite lookup_app_r by (rewrite length_app; simpl; lia).
  rewrite length_app. simpl.
  replace (length (object_heap (pdf r)) + 1
           - (length (object_heap (pdf r)) + 1))%nat with 0%nat by lia.
  reflexivity.
Qed.

Lemma safe_update (h : QPDFObjectHandle) (f : QPDFObject -> QPDFObject)
    (r : JSONReactor) :
  (forall o, f o = ot_reserved <-> o = ot_reserved) ->
  safe (update_pdf (ObjectGraph.update h f)) r.
Proof.
  intros Hf Hboth a r' [= <- <-]. unfold ObjectGraph.update.
  destruct (ObjectGraph.loc_of (pdf r) h) as [l0 |];
    [| apply (accounted_view r); [reflexivity | exact Hboth]].
  destruct (object_heap (pdf r) !! l0) as [o |] eqn:E;
    [| apply (accounted_view r); [reflexivity | exact Hboth]].
  destruct Hboth as (Hsound & Hacc & Hback).
  split; [| split].
  - intros og l H. simpl in *. rewrite length_insert.
    exact (Hsound og l H).
  - intros og l H Hres. simpl in *. apply (Hacc og l H).
    destruct (decide (l0 = l)) as [<- | Hne].
    + rewrite list_lookup_insert_eq in Hres
        by (eapply lookup_lt_Some; exact E).
      injection Hres as Hres. rewrite E. f_equal. apply Hf. exact Hres.
    + rewrite list_lookup_insert_ne in Hres by exact Hne. exact Hres.
  - intros og Hin. simpl in *.
    destruct (Hback og Hin) as (l & H & Hres). exists l.
    split; [exact H |].
    destruct (decide (l0 = l)) as [<- | Hne].
    + rewrite list_lookup_insert_eq by (eapply lookup_lt_Some; exact E).
      f_equal. apply Hf. congruence.
    + rewrite list_lookup_insert_ne by exact Hne. exact Hres.
Qed.

Lemma safe_setObjectDescription (h : QPDFObjectHandle) (d : string)
    (r : JSONReactor) :
  safe (update_pdf (ObjectGraph.setObjectDescription h d)) r.
Proof.
  apply safe_view. unfold view, update_pdf, modify. simpl.
  rewrite table_setObjectDescription, heap_setObjectDescription.
  reflexivity.
Qed.

(** A reference is reserved and recorded in one go (lines 228-238). *)
Lemma safe_reserveObject (obj gen : string) (r : JSONReactor) :
  safe (reserveObject obj gen) r.
Proof.
  intros (Hsound & Hacc & Hback) a r'.
  unfold reserveObject.
  destruct (QUtil.string_to_int obj) as [o | what];
    [| unfold throw; discriminate].
  destruct (QUtil.string_to_int gen) as [g | what];
    [| unfold throw; discriminate].
  unfold_monad.
  unfold ObjectGraph.reserveObjectIfNotExists.
  set (og := (o, g)).
  destruct (obj_cache (pdf r) !! og) as [l0 |] eqn:E; cbv beta iota.
  - destruct (ObjectGraph.isReserved _ _) eqn:Hres0; intros [= <- <-];
      (split; [| split]); simpl; try assumption.
    + intros og' l H Hres. apply elem_of_union_r. exact (Hacc og' l H Hres).
    + intros og' Hin. apply elem_of_union in Hin as [Hin | Hin].
      * apply elem_of_singleton in Hin. subst og'.
        unfold ObjectGraph.isReserved, ObjectGraph.resolve in Hres0.
        cbn [ObjectGraph.loc_of pdf set_pdf] in Hres0.
        change (obj_cache (pdf r) !! _) with (obj_cache (pdf r) !! og)
          in Hres0.
        rewrite E in Hres0.
        exists l0. split; [exact E |].
        destruct (object_heap (pdf r) !! l0) as [[] |];
          try discriminate Hres0. reflexivity.
      * exact (Hback og' Hin).
  - assert (Hnew : forall og' l,
              <[og := length (object_heap (pdf r))]> (obj_cache (pdf r))
                !! og' = Some l ->
              (og' = og /\ l = length (object_heap (pdf r))) \/
              (og' <> og /\ obj_cache (pdf r) !! og' = Some l)).
    { intros og' l H. apply lookup_insert_Some in H as [[-> <-] | [Hne H]];
        [left | right]; split; congruence. }
    destruct (ObjectGraph.isReserved _ _) eqn:Hres0;
      intros [= <- <-]; (split; [| split]); simpl.
    + intros og' l H. simpl in H |- *. rewrite length_app. simpl.
      destruct (Hnew og' l H) as [[-> ->] | [_ H']]; [lia |].
      specialize (Hsound og' l H'). lia.
    + intros og' l H Hres. simpl in H, Hres.
      destruct (Hnew og' l H) as [[-> ->] | [_ H']].
      * apply elem_of_union_l, elem_of_singleton. reflexivity.
      * apply elem_of_union_r. apply (Hacc og' l H').
        rewrite lookup_app_l in Hres by exact (Hsound og' l H').
        exact Hres.
    + intros og' Hin. apply elem_of_union in Hin as [Hin | Hin].
      * apply elem_of_singleton in Hin. subst og'.
        exists (length (object_heap (pdf r))).
        rewrite lookup_insert_eq. split; [reflexivity |].
        rewrite lookup_app_r, Nat.sub_diag by lia. reflexivity.
      * destruct (Hback og' Hin) as (l & H & Hres). exists l.
        assert (Hne : og <> og').
        { intros Heq. rewrite <- Heq in H.
          generalize (eq_trans (eq_sym H) E). discriminate. }
        rewrite lookup_insert_ne by exact Hne.
        split; [exact H |]. apply lookup_app_l_Some. exact Hres.
    + exfalso. unfold ObjectGraph.isReserved, ObjectGraph.resolve in Hres0.
      simpl in Hres0. rewrite lookup_insert_eq in Hres0.
      rewrite lookup_app_r, Nat.sub_diag in Hres0 by lia.
      discriminate Hres0.
    + exfalso. unfold ObjectGraph.isReserved, ObjectGraph.resolve in Hres0.
      simpl in Hres0. rewrite lookup_insert_eq in Hres0.
      rewrite lookup_app_r, Nat.sub_diag in Hres0 by lia.
      discriminate Hres0.
    + exfalso. unfold ObjectGraph.isReserved, ObjectGraph.resolve in Hres0.
      simpl in Hres0. rewrite lookup_insert_eq in Hres0.
      rewrite lookup_app_r, Nat.sub_diag in Hres0 by lia.
      discriminate Hres0.
Qed.

(** An object is defined in one go: its id leaves the reservation set and
    its table entry points at an object that is not reserved (lines
    240-247). *)
Lemma safe_replaceObject (to_replace replacement : QPDFObjectHandle)
    (r : JSONReactor) :
  direct_ok (object_heap (pdf r)) replacement ->
  safe (replaceObject to_replace replacement) r.
Proof.
  intros Hok (Hsound & Hacc & Hback) a r'.
  unfold replaceObject, pdf_replaceObject; unfold_monad.
  destruct replacement as [| l0 | og0]; simpl; try discriminate.
  destruct Hok as (o & Ho & Hnr).
  intros [= <- <-]. split; [| split]; simpl.
  - intros og l H. simpl in H.
    apply lookup_insert_Some in H as [[_ <-] | [_ H]].
    + eapply lookup_lt_Some. exact Ho.
    + exact (Hsound og l H).
  - intros og l H Hres. simpl in H.
    apply lookup_insert_Some in H as [[_ <-] | [Hne H]].
    + rewrite Ho in Hres. congruence.
    + apply elem_of_difference. split; [exact (Hacc og l H Hres) |].
      apply not_elem_of_singleton. congruence.
  - intros og Hin. apply elem_of_difference in Hin as [Hin Hne].
    apply not_elem_of_singleton in Hne.
    destruct (Hback og Hin) as (l & H & Hres). exists l.
    rewrite lookup_insert_ne by congruence. split; assumption.
Qed.

Lemma makeObject_direct_ok (c : JSON) (r r1 : JSONReactor)
    (a : QPDFObjectHandle) :
  makeObject c r = (Return a, r1) -> direct_ok (object_heap (pdf r1)) a.
Proof.
  intros Hmake. destruct (reference c) as [og |] eqn:Href.
  - destruct (in_int og) eqn:Hfit.
    + destruct (makeObject_reference c r og Href Hfit)
        as (r2 & extra & Hm & _).
      rewrite Hm in Hmake. injection Hmake as <- _. exact I.
    + destruct (makeObject_reference_range c r og Href Hfit) as [what Hm].
      rewrite Hm in Hmake. discriminate Hmake.
  - destruct (makeObject_node c r Href) as (r2 & Hm & Hheap & _).
    rewrite Hm in Hmake. injection Hmake as <- <-. simpl.
    exists (new_node c). split.
    + rewrite Hheap, lookup_app_r, Nat.sub_diag by lia. reflexivity.
    + destruct c as [| | | | t ? ? | t ? ?]; simpl; try discriminate.
      * destruct (QUtil.is_long_long t); discriminate.
      * destruct (Regex.UNICODE_RE t); [discriminate |].
        destruct (Regex.BINARY_RE t); [discriminate |].
        destruct (Regex.NAME_RE t); discriminate.
Qed.

Ltac reserved_kept :=
  let o := fresh "o" in let H := fresh "H" in
  intros o; split; intros H; destruct o;
  first [reflexivity | discriminate H].

Ltac safe_step :=
  lazymatch goal with
  | |- safe (bind get _) _ =>
      apply safe_bind;
      [ apply safe_view; reflexivity
      | let a := fresh "r" in let r' := fresh "r" in
        intros a r' [= <- <-] ]
  | |- safe (bind _ _) _ =>
      apply safe_bind; [| let H := fresh "Hcall" in intros ? ? H]
  | |- safe (ret _) _ => apply safe_view; reflexivity
  | |- safe skip _ => apply safe_view; reflexivity
  | |- safe get _ => apply safe_view; reflexivity
  | |- safe (throw _) _ => apply safe_view; reflexivity
  | |- safe (back _) _ => apply safe_back
  | |- safe (pop_back _) _ => apply safe_pop_back
  | |- safe (newObject _) _ => apply safe_alloc
  | |- safe (reserveObject _ _) _ => apply safe_reserveObject
  | |- safe (replaceObject _ _) _ =>
      apply safe_replaceObject;
      first [ eapply makeObject_direct_ok; eassumption
            | eapply reserveStream_direct_ok; eassumption ]
  | |- safe (when ?b _) _ => unfold when; destruct b eqn:?
  | |- safe (if ?b then _ else _) _ => destruct b eqn:?
  | |- safe (match ?x with _ => _ end) _ => destruct x eqn:?
  | |- safe (modify _) _ => apply safe_view; reflexivity
  | |- safe (update_pdf _) _ =>
      first [ apply safe_view; reflexivity
            | apply safe_setObjectDescription
            | apply safe_update; reserved_kept ]
  | |- safe (on_pdf (ObjectGraph.reserveStream _ _)) _ =>
      apply safe_reserveStream
  | |- safe (error _ _) _ => apply safe_error
  | |- safe (nestedState _ _ _) _ => unfold nestedState
  end.

Lemma safe_makeObject (value : JSON) (r : JSONReactor) :
  safe (makeObject value) r.
Proof. unfold makeObject. repeat safe_step. Qed.

Lemma safe_dictionaryItem (key : string) (value : JSON) (r : JSONReactor) :
  safe (dictionaryItem key value) r.
Proof.
  unfold dictionaryItem.
  repeat first [apply safe_makeObject | safe_step].
Qed.

Lemma safe_arrayItem (value : JSON) (r : JSONReactor) :
  safe (arrayItem value) r.
Proof.
  unfold arrayItem.
  repeat first [apply safe_makeObject | safe_step].
Qed.

(** When the qpdf dictionary closes, every reserved object gets a null
    object, and nothing is left to account for (lines 218-225). *)
Lemma safe_closing_qpdf (value : JSON) (r : JSONReactor) :
  safe (closing st_qpdf value) r.
Proof.
  intros (Hsound & Hacc & Hback) a r' Hrun.
  destruct (resolve_to_null_loop (elements (reserved r)) r)
    as (q' & Hloop & _ & (extra & Hheap & Hnull) & Hin & Hout).
  change (closing st_qpdf value r)
    with (bind (for_each (elements (reserved r)) resolve_to_null)
            (fun _ => modify (set_reserved ∅)) r) in Hrun.
  unfold bind in Hrun. rewrite Hloop in Hrun.
  injection Hrun as _ <-.
  assert (Hcase : forall og l,
            obj_cache q' !! og = Some l ->
            (og ∈ reserved r /\
             (length (object_heap (pdf r)) <= l < length (object_heap q'))%nat)
            \/ ((og ∉ reserved r) /\ obj_cache (pdf r) !! og = Some l)).
  { intros og l H. destruct (decide (og ∈ reserved r)) as [Hr | Hr].
    - left. split; [exact Hr |].
      destruct (Hin og) as (n & Hn & Hrange);
        [apply elem_of_elements; exact Hr |].
      congruence.
    - right. split; [exact Hr |]. rewrite <- Hout; [exact H |].
      rewrite elem_of_elements. exact Hr. }
  split; [| split]; simpl;
    [| | intros og Hempty; apply elem_of_empty in Hempty; destruct Hempty].
  - intros og l H. destruct (Hcase og l H) as [[_ Hl] | [_ H']]; [lia |].
    specialize (Hsound og l H'). rewrite Hheap, length_app. lia.
  - intros og l H Hres. exfalso.
    destruct (Hcase og l H) as [[_ Hl] | [Hr H']].
    + rewrite Hheap, lookup_app_r in Hres by lia.
      apply list_elem_of_lookup_2 in Hres.
      rewrite Forall_forall in Hnull. specialize (Hnull _ Hres).
      discriminate Hnull.
    + apply Hr, (Hacc og l H').
      rewrite Hheap, lookup_app_l in Hres by exact (Hsound og l H').
      exact Hres.
Qed.

Lemma safe_containerEnd (value : JSON) (r : JSONReactor) :
  safe (containerEnd value) r.
Proof.
  intros Hacc a r' Hrun. rewrite containerEnd_closing in Hrun.
  destruct (state_stack r) as [| st stk]; [discriminate |].
  assert (Hacc0 : accounted (set_state_stack stk (set_state st r)))
    by (apply (accounted_view r); [reflexivity | exact Hacc]).
  revert Hacc0 a r' Hrun.
  change (safe (closing st value) (set_state_stack stk (set_state st r))).
  destruct st; try apply safe_closing_qpdf;
    unfold closing; repeat safe_step.
Qed.

Lemma safe_deliver (e : event) (r : JSONReactor) : safe (deliver e) r.
Proof.
  destruct e; simpl.
  - unfold dictionaryStart, containerStart. repeat safe_step.
  - unfold arrayStart, containerStart. repeat safe_step.
  - apply safe_containerEnd.
  - apply safe_view. reflexivity.
  - apply safe_bind; [apply safe_dictionaryItem |].
    intros _ r' _. apply safe_view. reflexivity.
  - apply safe_bind; [apply safe_arrayItem |].
    intros _ r' _. apply safe_view. reflexivity.
Qed.

(** X17: an import that succeeds leaves no reference unresolved.  If the
    table of the document points into the heap and none of its objects is
    reserved before the import, the same holds after it: every object that
    a reference reserved was defined by an entry or was replaced by a null
    object when the qpdf dictionary closed. *)
Theorem import_resolves_every_reference (is_name : string) (doc : JSON)
    (must_be_complete : bool) (q q' : QPDF) :
  table_sound q ->
  (forall og, ObjectGraph.isReserved q (h_indirect og) = false) ->
  importJSON is_name doc must_be_complete q = (Return tt, q') ->
  table_sound q' /\
  forall og, ObjectGraph.isReserved q' (h_indirect og) = false.
Proof.
  intros Hsound Hnone. unfold importJSON. intros Himport.
  destruct (JSON_parse doc (new_JSONReactor q is_name must_be_complete))
    as [[[] | x] r] eqn:Hparse; [| destruct x; discriminate].
  destruct (anyErrors r); [discriminate |]. injection Himport as <-.
  assert (Hacc : accounted r).
  { apply (run_invariant accounted (parse_events doc)
             (fun e r0 r1 H0 He => safe_deliver e r0 H0 tt r1 He)
             (new_JSONReactor q is_name must_be_complete) r);
      [| exact Hparse].
    split; [exact Hsound |]. simpl. split.
    - intros og l H Hres. exfalso.
      specialize (Hnone og).
      unfold ObjectGraph.isReserved, ObjectGraph.resolve in Hnone.
      simpl in Hnone. rewrite H, Hres in Hnone. discriminate Hnone.
    - intros og Hin. apply elem_of_empty in Hin. destruct Hin. }
  pose proof (import_leaves_no_reservation _ _ _ _ _ Hparse) as Hempty.
  destruct Hacc as (Hsound' & Hacc & _). split; [exact Hsound' |].
  intros og. unfold ObjectGraph.isReserved, ObjectGraph.resolve. simpl.
  destruct (obj_cache (pdf r) !! og) as [l |] eqn:Hog; [| reflexivity].
  destruct (object_heap (pdf r) !! l) as [o |] eqn:Hl; [| reflexivity].
  destruct o; try reflexivity.
  pose proof (Hacc og l Hog Hl) as Hin. rewrite Hempty in Hin.
  apply elem_of_empty in Hin. destruct Hin.
Qed.

Lemma import_resolves_every_reference_witness :
  let doc :=
    JSON_dictionary
      [("qpdf-v2",
        JSON_dictionary
          [("pdfversion", JSON_string "1.3" 26 31);
           ("objects",
            JSON_dictionary
              [("obj:1 0 R",
                JSON_dictionary
                  [("value",
                    JSON_array [JSON_string "2 0 R" 65 72] 64 73)]
                  55 74);
               ("trailer",
                JSON_dictionary
                  [("value",
                    JSON_dictionary [("/Root", JSON_string "1 0 R" 103 110)]
                      94 111)]
                  85 112)]
              43 113)]
          11 114)]
      0 115 in
  let q' := (importJSON "in.json" doc true JSON_PDF).2 in
  table_sound q' /\
  forall og, ObjectGraph.isReserved q' (h_indirect og) = false.
Proof.
  intros doc q'.
  apply (import_resolves_every_reference "in.json" doc true JSON_PDF q').
  - intros og l H. vm_compute in H. discriminate H.
  - intros og. reflexivity.
  - vm_compute. reflexivity.
Defined.

(** *** Whole entries of the objects dictionary *)

Lemma obj_key_not_trailer (key : string) (og : QPDFObjGen) :
  og_of_key key = Some og -> String.eqb key "trailer" = false.
Proof.
  unfold og_of_key, Regex.OBJ_KEY_RE.
  destruct key as [| c key]; [discriminate |].
  cbn [Text.strip_prefix].
  destruct (Ascii.eqb "o" c) eqn:E; [| discriminate].
  apply Ascii.eqb_eq in E. subst c. reflexivity.
Qed.

(** The key of an object entry (lines 318-322): the object is reserved if
    it is new, and put on the object stack. *)
Lemma dictionaryItem_object_key (key : string) (entry : JSON)
    (r : JSONReactor) (og : QPDFObjGen) :
  state r = st_objects -> og_of_key key = Some og -> in_int og = true ->
  isDictionary entry = true ->
  exists r2 extra,
    deliver (ev_dictionaryItem key entry) r = (Return tt, r2) /\
    object_heap (pdf r2) = (object_heap (pdf r) ++ extra)%list /\
    (forall og' x, obj_cache (pdf r) !! og' = Some x ->
                   obj_cache (pdf r2) !! og' = Some x) /\
    trailer (pdf r2) = trailer (pdf r) /\
    pdf_version (pdf r2) = pdf_version (pdf r) /\
    control r2 = control r /\ next_state r2 = st_object_top /\
    parse_error r2 = parse_error r /\
    object_stack r2 = h_indirect og :: object_stack r.
Proof.
  intros Hst Hkey Hfit Hdict.
  pose proof (obj_key_not_trailer key og Hkey) as Hnt.
  unfold og_of_key in Hkey.
  destruct (Regex.OBJ_KEY_RE key) as [[m1 m2] |] eqn:Hre; [| discriminate].
  injection Hkey as <-.
  unfold deliver, dictionaryItem, nestedState.
  unfold_monad. rewrite Hst. unfold_monad. rewrite Hnt, Hre, Hdict.
  rewrite (reserveObject_fits m1 m2 Hfit). unfold reserve. cbn [fst snd].
  unfold_monad.
  unfold ObjectGraph.reserveObjectIfNotExists.
  destruct (obj_cache (pdf r) !! _) as [l0 |] eqn:Hcache; cbv beta iota.
  - destruct (ObjectGraph.isReserved _ _); cbv beta iota;
      (eexists; exists []; split; [reflexivity |]);
      unfold control; all_fields; rewrite app_nil_r;
      repeat split; auto.
  - destruct (ObjectGraph.isReserved _ _); cbv beta iota;
      (eexists; exists [ot_reserved]; split; [reflexivity |]);
      unfold control; all_fields;
      (split; [reflexivity |]);
      (split; [| repeat split; auto]);
      intros og' x H; apply lookup_insert_Some; right;
      (split; [| exact H]);
      intros <-; generalize (eq_trans (eq_sym H) Hcache); discriminate.
Qed.

(** What closing an entry does (lines 171-191): a check that can only
    record an error, and the stack and the flags of the entry are
    cleared. *)
Lemma closing_objects (value : JSON) (r : JSONReactor) :
  exists r',
    closing st_objects value r = (Return tt, r') /\
    object_heap (pdf r') = object_heap (pdf r) /\
    obj_cache (pdf r') = obj_cache (pdf r) /\
    trailer (pdf r') = trailer (pdf r) /\
    pdf_version (pdf r') = pdf_version (pdf r) /\
    control r' = control r /\ parse_error r' = parse_error r.
Proof.
  destruct_reactor r. unfold closing; unfold_monad. simpl.
  destruct perr; [eexists; repeat split |].
  destruct (String.eqb cur "trailer"); destruct sval, sstr; simpl;
    eexists; repeat split.
Qed.

(** The key of an object entry reports nothing, and only names the
    entry. *)
Lemma object_key_seen (key : string) (entry : JSON) (r r2 : JSONReactor)
    (og : QPDFObjGen) :
  state r = st_objects -> og_of_key key = Some og ->
  isDictionary entry = true ->
  deliver (ev_dictionaryItem key entry) r = (Return tt, r2) ->
  seen_top r2 = seen_top r /\ cur_object r2 = key /\
  saw_value r2 = saw_value r /\ saw_stream r2 = saw_stream r /\
  errors r2 = errors r.
Proof.
  intros Hst Hkey Hdict.
  pose proof (obj_key_not_trailer key og Hkey) as Hnt.
  unfold og_of_key in Hkey.
  destruct (Regex.OBJ_KEY_RE key) as [[m1 m2] |] eqn:Hre; [| discriminate].
  unfold deliver, dictionaryItem, nestedState.
  unfold_monad. rewrite Hst. unfold_monad. rewrite Hnt, Hre, Hdict.
  unfold reserveObject.
  destruct (QUtil.string_to_int m1) as [o | what];
    [| unfold throw; discriminate].
  destruct (QUtil.string_to_int m2) as [g | what];
    [| unfold throw; discriminate].
  unfold_monad.
  destruct (ObjectGraph.reserveObjectIfNotExists _ _ _) as [oh q1].
  cbv beta iota.
  destruct (ObjectGraph.isReserved _ _); cbv beta iota;
    intros [= <-]; repeat split.
Qed.

(** Closing an entry that held a value, and for an object no stream,
    reports nothing; the flags of the entry are cleared. *)
Lemma closing_objects_seen (value : JSON) (r r' : JSONReactor) :
  closing st_objects value r = (Return tt, r') ->
  seen_top r' = seen_top r /\ saw_value r' = false /\
  saw_stream r' = false /\
  (saw_value r = true ->
   (String.eqb (cur_object r) "trailer" = false -> saw_stream r = false) ->
   errors r' = errors r).
Proof.
  destruct_reactor r. unfold closing; unfold_monad. simpl.
  destruct perr; [intros [= <-]; repeat split |].
  destruct (String.eqb cur "trailer"); destruct sval, sstr; simpl;
    intros [= <-]; repeat split; try discriminate;
    intros _ H; discriminate (H eq_refl).
Qed.

Lemma value_of_entry_shape (entry c : JSON) :
  value_of_entry entry = Some c ->
  exists s e, entry = JSON_dictionary [("value", c)] s e.
Proof.
  destruct entry as [members s e | | | | |]; try discriminate.
  destruct members as [| [key c0] [| m members]]; try discriminate.
  simpl. destruct (String.eqb key "value") eqn:Hk; [| discriminate].
  apply String.eqb_eq in Hk. subst key. intros [= <-].
  exists s, e. reflexivity.
Qed.

Lemma dictionaryStart_run (r : JSONReactor) :
  deliver ev_dictionaryStart r
  = (Return tt,
     set_state (next_state r) (set_state_stack (state r :: state_stack r) r)).
Proof. reflexivity. Qed.

(** A whole entry: its key, its start, its value and its end. *)
Lemma entry_built (key : string) (entry c : JSON) (og : QPDFObjGen)
    (r : JSONReactor) :
  state r = st_objects -> parse_error r = false ->
  og_of_key key = Some og -> in_int og = true ->
  value_of_entry entry = Some c ->
  reference c = None -> fits c = true -> saw_stream r = false ->
  exists r' l,
    run (ev_dictionaryItem key entry :: container_events entry) r
    = (Return tt, r') /\
    state r' = st_objects /\ state_stack r' = state_stack r /\
    parse_error r' = false /\
    obj_cache (pdf r') !! og = Some l /\
    built (object_heap (pdf r')) (length (object_heap (pdf r)))
      (length (object_heap (pdf r'))) c (h_direct l) /\
    (forall l', (l' < length (object_heap (pdf r)))%nat ->
                object_heap (pdf r') !! l' = object_heap (pdf r) !! l') /\
    (forall og' x, og' <> og ->
                   obj_cache (pdf r) !! og' = Some x ->
                   obj_cache (pdf r') !! og' = Some x) /\
    trailer (pdf r') = trailer (pdf r) /\
    pdf_version (pdf r') = pdf_version (pdf r) /\
    seen_top r' = seen_top r /\ saw_stream r' = false /\
    (clean c = true -> errors r' = errors r).
Proof.
  intros Hst Hpe Hkey Hfit Hvalue Href Hfits Hnostream.
  destruct (value_of_entry_shape entry c Hvalue) as (s & e & ->).
  destruct (dictionaryItem_object_key key (JSON_dictionary [("value", c)] s e)
              r og Hst Hkey Hfit eq_refl)
    as (r2 & extra & Hitem & Hheap2 & Htab2 & Htrl2 & Hver2 & Hctl2 & Hnext2
        & Hpe2 & Hstk2).
  unfold control in Hctl2. injection Hctl2 as Hst2 Hss2.
  destruct (object_key_seen key (JSON_dictionary [("value", c)] s e) r r2 og
              Hst Hkey eq_refl Hitem)
    as (Htop2 & Hcur2 & Hsval2 & Hsstr2 & Herr2).
  set (r3 := set_state st_object_top
               (set_state_stack (state r2 :: state_stack r2) r2)).
  destruct (value_built c r3 (h_indirect og) (object_stack r))
    as (r4 & l & Hrun4 & Htab4 & Hbuilt4 & Hframe4 & Hctl4 & Hpe4 & Hkept4
        & Htrl4 & Hver4 & Htop4 & Hcur4 & Hsval4 & Hsstr4 & Herr4);
    try exact Href; try exact Hfits.
  { reflexivity. }
  { unfold r3. simpl. congruence. }
  { unfold r3. simpl. exact Hstk2. }
  unfold control in Hctl4. injection Hctl4 as Hst4 Hss4.
  destruct (closing_objects (JSON_dictionary [("value", c)] s e)
              (set_state_stack (state_stack r) (set_state st_objects r4)))
    as (r5 & Hclose & Hheap5 & Htab5 & Htrl5 & Hver5 & Hctl5 & Hpe5).
  assert (Hend : containerEnd (JSON_dictionary [("value", c)] s e) r4
                 = (Return tt, r5)).
  { rewrite containerEnd_closing, Hss4. unfold r3. simpl.
    rewrite Hst2, Hst, Hss2. exact Hclose. }
  destruct (closing_objects_seen _ _ _ Hclose)
    as (Htop5 & Hsval5 & Hsstr5 & Herr5).
  change (seen_top (set_state_stack (state_stack r)
                      (set_state st_objects r4)))
    with (seen_top r4) in Htop5.
  change (saw_value (set_state_stack (state_stack r)
                       (set_state st_objects r4)))
    with (saw_value r4) in Herr5.
  change (saw_stream (set_state_stack (state_stack r)
                        (set_state st_objects r4)))
    with (saw_stream r4) in Herr5.
  change (errors (set_state_stack (state_stack r)
                    (set_state st_objects r4)))
    with (errors r4) in Herr5.
  change (seen_top r3) with (seen_top r2) in Htop4.
  change (saw_stream r3) with (saw_stream r2) in Hsstr4, Herr4.
  change (errors r3) with (errors r2) in Herr4.
  unfold control in Hctl5. injection Hctl5 as Hst5 Hss5.
  simpl in Hheap5, Htab5, Htrl5, Hver5, Hst5, Hss5, Hpe5.
  unfold r3 in Hframe4, Hkept4, Htrl4, Hver4, Hbuilt4.
  cbn [pdf set_state set_state_stack] in Hframe4, Hkept4, Htrl4, Hver4,
    Hbuilt4.
  exists r5, l. split.
  { rewrite run_cons, Hitem. cbn [container_events flat_map fst snd].
    rewrite run_cons, dictionaryStart_run, Hnext2. fold r3.
    rewrite app_nil_r, run_app, Hrun4, run_cons.
    cbn [deliver]. rewrite Hend. reflexivity. }
  split; [exact Hst5 |]. split; [exact Hss5 |]. split; [congruence |].
  rewrite Hheap5, Htab5.
  split; [exact Htab4 |].
  split.
  { eapply built_mono; [| | | exact Hbuilt4];
      [rewrite Hheap2, length_app; lia | lia | reflexivity]. }
  split.
  { intros l' Hl. rewrite Hframe4 by (rewrite Hheap2, length_app; lia).
    rewrite Hheap2. apply lookup_app_l. exact Hl. }
  split.
  { intros og' x Hne H. apply Hkept4; [exact Hne |]. apply Htab2. exact H. }
  split; [congruence |]. split; [congruence |].
  split; [congruence |]. split; [exact Hsstr5 |].
  intros Hclean.
  rewrite Herr5; [| exact Hsval4 | intros _; congruence].
  rewrite Herr4; [exact Herr2 | exact Hclean | congruence].
Qed.

Lemma entries_match_snoc (P P' : JSON -> nat -> Prop)
    (table table' : gmap QPDFObjGen nat) (entries : list (string * JSON))
    (key : string) (entry c : JSON) (og : QPDFObjGen) (l : nat) :
  entries_match P table entries ->
  (forall c0 l0, P c0 l0 -> P' c0 l0) ->
  (forall og' x, og' <> og -> table !! og' = Some x ->
                 table' !! og' = Some x) ->
  og_of_key key = Some og -> value_of_entry entry = Some c ->
  table' !! og = Some l -> P' c l ->
  entries_match P' table' (entries ++ [(key, entry)]).
Proof.
  intros Hm Hmono Hkept Hkey Hvalue Hl HP.
  induction entries as [| m entries IH]; simpl.
  - split; [| exact I]. intros og0 c0 Hk0 Hv0 _.
    rewrite Hkey in Hk0. rewrite Hvalue in Hv0.
    injection Hk0 as <-. injection Hv0 as <-.
    exists l. split; assumption.
  - destruct Hm as [Hhead Htail]. split; [| apply IH, Htail].
    intros og0 c0 Hk0 Hv0 Hlast.
    unfold named in Hlast. rewrite fmap_app in Hlast.
    apply not_elem_of_app in Hlast as [Hlast Hne].
    simpl in Hne. rewrite Hkey in Hne.
    apply not_elem_of_cons in Hne as [Hne _].
    destruct (Hhead og0 c0 Hk0 Hv0 Hlast) as (l0 & Hl0 & HP0).
    exists l0. split; [| apply Hmono, HP0].
    apply Hkept; [congruence | exact Hl0].
Qed.

(** The entries of the objects dictionary, one after the other. *)
Lemma entries_built (post : list (string * JSON)) :
  Forall plain_entry post ->
  forall (pre : list (string * JSON)) (r : JSONReactor) (lo : nat),
    state r = st_objects -> parse_error r = false ->
    saw_stream r = false ->
    (lo <= length (object_heap (pdf r)))%nat ->
    entries_match
      (fun c l =>
         built (object_heap (pdf r)) lo (length (object_heap (pdf r))) c
           (h_direct l))
      (obj_cache (pdf r)) pre ->
    exists r',
      run (flat_map (fun ic => ic.1 :: container_events ic.2)
             ((fun m => (ev_dictionaryItem m.1 m.2, m.2)) <$> post)) r
      = (Return tt, r') /\
      state r' = st_objects /\ state_stack r' = state_stack r /\
      parse_error r' = false /\
      entries_match
        (fun c l =>
           built (object_heap (pdf r')) lo (length (object_heap (pdf r'))) c
             (h_direct l))
        (obj_cache (pdf r')) (pre ++ post)%list /\
      (length (object_heap (pdf r)) <= length (object_heap (pdf r')))%nat /\
      (forall l', (l' < length (object_heap (pdf r)))%nat ->
                  object_heap (pdf r') !! l' = object_heap (pdf r) !! l') /\
      trailer (pdf r') = trailer (pdf r) /\
      pdf_version (pdf r') = pdf_version (pdf r) /\
      seen_top r' = seen_top r /\ saw_stream r' = false /\
      (forallb (fun m => clean m.2) post = true -> errors r' = errors r).
Proof.
  induction 1 as [| m post Hm _ IH];
    intros pre r lo Hst Hpe Hnostream Hlo Hpre.
  - exists r. rewrite app_nil_r. repeat split; try assumption; reflexivity.
  - destruct m as [key entry].
    destruct Hm as ((og & Hkey & Hfit) & c & Hvalue & Href & Hfits).
    simpl in Hkey, Hvalue.
    destruct (entry_built key entry c og r Hst Hpe Hkey Hfit Hvalue Href
                Hfits Hnostream)
      as (r1 & l & Hrun1 & Hst1 & Hss1 & Hpe1 & Htab1 & Hbuilt1 & Hframe1
          & Hkept1 & Htrl1 & Hver1 & Htop1 & Hsstr1 & Herr1).
    assert (Hlen1 : (length (object_heap (pdf r))
                     < length (object_heap (pdf r1)))%nat).
    { destruct (reference c) eqn:E; [discriminate |].
      destruct c; cbn [built] in Hbuilt1; rewrite ?E in Hbuilt1;
        destruct Hbuilt1 as (l0 & _ & Hl0 & _); lia. }
    destruct (IH (pre ++ [(key, entry)])%list r1 lo Hst1 Hpe1 Hsstr1)
      as (r' & Hrun & Hst' & Hss' & Hpe' & Hall' & Hlen' & Hframe' & Htrl'
          & Hver' & Htop' & Hsstr' & Herr'); [lia | |].
    + eapply entries_match_snoc;
        [exact Hpre | | exact Hkept1 | exact Hkey | exact Hvalue
         | exact Htab1 |].
      * intros c0 l0. apply built_mono; [lia | lia |].
        intros l' Hl'. apply Hframe1. lia.
      * eapply built_mono; [| | | exact Hbuilt1]; [lia | lia | reflexivity].
    + exists r'. split.
      { simpl flat_map. simpl fmap.
        change (run ((ev_dictionaryItem key entry :: container_events entry)
                     ++ flat_map
                          (fun ic => ic.1 :: container_events ic.2)
                          ((fun m0 => (ev_dictionaryItem m0.1 m0.2, m0.2))
                             <$> post))%list r = (Return tt, r')).
        rewrite run_app, Hrun1. exact Hrun. }
      split; [exact Hst' |]. split; [congruence |]. split; [exact Hpe' |].
      rewrite <- app_assoc in Hall'.
      split; [exact Hall' |]. split; [lia |].
      split.
      { intros l' Hl'. rewrite Hframe' by lia. apply Hframe1. exact Hl'. }
      split; [congruence |]. split; [congruence |].
      split; [congruence |]. split; [exact Hsstr' |].
      intros Hclean. cbn [forallb snd] in Hclean.
      apply andb_prop in Hclean as [Hentry Hpost].
      rewrite (Herr' Hpost). apply Herr1.
      destruct (value_of_entry_shape entry c Hvalue) as (s & e & ->).
      cbn [clean forallb snd] in Hentry.
      rewrite andb_true_r in Hentry. exact Hentry.
Qed.

(** The trailer entry: its key, its start, its value and its end (lines
    314-317 and 363-367). *)
Lemma trailer_entry_built (entry t : JSON) (r : JSONReactor) :
  state r = st_objects -> parse_error r = false ->
  value_of_entry entry = Some t -> isDictionary t = true ->
  fits t = true ->
  exists r',
    run (ev_dictionaryItem "trailer" entry :: container_events entry) r
    = (Return tt, r') /\
    state r' = st_objects /\ state_stack r' = state_stack r /\
    parse_error r' = false /\
    built (object_heap (pdf r')) (length (object_heap (pdf r)))
      (length (object_heap (pdf r'))) t (trailer (pdf r')) /\
    (forall l', (l' < length (object_heap (pdf r)))%nat ->
                object_heap (pdf r') !! l' = object_heap (pdf r) !! l') /\
    (forall og l, obj_cache (pdf r) !! og = Some l ->
                  obj_cache (pdf r') !! og = Some l) /\
    pdf_version (pdf r') = pdf_version (pdf r) /\
    seen_top r'
    = (must_be_complete r, saw_qpdf r, saw_objects r, saw_pdf_version r,
       true) /\
    (clean t = true -> errors r' = errors r).
Proof.
  intros Hst Hpe Hvalue Hdict Hfits.
  destruct (value_of_entry_shape entry t Hvalue) as (s & e & ->).
  set (r2 := set_cur_object "trailer"
               (set_next_state st_trailer (set_saw_trailer true r))).
  assert (Hitem : deliver
                    (ev_dictionaryItem "trailer"
                       (JSON_dictionary [("value", t)] s e)) r
                  = (Return tt, r2)).
  { unfold deliver, dictionaryItem, nestedState. unfold_monad.
    rewrite Hst. reflexivity. }
  set (r3 := set_state st_trailer
               (set_state_stack (state r2 :: state_stack r2) r2)).
  destruct (trailer_built t r3)
    as (r4 & Hrun4 & Hbuilt4 & Hframe4 & Htab4 & Hctl4 & Hpe4 & Hver4
        & Htop4 & Hcur4 & Hsval4 & Herr4);
    try exact Hdict; try exact Hfits; try reflexivity.
  { exact Hpe. }
  unfold control in Hctl4. injection Hctl4 as Hst4 Hss4.
  destruct (closing_objects (JSON_dictionary [("value", t)] s e)
              (set_state_stack (state_stack r) (set_state st_objects r4)))
    as (r5 & Hclose & Hheap5 & Htab5 & Htrl5 & Hver5 & Hctl5 & Hpe5).
  assert (Hend : containerEnd (JSON_dictionary [("value", t)] s e) r4
                 = (Return tt, r5)).
  { rewrite containerEnd_closing, Hss4. unfold r3, r2. simpl.
    rewrite Hst. exact Hclose. }
  destruct (closing_objects_seen _ _ _ Hclose)
    as (Htop5 & _ & _ & Herr5).
  change (seen_top (set_state_stack (state_stack r)
                      (set_state st_objects r4)))
    with (seen_top r4) in Htop5.
  change (saw_value (set_state_stack (state_stack r)
                       (set_state st_objects r4)))
    with (saw_value r4) in Herr5.
  change (cur_object (set_state_stack (state_stack r)
                        (set_state st_objects r4)))
    with (cur_object r4) in Herr5.
  change (errors (set_state_stack (state_stack r)
                    (set_state st_objects r4)))
    with (errors r4) in Herr5.
  change (seen_top r3)
    with (must_be_complete r, saw_qpdf r, saw_objects r, saw_pdf_version r,
          true) in Htop4.
  change (cur_object r3) with "trailer" in Hcur4.
  change (errors r3) with (errors r) in Herr4.
  unfold control in Hctl5. injection Hctl5 as Hst5 Hss5.
  simpl in Hheap5, Htab5, Htrl5, Hver5, Hst5, Hss5, Hpe5.
  unfold r3, r2 in Hframe4, Htab4, Hver4, Hbuilt4.
  cbn [pdf set_state set_state_stack set_cur_object set_next_state
       set_saw_trailer] in Hframe4, Htab4, Hver4, Hbuilt4.
  exists r5. split.
  { rewrite run_cons, Hitem. cbn [container_events flat_map fst snd].
    rewrite run_cons, dictionaryStart_run.
    change (set_state (next_state r2)
              (set_state_stack (state r2 :: state_stack r2) r2)) with r3.
    rewrite app_nil_r, run_app, Hrun4, run_cons.
    cbn [deliver]. rewrite Hend. reflexivity. }
  split; [exact Hst5 |]. split; [exact Hss5 |]. split; [congruence |].
  rewrite Hheap5, Htab5, Htrl5.
  split; [exact Hbuilt4 |]. split; [exact Hframe4 |].
  split; [exact Htab4 |]. split; [congruence |].
  split; [congruence |].
  intros Hclean. rewrite Herr5; [exact (Herr4 Hclean) | exact Hsval4 |].
  rewrite Hcur4. discriminate.
Qed.

(** *** A whole document *)

Lemma resolve_to_null_loop_roots (l : list QPDFObjGen) (r r' : JSONReactor) :
  for_each l resolve_to_null r = (Return tt, r') ->
  trailer (pdf r') = trailer (pdf r) /\
  pdf_version (pdf r') = pdf_version (pdf r).
Proof.
  revert r. induction l as [| og l IH]; intros r.
  - intros [= <-]. split; reflexivity.
  - change (for_each (og :: l) resolve_to_null)
      with (bind (resolve_to_null og)
              (fun _ => for_each l resolve_to_null)).
    unfold bind. rewrite resolve_to_null_step. intros H.
    apply IH in H. exact H.
Qed.

(** The object built for a value that is not a reference is not a
    reserved one. *)
Lemma built_root (heap : list QPDFObject) (lo hi : nat) (c : JSON) (l : nat) :
  reference c = None -> built heap lo hi c (h_direct l) ->
  exists o, heap !! l = Some o /\ o <> ot_reserved.
Proof.
  intros Href. destruct c; cbn [built]; rewrite Href;
    intros (l0 & [= <-] & _ & H).
  - destruct H as (items & H & _). eexists. split; [exact H | discriminate].
  - destruct H as (items & H & _). eexists. split; [exact H | discriminate].
  - eexists. split; [exact H | discriminate].
  - eexists. split; [exact H | discriminate].
  - eexists. split; [exact H |]. cbn [new_node].
    destruct (QUtil.is_long_long _); discriminate.
  - eexists. split; [exact H |]. cbn [new_node].
    destruct (Regex.UNICODE_RE _); [discriminate |].
    destruct (Regex.BINARY_RE _); [discriminate |].
    destruct (Regex.NAME_RE _); discriminate.
Qed.

Lemma entries_match_impl (P P' : JSON -> nat -> Prop)
    (table table' : gmap QPDFObjGen nat) (entries : list (string * JSON)) :
  (forall m og c l,
     m ∈ entries -> og_of_key m.1 = Some og -> value_of_entry m.2 = Some c ->
     table !! og = Some l -> P c l -> table' !! og = Some l /\ P' c l) ->
  entries_match P table entries -> entries_match P' table' entries.
Proof.
  induction entries as [| m entries IH]; intros Himpl; [auto |].
  intros [Hhead Htail]. split.
  - intros og c Hkey Hvalue Hlast.
    destruct (Hhead og c Hkey Hvalue Hlast) as (l & Hl & HP).
    exists l. apply (Himpl m og c l); auto. apply list_elem_of_here.
  - apply IH; [| exact Htail]. intros m' og c l Hin.
    apply Himpl. apply list_elem_of_further. exact Hin.
Qed.

(** Closing the objects dictionary (lines 219-224) leaves the objects of
    the entries where they are: none of them is reserved. *)
Lemma closing_qpdf_built (value : JSON) (entries : list (string * JSON))
    (r : JSONReactor) (lo : nat) :
  accounted r -> Forall plain_entry entries ->
  entries_match
    (fun c l =>
       built (object_heap (pdf r)) lo (length (object_heap (pdf r))) c
         (h_direct l))
    (obj_cache (pdf r)) entries ->
  exists r',
    closing st_qpdf value r = (Return tt, r') /\
    control r' = control r /\
    entries_match
      (fun c l =>
         built (object_heap (pdf r')) lo (length (object_heap (pdf r'))) c
           (h_direct l))
      (obj_cache (pdf r')) entries /\
    (exists extra,
       object_heap (pdf r') = (object_heap (pdf r) ++ extra)%list) /\
    trailer (pdf r') = trailer (pdf r) /\
    pdf_version (pdf r') = pdf_version (pdf r) /\
    seen_top r' = seen_top r /\ errors r' = errors r.
Proof.
  intros (Hsound & Hacc & Hback) Hplain Hall.
  destruct (resolve_to_null_loop (elements (reserved r)) r)
    as (q' & Hloop & _ & (extra & Hheap & _) & _ & Hout).
  destruct (resolve_to_null_loop_roots _ _ _ Hloop) as [Htrl Hver].
  exists (set_reserved ∅ (set_pdf q' r)). split.
  { change (closing st_qpdf value r)
      with (bind (for_each (elements (reserved r)) resolve_to_null)
              (fun _ => modify (set_reserved ∅)) r).
    unfold bind. rewrite Hloop. reflexivity. }
  split; [destruct r; reflexivity |].
  assert (Hpdf : pdf (set_reserved ∅ (set_pdf q' r)) = q')
    by (destruct r; reflexivity).
  rewrite Hpdf.
  assert (Hpdf' : pdf (set_pdf q' r) = q') by (destruct r; reflexivity).
  rewrite Hpdf' in Htrl, Hver.
  split;
    [| split;
       [exists extra; exact Hheap
       | split; [assumption |]; split; [assumption |];
         split; destruct r; reflexivity]].
  eapply entries_match_impl; [| exact Hall].
  intros m og c l Hin Hkey Hvalue Hl Hbuilt.
  rewrite Forall_forall in Hplain.
  destruct (Hplain m Hin) as (_ & c' & Hvalue' & Href & _).
  rewrite Hvalue in Hvalue'. injection Hvalue' as <-.
  split.
  - rewrite Hout; [exact Hl |].
    rewrite elem_of_elements. intros Hres.
    destruct (Hback og Hres) as (l' & Hl' & Hnode).
    rewrite Hl in Hl'. injection Hl' as <-.
    destruct (built_root _ _ _ _ _ Href Hbuilt) as (o & Ho & Hne).
    congruence.
  - eapply built_mono; [| | | exact Hbuilt].
    + lia.
    + rewrite Hheap, length_app. lia.
    + intros l' Hl'. rewrite Hheap. apply lookup_app_l. lia.
Qed.

(** Closing the top-level dictionary (lines 152-169) returns, and only
    reports. *)
Lemma closing_initial_returns (value : JSON) (r : JSONReactor) :
  exists r',
    closing st_initial value r = (Return tt, r') /\
    object_heap (pdf r') = object_heap (pdf r) /\
    obj_cache (pdf r') = obj_cache (pdf r) /\
    trailer (pdf r') = trailer (pdf r) /\
    pdf_version (pdf r') = pdf_version (pdf r) /\
    (saw_qpdf r = true -> saw_objects r = true ->
     saw_pdf_version r = true -> saw_trailer r = true ->
     errors r' = errors r).
Proof.
  destruct_reactor r. unfold closing; unfold_monad. simpl.
  destruct sq, sobj, mbc, spv, strl; simpl; eexists; repeat split;
    discriminate.
Qed.

(** The key "pdfversion" with a version of the right form (lines 288-299). *)
Lemma pdfversion_item (version : string) (sv ev : Z) (r : JSONReactor) :
  state r = st_qpdf -> Regex.PDF_VERSION_RE version = true ->
  deliver (ev_dictionaryItem "pdfversion" (JSON_string version sv ev)) r
  = (Return tt,
     set_pdf (with_pdf_version version (pdf r)) (set_saw_pdf_version true r)).
Proof.
  intros Hst Hre. unfold deliver, dictionaryItem. unfold_monad.
  rewrite Hst. cbn [getString]. rewrite Hre. destruct r; reflexivity.
Qed.

Lemma flat_map_member_events (members : list (string * JSON)) :
  flat_map (fun m => ev_dictionaryItem m.1 m.2 :: container_events m.2)
    members
  = flat_map (fun ic => ic.1 :: container_events ic.2)
      ((fun m => (ev_dictionaryItem m.1 m.2, m.2)) <$> members).
Proof.
  induction members as [| m members IH]; simpl; [reflexivity |].
  rewrite IH. reflexivity.
Qed.

(** The calls the parser makes for a document in the writer's layout. *)
Lemma qpdf_document_events (version : string) (maxobjectid : JSON)
    (entries : list (string * JSON)) (trailer_entry : JSON)
    (s0 e0 s1 e1 s2 e2 sv ev : Z) :
  let O := JSON_dictionary (entries ++ [("trailer", trailer_entry)]) s2 e2 in
  let Q := JSON_dictionary
             [("pdfversion", JSON_string version sv ev);
              ("maxobjectid", maxobjectid); ("objects", O)] s1 e1 in
  parse_events
    (qpdf_document version maxobjectid entries trailer_entry
       s0 e0 s1 e1 s2 e2 sv ev)
  = ([ev_dictionaryStart; ev_dictionaryItem "qpdf-v2" Q; ev_dictionaryStart;
      ev_dictionaryItem "pdfversion" (JSON_string version sv ev)]
     ++ (ev_dictionaryItem "maxobjectid" maxobjectid
         :: container_events maxobjectid)
     ++ [ev_dictionaryItem "objects" O; ev_dictionaryStart]
     ++ flat_map (fun ic => ic.1 :: container_events ic.2)
          ((fun m => (ev_dictionaryItem m.1 m.2, m.2)) <$> entries)
     ++ (ev_dictionaryItem "trailer" trailer_entry
         :: container_events trailer_entry)
     ++ [ev_containerEnd O; ev_containerEnd Q;
         ev_containerEnd
           (qpdf_document version maxobjectid entries trailer_entry
              s0 e0 s1 e1 s2 e2 sv ev)])%list.
Proof.
  intros O Q. unfold parse_events, qpdf_document.
  cbn [isDictionary orb container_events flat_map fst snd].
  fold O. fold Q. rewrite flat_map_app, flat_map_member_events.
  cbn [flat_map fst snd]. rewrite !app_nil_r.
  repeat (rewrite <- ?app_assoc; cbn [app]). reflexivity.
Qed.

(** The calls for a document in the layout the writer produces all return,
    and leave the document with what the JSON describes; no error is
    reported if every string in the values is recognized. *)
Lemma document_parsed (is_name version : string)
    (maxobjectid : JSON) (entries : list (string * JSON))
    (trailer_entry t : JSON) (s0 e0 s1 e1 s2 e2 sv ev : Z)
    (must_be_complete : bool) (q : QPDF) :
  Regex.PDF_VERSION_RE version = true ->
  Forall plain_entry entries ->
  value_of_entry trailer_entry = Some t -> isDictionary t = true ->
  fits t = true ->
  table_sound q ->
  (forall og, ObjectGraph.isReserved q (h_indirect og) = false) ->
  exists r,
    JSON_parse
      (qpdf_document version maxobjectid entries trailer_entry
         s0 e0 s1 e1 s2 e2 sv ev)
      (new_JSONReactor q is_name must_be_complete)
    = (Return tt, r) /\
    pdf_version (pdf r) = version /\
    built (object_heap (pdf r)) (length (object_heap q))
      (length (object_heap (pdf r))) t (trailer (pdf r)) /\
    entries_match
      (fun c l =>
         built (object_heap (pdf r)) (length (object_heap q))
           (length (object_heap (pdf r))) c (h_direct l))
      (obj_cache (pdf r)) entries /\
    (forall l, (l < length (object_heap q))%nat ->
               object_heap (pdf r) !! l = object_heap q !! l) /\
    (forallb (fun m => clean m.2) entries = true -> clean t = true ->
     errors r = false).
Proof.
  intros Hre Hplain Hvalue Hdict Hfits Hsound Hnone.
  set (doc := qpdf_document version maxobjectid entries trailer_entry
                s0 e0 s1 e1 s2 e2 sv ev).
  set (O := JSON_dictionary (entries ++ [("trailer", trailer_entry)]) s2 e2).
  set (Q := JSON_dictionary
              [("pdfversion", JSON_string version sv ev);
               ("maxobjectid", maxobjectid); ("objects", O)] s1 e1).
  set (r0 := new_JSONReactor q is_name must_be_complete).
  set (a1 := set_state st_top
               (set_state_stack [st_initial; st_initial] r0)).
  set (a2 := set_next_state st_qpdf (set_saw_qpdf true a1)).
  set (a3 := set_state st_qpdf
               (set_state_stack [st_top; st_initial; st_initial] a2)).
  set (a4 := set_pdf (with_pdf_version version q)
               (set_saw_pdf_version true a3)).
  set (a5 := set_next_state st_ignore a4).
  set (a6 := set_next_state st_objects (set_saw_objects true a5)).
  set (a7 := set_state st_objects
               (set_state_stack [st_qpdf; st_top; st_initial; st_initial]
                  a6)).
  assert (H1 : deliver ev_dictionaryStart r0 = (Return tt, a1))
    by reflexivity.
  assert (H2 : deliver (ev_dictionaryItem "qpdf-v2" Q) a1 = (Return tt, a2))
    by reflexivity.
  assert (H3 : deliver ev_dictionaryStart a2 = (Return tt, a3))
    by reflexivity.
  assert (H4 : deliver
                 (ev_dictionaryItem "pdfversion" (JSON_string version sv ev))
                 a3
               = (Return tt, a4)).
  { rewrite pdfversion_item; [reflexivity | reflexivity | exact Hre]. }
  assert (H5 : run (ev_dictionaryItem "maxobjectid" maxobjectid
                    :: container_events maxobjectid) a4
               = (Return tt, a5)).
  { apply unknown_member_run; reflexivity. }
  assert (H6 : deliver (ev_dictionaryItem "objects" O) a5 = (Return tt, a6))
    by reflexivity.
  assert (H7 : deliver ev_dictionaryStart a6 = (Return tt, a7))
    by reflexivity.
  assert (Hacc7 : accounted a7).
  { split; [exact Hsound |]. split.
    - intros og l H Hres. exfalso. specialize (Hnone og).
      unfold ObjectGraph.isReserved, ObjectGraph.resolve in Hnone.
      cbn [ObjectGraph.loc_of] in Hnone.
      change (obj_cache (pdf a7)) with (obj_cache q) in H.
      change (object_heap (pdf a7)) with (object_heap q) in Hres.
      simpl in Hnone. rewrite H, Hres in Hnone. discriminate Hnone.
    - intros og Hin. apply elem_of_empty in Hin. destruct Hin. }
  (* the entries *)
  destruct (entries_built entries Hplain [] a7 (length (object_heap q)))
    as (r8 & Hrun8 & Hst8 & Hss8 & Hpe8 & Hall8 & Hlen8 & Hframe8 & Htrl8
        & Hver8 & Htop8 & Hsstr8 & Herr8);
    [reflexivity | reflexivity | reflexivity | apply Nat.le_refl | exact I
    |].
  change (seen_top a7) with (must_be_complete, true, true, true, false)
    in Htop8.
  change (errors a7) with false in Herr8.
  change (object_heap (pdf a7)) with (object_heap q) in Hlen8, Hframe8.
  change (pdf_version (pdf a7)) with version in Hver8.
  change (state_stack a7) with [st_qpdf; st_top; st_initial; st_initial]
    in Hss8.
  cbn [app] in Hall8.
  assert (Hacc8 : accounted r8).
  { exact (run_invariant accounted _
             (fun e r r' H He => safe_deliver e r H tt r' He)
             a7 r8 Hacc7 Hrun8). }
  (* the trailer *)
  destruct (trailer_entry_built trailer_entry t r8 Hst8 Hpe8 Hvalue Hdict
              Hfits)
    as (r9 & Hrun9 & Hst9 & Hss9 & Hpe9 & Hbuilt9 & Hframe9 & Htab9 & Hver9
        & Htop9 & Herr9).
  unfold seen_top in Htop8. injection Htop8 as Hmbc8 Hsq8 Hso8 Hsv8 _.
  rewrite Hmbc8, Hsq8, Hso8, Hsv8 in Htop9.
  assert (Hacc9 : accounted r9).
  { exact (run_invariant accounted _
             (fun e r r' H He => safe_deliver e r H tt r' He)
             r8 r9 Hacc8 Hrun9). }
  assert (Hlen9 : (length (object_heap (pdf r8))
                   < length (object_heap (pdf r9)))%nat).
  { destruct t; try discriminate Hdict.
    cbn [built reference getString] in Hbuilt9.
    destruct Hbuilt9 as (l & _ & Hl & _). lia. }
  assert (Hall9 : entries_match
                    (fun c l =>
                       built (object_heap (pdf r9))
                         (length (object_heap q))
                         (length (object_heap (pdf r9))) c (h_direct l))
                    (obj_cache (pdf r9)) entries).
  { eapply entries_match_impl; [| exact Hall8].
    intros m og c l _ _ _ Hl Hb. split; [apply Htab9, Hl |].
    eapply built_mono; [| | | exact Hb]; [lia | lia |].
    intros l' Hl'. apply Hframe9. lia. }
  (* the ends of the three dictionaries *)
  destruct (closing_qpdf_built O entries
              (set_state_stack [st_top; st_initial; st_initial]
                 (set_state st_qpdf r9))
              (length (object_heap q)))
    as (r10 & Hclose10 & Hctl10 & Hall10 & (extra & Hheap10) & Htrl10
        & Hver10 & Htop10 & Herr10); [| exact Hplain | exact Hall9 |].
  { apply (accounted_view r9); [destruct r9; reflexivity | exact Hacc9]. }
  cbn [pdf set_state set_state_stack] in Hheap10, Htrl10, Hver10.
  change (seen_top (set_state_stack [st_top; st_initial; st_initial]
                      (set_state st_qpdf r9)))
    with (seen_top r9) in Htop10.
  change (errors (set_state_stack [st_top; st_initial; st_initial]
                    (set_state st_qpdf r9)))
    with (errors r9) in Herr10.
  rewrite Htop9 in Htop10. unfold seen_top in Htop10.
  injection Htop10 as _ Hsq10 Hso10 Hsv10 Hst10'.
  unfold control in Hctl10. injection Hctl10 as Hst10 Hss10.
  cbn [state state_stack set_state set_state_stack] in Hst10, Hss10.
  assert (Hend10 : containerEnd O r9 = (Return tt, r10)).
  { rewrite containerEnd_closing, Hss9, Hss8. exact Hclose10. }
  set (r11 := set_state_stack [st_initial; st_initial]
                (set_state st_top r10)).
  assert (Hend11 : containerEnd Q r10 = (Return tt, r11)).
  { rewrite containerEnd_closing, Hss10. reflexivity. }
  destruct (closing_initial_returns doc
              (set_state_stack [st_initial] (set_state st_initial r11)))
    as (r12 & Hclose12 & Hheap12 & Htab12 & Htrl12 & Hver12 & Herr12).
  cbn [pdf set_state set_state_stack r11] in Hheap12, Htab12, Htrl12, Hver12.
  specialize (Herr12 Hsq10 Hso10 Hsv10 Hst10').
  change (errors (set_state_stack [st_initial] (set_state st_initial r11)))
    with (errors r10) in Herr12.
  assert (Hend12 : containerEnd doc r11 = (Return tt, r12)).
  { rewrite containerEnd_closing. exact Hclose12. }
  assert (Hrun : JSON_parse doc r0 = (Return tt, r12)).
  { unfold JSON_parse, doc. rewrite qpdf_document_events.
    fold O. fold Q. fold doc.
    rewrite run_app, run_cons, H1, run_cons, H2, run_cons, H3, run_cons, H4,
      run_done.
    rewrite run_app, H5.
    rewrite run_app, run_cons, H6, run_cons, H7, run_done.
    rewrite run_app, Hrun8. rewrite run_app, Hrun9.
    rewrite run_cons. cbn [deliver]. rewrite Hend10.
    rewrite run_cons. cbn [deliver]. rewrite Hend11.
    rewrite run_cons. cbn [deliver]. rewrite Hend12. apply run_done. }
  exists r12. split; [exact Hrun |].
  rewrite Hheap12, Htab12, Htrl12, Hver12.
  split; [congruence |].
  split.
  { rewrite Htrl10. eapply built_mono; [| | | exact Hbuilt9].
    - lia.
    - rewrite Hheap10, length_app. lia.
    - intros l Hl. rewrite Hheap10. apply lookup_app_l. lia. }
  split; [exact Hall10 |].
  split.
  { intros l Hl. rewrite Hheap10, lookup_app_l by lia.
    rewrite Hframe9 by lia. apply Hframe8. exact Hl. }
  intros Hclean Hcleant.
  rewrite Herr12, Herr10, (Herr9 Hcleant). exact (Herr8 Hclean).
Qed.




(** X20: importing a document in the layout the writer produces succeeds
    when every string in its values is recognized and the ids and
    generations in its keys and in its reference strings fit an [int].
    With a version of the right form, entries that each hold just a value,
    a trailer that is a dictionary, and only strings that [makeObject]
    recognizes in the values and in the trailer, no error is reported and
    the import returns, whether or not the document must be complete. *)
Theorem import_of_clean_document_succeeds (is_name version : string)
    (maxobjectid : JSON) (entries : list (string * JSON))
    (trailer_entry t : JSON) (s0 e0 s1 e1 s2 e2 sv ev : Z)
    (must_be_complete : bool) (q : QPDF) :
  Regex.PDF_VERSION_RE version = true ->
  Forall plain_entry entries ->
  value_of_entry trailer_entry = Some t -> isDictionary t = true ->
  fits t = true ->
  forallb (fun m => clean m.2) entries = true -> clean t = true ->
  table_sound q ->
  (forall og, ObjectGraph.isReserved q (h_indirect og) = false) ->
  (importJSON is_name
     (qpdf_document version maxobjectid entries trailer_entry
        s0 e0 s1 e1 s2 e2 sv ev)
     must_be_complete q).1
  = Return tt.
Proof.
  intros Hre Hplain Hvalue Hdict Hfits Hclean Hcleant Hsound Hnone.
  destruct (document_parsed is_name version maxobjectid entries
              trailer_entry t s0 e0 s1 e1 s2 e2 sv ev must_be_complete q
              Hre Hplain Hvalue Hdict Hfits Hsound Hnone)
    as (r & Hrun & _ & _ & _ & _ & Herr).
  unfold importJSON. rewrite Hrun. unfold anyErrors.
  rewrite (Herr Hclean Hcleant). reflexivity.
Qed.

Lemma import_of_clean_document_succeeds_witness :
  let t :=
    JSON_dictionary
      [("/Root", JSON_string "1 0 R" 0 0); ("/Size", JSON_number "3" 0 0)]
      0 0 in
  let entries :=
    [("obj:1 0 R",
      JSON_dictionary
        [("value",
          JSON_dictionary
            [("/Type", JSON_string "/Catalog" 0 0);
             ("/Title", JSON_string "u:potato" 0 0);
             ("/Kids", JSON_array [JSON_string "2 0 R" 0 0] 0 0)]
            0 0)]
        0 0);
     ("obj:2 0 R", JSON_dictionary [("value", JSON_null 0 0)] 0 0)] in
  (importJSON "in.json"
     (qpdf_document "1.7" (JSON_number "2" 0 0) entries
        (JSON_dictionary [("value", t)] 0 0) 0 0 0 0 0 0 0 0)
     false JSON_PDF).1
  = Return tt.
Proof.
  intros t entries.
  apply (import_of_clean_document_succeeds "in.json" "1.7"
           (JSON_number "2" 0 0) entries
           (JSON_dictionary [("value", t)] 0 0) t
           0 0 0 0 0 0 0 0 false JSON_PDF).
  - reflexivity.
  - constructor; [| constructor; [| constructor]].
    + split; [exists (1, 0); split; vm_compute; reflexivity |].
      eexists. split; [reflexivity |]. split; vm_compute; reflexivity.
    + split; [exists (2, 0); split; vm_compute; reflexivity |].
      eexists. split; [reflexivity |]. split; vm_compute; reflexivity.
  - reflexivity.
  - reflexivity.
  - vm_compute. reflexivity.
  - vm_compute. reflexivity.
  - vm_compute. reflexivity.
  - intros og l H. vm_compute in H. discriminate H.
  - intros og. reflexivity.
Defined.

(** *** A stream entry *)








